(** * Deterministic evidence analyzer (aws-deploy/lambdas/deterministic/app.py)

    A shallow embedding of the pure core of the Lambda: the text extractors,
    the attempt selector, the validation parser, the risk scorer and the
    status classifier, followed by the properties proved about them.

    Conventions of the embedding.
    - A Python [str] is a [string]; a character is an [ascii].  The character
      classes ([\s], [\d], [\w], [str.upper], [str.strip], [str.splitlines])
      are those of CPython on the code points below 128; bytes above 127 are
      treated as belonging to no class.  On a text with a code point above
      127 CPython may fold case, split lines or read digits where the
      embedding does not, so the statements that rest on these classes are
      made for ASCII texts ([Py.isascii]).
    - A Python [int] is a [Z]; [None] is [None]; a [dict] is a [gmap].
    - The module-level [s3] client is passed explicitly as a record of the two
      calls the core makes on it. *)

From Stdlib Require Import ZArith Ascii String List Bool Lia.
From stdpp Require Import base option list gmap strings pretty sorting.

Local Open Scope string_scope.
Local Open Scope Z_scope.

(* ================================================================== *)
(** ** Characters and strings, as CPython treats them *)
(* ================================================================== *)

Module Py.

Definition code (c : ascii) : nat := nat_of_ascii c.

Definition between (lo hi : nat) (c : ascii) : bool :=
  Nat.leb lo (code c) && Nat.leb (code c) hi.

(** [str.isspace] and the regex class [\s]: TAB..CR, FS..US and SPACE. *)
Definition isspace (c : ascii) : bool :=
  between 9 13 c || between 28 32 c.

(** The regex class [\d]. *)
Definition isdigit (c : ascii) : bool := between 48 57 c.

Definition islower (c : ascii) : bool := between 97 122 c.
Definition isupper (c : ascii) : bool := between 65 90 c.

(** The regex class [\w]: letters, digits and the underscore. *)
Definition isword (c : ascii) : bool :=
  islower c || isupper c || isdigit c || Nat.eqb (code c) 95.

Definition upper_char (c : ascii) : ascii :=
  if islower c then ascii_of_nat (Nat.sub (code c) 32) else c.

(** [s.upper()] *)
Fixpoint upper (s : string) : string :=
  match s with
  | EmptyString => EmptyString
  | String c s' => String (upper_char c) (upper s')
  end.

(** [all(p(c) for c in s)] *)
Fixpoint all (p : ascii -> bool) (s : string) : bool :=
  match s with
  | EmptyString => true
  | String c s' => p c && all p s'
  end.

(** [s.isascii()]: every code point of [s] is below 128. *)
Definition isascii (s : string) : bool :=
  all (fun c => Nat.ltb (code c) 128) s.

(** [c in s] for a single character [c] *)
Fixpoint mem_char (c : ascii) (s : string) : bool :=
  match s with
  | EmptyString => false
  | String x s' => Ascii.eqb c x || mem_char c s'
  end.

(** [s.startswith(p)] *)
Fixpoint startswith (p s : string) : bool :=
  match p, s with
  | EmptyString, _ => true
  | String a p', String b s' => Ascii.eqb a b && startswith p' s'
  | String _ _, EmptyString => false
  end.

(** [s.endswith(p)] *)
Definition endswith (p s : string) : bool :=
  startswith (String.rev p) (String.rev s).

(** [p in s] *)
Fixpoint contains (p s : string) : bool :=
  startswith p s ||
  match s with
  | EmptyString => false
  | String _ s' => contains p s'
  end.

Fixpoint lstrip (s : string) : string :=
  match s with
  | String c s' => if isspace c then lstrip s' else s
  | EmptyString => EmptyString
  end.

Definition rstrip (s : string) : string :=
  String.rev (lstrip (String.rev s)).

(** [s.strip()] *)
Definition strip (s : string) : string := rstrip (lstrip s).

(** The line boundaries of [str.splitlines] below 128:
    LF, VT, FF, CR, FS, GS, RS (and the pair CR LF). *)
Definition islinebreak (c : ascii) : bool :=
  between 10 13 c || between 28 30 c.

(** [s.splitlines()]: [cur] is the line being read, reversed; [after_cr]
    says that the previous character was a CR, so that a LF right after it
    belongs to the same boundary. *)
Fixpoint splitlines_go (after_cr : bool) (cur : string) (s : string)
    : list string :=
  match s with
  | EmptyString =>
      match cur with EmptyString => [] | _ => [String.rev cur] end
  | String c s' =>
      if after_cr && Nat.eqb (code c) 10 then
        splitlines_go false EmptyString s'
      else if islinebreak c then
        String.rev cur :: splitlines_go (Nat.eqb (code c) 13) EmptyString s'
      else splitlines_go false (String c cur) s'
  end.

Definition splitlines (s : string) : list string :=
  splitlines_go false EmptyString s.

(** [s.split(sep)] for a one-character separator: never empty. *)
Fixpoint split_go (sep : ascii) (cur : string) (s : string) : list string :=
  match s with
  | EmptyString => [String.rev cur]
  | String c s' =>
      if Ascii.eqb c sep then String.rev cur :: split_go sep EmptyString s'
      else split_go sep (String c cur) s'
  end.

Definition split (sep : ascii) (s : string) : list string :=
  split_go sep EmptyString s.

(** [l[-1]] on a list of strings that is known not to be empty. *)
Definition last_item (l : list string) : string := List.last l EmptyString.

(** [s.replace(old, new)]: every non-overlapping occurrence, left to right.
    [skip] counts the characters of an occurrence still to be dropped. *)
Fixpoint replace_go (old new : string) (skip : nat) (s : string) : string :=
  match s with
  | EmptyString => EmptyString
  | String c s' =>
      match skip with
      | S k => replace_go old new k s'
      | O =>
          if startswith old s
          then new ++ replace_go old new (Nat.pred (String.length old)) s'
          else String c (replace_go old new O s')
      end
  end.

Fixpoint replace_empty (new : string) (s : string) : string :=
  match s with
  | EmptyString => new
  | String c s' => new ++ String c (replace_empty new s')
  end.

Definition replace (old new s : string) : string :=
  match old with
  | EmptyString => replace_empty new s
  | _ => replace_go old new O s
  end.

(** [sys.get_int_max_str_digits()]: CPython refuses to convert a longer
    run of decimal digits and raises [ValueError]. *)
Definition INT_MAX_STR_DIGITS : nat := 4300.

Definition digit_value (c : ascii) : Z := Z.of_nat (Nat.sub (code c) 48).

Fixpoint digits_value (acc : Z) (s : string) : Z :=
  match s with
  | EmptyString => acc
  | String c s' => digits_value (10 * acc + digit_value c) s'
  end.

(** [int(s)] on what the callers pass, a capture of [\d+]: [None] stands
    for the exception that the callers catch. *)
Definition int (s : string) : option Z :=
  match s with
  | EmptyString => None
  | _ =>
      if all isdigit s && Nat.leb (String.length s) INT_MAX_STR_DIGITS
      then Some (digits_value 0 s)
      else None
  end.

End Py.

(* ================================================================== *)
(** ** The fragment of [re] the module uses *)
(* ================================================================== *)

Module Re.

(** Pattern syntax: literals, classes, anchors, greedy bounded repetition
    of a class, capture groups, greedy optional parts and sequencing. *)
Inductive re : Type :=
| Eps
| Chr (c : ascii)
| Cls (p : ascii -> bool)
| Bnd                                     (* \b *)
| Bol                                     (* ^  *)
| Eol                                     (* $  *)
| Rep (p : ascii -> bool) (lo : nat) (hi : option nat)
| Grp (i : nat) (r : re)
| Opt (r : re)
| Seq (r1 r2 : re).

Fixpoint Lit (s : string) : re :=
  match s with
  | EmptyString => Eps
  | String c s' => Seq (Chr c) (Lit s')
  end.

(** A compiled pattern: its syntax and the [re.IGNORECASE] flag. *)
Record pattern : Type := Pattern { pat : re; ignorecase : bool }.

(** The matcher's position: the character just before it (none at the start
    of the text), the text still to read, and the groups captured so far,
    most recent first. *)
Record mstate : Type := MState {
  prev : option ascii;
  rest : string;
  caps : list (nat * string)
}.

Definition chr_eq (icase : bool) (c x : ascii) : bool :=
  if icase then Ascii.eqb (Py.upper_char c) (Py.upper_char x)
  else Ascii.eqb c x.

Definition word_at (o : option ascii) : bool :=
  match o with Some c => Py.isword c | None => false end.

Definition peek (s : string) : option ascii :=
  match s with String c _ => Some c | EmptyString => None end.

(** Greedy repetition of a class, between [lo] and [hi] times: the longest
    run is tried first, and the matcher backtracks one character at a time
    while the continuation [k] fails. *)
Fixpoint rep_greedy {A} (p : ascii -> bool) (lo : nat) (hi : option nat)
    (k : option ascii -> string -> option A)
    (pv : option ascii) (s : string) : option A :=
  let stop := match lo with O => k pv s | S _ => None end in
  match s with
  | String c s' =>
      if p c && match hi with Some O => false | _ => true end then
        match rep_greedy p (Nat.pred lo) (Nat.pred <$> hi) k (Some c) s' with
        | Some r => Some r
        | None => stop
        end
      else stop
  | EmptyString => stop
  end.

(** Backtracking matcher in continuation-passing style. *)
Fixpoint run {A} (icase : bool) (r : re) (st : mstate)
    (k : mstate -> option A) : option A :=
  match r with
  | Eps => k st
  | Chr c =>
      match rest st with
      | String x s' =>
          if chr_eq icase c x then k (MState (Some x) s' (caps st)) else None
      | EmptyString => None
      end
  | Cls p =>
      match rest st with
      | String x s' =>
          if p x then k (MState (Some x) s' (caps st)) else None
      | EmptyString => None
      end
  | Bnd =>
      if xorb (word_at (prev st)) (word_at (peek (rest st)))
      then k st else None
  | Bol => match prev st with None => k st | Some _ => None end
  | Eol =>
      match rest st with
      | EmptyString => k st
      | String c EmptyString => if Nat.eqb (Py.code c) 10 then k st else None
      | _ => None
      end
  | Rep p lo hi =>
      rep_greedy p lo hi (fun pv s' => k (MState pv s' (caps st)))
        (prev st) (rest st)
  | Grp i r' =>
      run icase r' st (fun st' =>
        let n := Nat.sub (String.length (rest st)) (String.length (rest st')) in
        k (MState (prev st') (rest st')
             ((i, String.substring 0 n (rest st)) :: caps st')))
  | Opt r' =>
      match run icase r' st k with
      | Some x => Some x
      | None => k st
      end
  | Seq r1 r2 => run icase r1 st (fun st' => run icase r2 st' k)
  end.

(** A match object: where the match ended and what the groups captured. *)
Definition match_at (p : pattern) (pv : option ascii) (s : string)
    : option mstate :=
  run (ignorecase p) (pat p) (MState pv s []) Some.

(** [p.match(s)] *)
Definition match_ (p : pattern) (s : string) : option mstate :=
  match_at p None s.

Fixpoint search_from (p : pattern) (pv : option ascii) (s : string)
    : option mstate :=
  match match_at p pv s with
  | Some m => Some m
  | None =>
      match s with
      | String c s' => search_from p (Some c) s'
      | EmptyString => None
      end
  end.

(** [p.search(s)]: the leftmost match. *)
Definition search (p : pattern) (s : string) : option mstate :=
  search_from p None s.

(** [m.group(i)]: [None] when group [i] took no part in the match. *)
Definition group (m : mstate) (i : nat) : option string :=
  snd <$> List.find (fun c => Nat.eqb (fst c) i) (caps m).

End Re.


Module ReMore.
Import Re.

(** [p.finditer(s)] for a pattern that never matches the empty string:
    the successive leftmost matches, none overlapping the previous one.
    [skip] counts the characters of the last match still to be passed. *)
Fixpoint finditer_go (p : pattern) (skip : nat) (pv : option ascii)
    (s : string) : list mstate :=
  match s with
  | EmptyString => []
  | String c s' =>
      match skip with
      | S k => finditer_go p k (Some c) s'
      | O =>
          match match_at p pv s with
          | Some m =>
              m :: finditer_go p
                     (Nat.pred (Nat.sub (String.length s) (String.length (rest m))))
                     (Some c) s'
          | None => finditer_go p O (Some c) s'
          end
      end
  end.

Definition finditer (p : pattern) (s : string) : list mstate :=
  finditer_go p O None s.

(** [p.split(s)] for a pattern that never matches the empty string.
    [cur] is the piece being read, reversed. *)
Fixpoint split_go (p : pattern) (skip : nat) (pv : option ascii)
    (cur : string) (s : string) : list string :=
  match s with
  | EmptyString => [String.rev cur]
  | String c s' =>
      match skip with
      | S k => split_go p k (Some c) cur s'
      | O =>
          match match_at p pv s with
          | Some m =>
              String.rev cur ::
                split_go p
                  (Nat.pred (Nat.sub (String.length s) (String.length (rest m))))
                  (Some c) EmptyString s'
          | None => split_go p O (Some c) (String c cur) s'
          end
      end
  end.

Definition split (p : pattern) (s : string) : list string :=
  split_go p O None EmptyString s.

End ReMore.

Declare Scope re_scope.
Delimit Scope re_scope with re.
Infix ">>" := Re.Seq (at level 60, right associativity) : re_scope.

(** [\s+], [\d+] and the like; [\s*]. *)
Definition plus (p : ascii -> bool) : Re.re := Re.Rep p 1 None.
Definition star (p : ascii -> bool) : Re.re := Re.Rep p 0 None.

(* ================================================================== *)
(** ** Limits, allowlist, patterns, taxonomy, weights *)
(* ================================================================== *)

Definition MAX_BYTES_LOG : Z := 600000.
Definition MAX_BYTES_PROOF : Z := 120000.

Definition ALLOWLIST_RELATIVE_KEYS : list string :=
  [ "02-precheck/precheck.log";
    "03-migration/expdp_legacy_18c.log";
    "04-validation/validation_23c.log" ].

Definition MIGRATION_PREFIX_REL : string := "03-migration/".
Definition INVALID_OBJECT_PROOF_REL : string :=
  "04-validation/invalid_object_proof.txt".
Definition ORDERS_COUNT_PROOF_REL : string :=
  "04-validation/orders_count_proof.txt".

Section Patterns.
Import Re.
Local Open Scope re_scope.

Definition quote : ascii := ascii_of_nat 34.
Definition notquote (c : ascii) : bool := negb (Ascii.eqb c quote).

(** [\bORA-\d{5}\b], with the code as group 1 *)
Definition ORA_RE : pattern :=
  Pattern (Bnd >> Grp 1 (Lit "ORA-" >> Rep Py.isdigit 5 (Some 5%nat)) >> Bnd)
          true.

(** [\bsuccessfully completed\b] *)
Definition DP_SUCCESS_RE : pattern :=
  Pattern (Bnd >> Lit "successfully completed" >> Bnd) true.

(** [\bcompleted with\s+(\d+)\s+error] *)
Definition DP_COMPLETED_WITH_ERRORS_RE : pattern :=
  Pattern (Bnd >> Lit "completed with" >> plus Py.isspace >>
           Grp 1 (plus Py.isdigit) >> plus Py.isspace >> Lit "error") true.

(** [\bcompleted with\s+error] *)
Definition DP_COMPLETED_WITH_ERRORS_RE2 : pattern :=
  Pattern (Bnd >> Lit "completed with" >> plus Py.isspace >> Lit "error")
          true.

(** [\bcompleted\b] *)
Definition DP_COMPLETED_RE : pattern :=
  Pattern (Bnd >> Lit "completed" >> Bnd) true.

(** [retry(\d+)?] *)
Definition IMPDP_RETRY_RE : pattern :=
  Pattern (Lit "retry" >> Opt (Grp 1 (plus Py.isdigit))) true.

(** [ORA-39082:\s+Object type\s+(\w+):"([^"]+)"\."([^"]+)"\s+created with
    compilation warnings] *)
Definition ORA_39082_OBJ_RE : pattern :=
  Pattern (Lit "ORA-39082:" >> plus Py.isspace >> Lit "Object type" >>
           plus Py.isspace >> Grp 1 (plus Py.isword) >> Lit ":" >>
           Chr quote >> Grp 2 (plus notquote) >> Chr quote >> Lit "." >>
           Chr quote >> Grp 3 (plus notquote) >> Chr quote >>
           plus Py.isspace >> Lit "created with compilation warnings") true.

(** [^\s*(\d{1,12})\s*$] *)
Definition INTEGER_LINE_RE : pattern :=
  Pattern (Bol >> star Py.isspace >> Grp 1 (Rep Py.isdigit 1 (Some 12%nat)) >>
           star Py.isspace >> Eol) false.

(** [\s{2,}], the separator of [_parse_invalid_object_proof] *)
Definition TWO_SPACES_RE : pattern :=
  Pattern (Rep Py.isspace 2 None) false.

End Patterns.

Definition FATAL_ORA : gset string :=
  {[ "ORA-39000"; "ORA-31640"; "ORA-27037" ]}.

Definition WARN_ORA : gset string :=
  {[ "ORA-31642"; "ORA-39127"; "ORA-44002"; "ORA-06550"; "ORA-39082" ]}.

Definition INFO_ORA : gset string := {[ "ORA-06512" ]}.

Definition RISK_WEIGHTS : gmap string Z :=
  list_to_map
    [ ("missing_required_log", 15);
      ("missing_impdp_log", 25);
      ("impdp_retry_present", 10);
      ("fatal_ora_present", 50);
      ("warn_ora_present", 15);
      ("dp_completion_marker_missing", 10);
      ("expdp_completed_with_errors", 10);
      ("validation_invalid_objects_present", 25);
      ("validation_orders_count_missing", 5) ].

(* ================================================================== *)
(** ** Data structures *)
(* ================================================================== *)

Record LogResult : Type := mkLogResult {
  key_rel : string;
  found : bool;
  text : option string;
  ora_counts : gmap string Z;
  dp_state : string;
  dp_error_count : option Z
}.

(** One entry of the [Contents] of a [list_objects_v2] response.  The
    modification time is a point on a linear time scale. *)
Record s3_object : Type := mkObject {
  Key : string;
  LastModified : Z;
  Size : option Z
}.

(** The two calls made on the [s3] client.  [s3_try_get_text bucket key
    max_bytes] is [None] when the key does not exist; [list_objects_v2 bucket
    prefix] is the [Contents] of the response (empty when there is none). *)
Record s3_client : Type := mkS3 {
  s3_try_get_text : string -> string -> Z -> option string;
  list_objects_v2 : string -> string -> list s3_object
}.

(** The keys of a dict. *)
Definition keys {V} (m : gmap string V) : list string := (map_to_list m).*1.

(** [sorted(l)] on a list of strings *)
Definition sorted (l : list string) : list string :=
  merge_sort String.le l.

(** [len(l)] *)
Definition len {A} (l : list A) : Z := Z.of_nat (List.length l).

(* ================================================================== *)
(** ** Parsing helpers *)
(* ================================================================== *)

Definition _parse_ora_counts (text : string) : gmap string Z :=
  foldl (fun counts m =>
           match Re.group m 1 with
           | Some code =>
               let cu := Py.upper code in
               <[cu := default 0 (counts !! cu) + 1]> counts
           | None => counts
           end)
        ∅ (ReMore.finditer ORA_RE text).

Definition _dp_completion_state_and_errors (text : string)
    : string * option Z :=
  match Re.search DP_SUCCESS_RE text with
  | Some _ => ("SUCCESS", Some 0)
  | None =>
  match Re.search DP_COMPLETED_WITH_ERRORS_RE text with
  | Some m => ("COMPLETED_WITH_ERRORS", Re.group m 1 ≫= Py.int)
  | None =>
  match Re.search DP_COMPLETED_WITH_ERRORS_RE2 text with
  | Some _ => ("COMPLETED_WITH_ERRORS", None)
  | None =>
  match Re.search DP_COMPLETED_RE text with
  | Some _ => ("COMPLETED", None)
  | None => ("NONE", None)
  end end end end.

Definition _impdp_retry_number (filename : string) : Z :=
  match Re.search IMPDP_RETRY_RE filename with
  | None => 0
  | Some m =>
      match Re.group m 1 with
      | None | Some EmptyString => 1
      | Some g => default 1 (Py.int g)
      end
  end.

Definition _analyze_log (s3 : s3_client) (bucket run_prefix rel_key : string)
    : LogResult :=
  let abs_key := run_prefix ++ rel_key in
  match s3_try_get_text s3 bucket abs_key MAX_BYTES_LOG with
  | None => mkLogResult rel_key false None ∅ "NONE" None
  | Some text =>
      let '(dp_state, dp_errs) := _dp_completion_state_and_errors text in
      mkLogResult rel_key true (Some text) (_parse_ora_counts text)
                  dp_state dp_errs
  end.

(* ================================================================== *)
(** ** Attempt selector *)
(* ================================================================== *)

(** One entry of the [impdp_candidates] list of the summary. *)
Record candidate_meta : Type := mkMeta {
  meta_key : string;
  meta_base_name : string;
  meta_retry_number : Z;
  meta_last_modified : Z;
  meta_size : option Z
}.

(** The sort key [(x[1], x[0]["LastModified"])] and the order of tuples. *)
Definition sort_key (x : s3_object * Z) : Z * Z := (x.2, LastModified x.1).

Definition tuple_le (a b : Z * Z) : bool :=
  (a.1 <? b.1) || ((a.1 =? b.1) && (a.2 <=? b.2)).

(** [list.sort(key=...)]: a stable sort.  [insert_by] puts [x] in front of
    the first element whose key is not below the key of [x]. *)
Fixpoint insert_by {A} (key : A -> Z * Z) (x : A) (l : list A) : list A :=
  match l with
  | [] => [x]
  | y :: l' =>
      if tuple_le (key x) (key y) then x :: l else y :: insert_by key x l'
  end.

Definition sort_by {A} (key : A -> Z * Z) (l : list A) : list A :=
  foldr (insert_by key) [] l.

Definition is_impdp_log (o : s3_object) : bool :=
  let base := Py.last_item (Py.split "/" (Key o)) in
  Py.startswith "impdp_" base && Py.endswith ".log" base.

(** The first loop: the objects named like an import log, with their retry
    number. *)
Definition impdp_candidates (objs : list s3_object) : list (s3_object * Z) :=
  (fun o => (o, _impdp_retry_number (Py.last_item (Py.split "/" (Key o)))))
    <$> List.filter is_impdp_log objs.

(** [max(rn for _, rn in candidates)] on a list that is not empty. *)
Definition max_rn (candidates : list (s3_object * Z)) : Z :=
  match candidates with
  | [] => 0
  | c :: cs => foldl Z.max c.2 (snd <$> cs)
  end.

Definition _pick_best_impdp_log (s3 : s3_client) (bucket run_prefix : string)
    : option string * Z * list candidate_meta * string :=
  let prefix := run_prefix ++ MIGRATION_PREFIX_REL in
  let objs := list_objects_v2 s3 bucket prefix in
  let candidates := impdp_candidates objs in
  let meta :=
    (fun '(o, rn) =>
       mkMeta (Py.replace run_prefix "" (Key o))
              (Py.last_item (Py.split "/" (Key o)))
              rn (LastModified o) (Size o)) <$> candidates in
  match candidates with
  | [] => (None, 0, meta, "no_candidates")
  | c0 :: _ =>
      let '(selected_obj, _selected_rn) :=
        List.last (sort_by sort_key candidates) c0 in
      let selection_reason :=
        if max_rn candidates >? 0
        then "filename_retry_number_then_lastmodified"
        else "lastmodified" in
      (Some (Key selected_obj), len candidates, meta, selection_reason)
  end.

(* ================================================================== *)
(** ** Bounded excerpts *)
(* ================================================================== *)

(** [l[start:stop]] with Python's treatment of negative and oversized
    indices. *)
Definition slice_index (n i : Z) : Z :=
  if i <? 0 then Z.max 0 (i + n) else Z.min i n.

Definition slice {A} (l : list A) (start stop : Z) : list A :=
  let a := slice_index (len l) start in
  let b := slice_index (len l) stop in
  take (Z.to_nat (b - a)) (drop (Z.to_nat a) l).

(** The inner loop: the index of the first line that contains [code_u]. *)
Definition hit_line (code_u : string) (ln : string) : Prop :=
  Is_true (Py.contains code_u (Py.upper ln)).

Definition find_hit (code_u : string) (lines : list string) : option Z :=
  (fun r => Z.of_nat r.1) <$> list_find (hit_line code_u) lines.

(** The window of [context_lines] lines on each side of line [hit_idx]. *)
Definition window (lines : list string) (context_lines hit_idx : Z)
    : list string :=
  let start := Z.max 0 (hit_idx - context_lines) in
  let end_ := Z.min (len lines) (hit_idx + context_lines + 1) in
  slice lines start end_.

(** The outer loop over [codes]; the state is [(excerpts, used)].  Leaving
    the recursion is the [break]. *)
Fixpoint excerpts_loop (lines : list string) (context_lines max_total_lines : Z)
    (codes : list string) (st : gmap string (list string) * Z)
    : gmap string (list string) * Z :=
  match codes with
  | [] => st
  | code :: codes' =>
      let '(excerpts, used) := st in
      let code_u := Py.upper code in
      match find_hit code_u lines with
      | None =>
          excerpts_loop lines context_lines max_total_lines codes' st
      | Some hit_idx =>
          let chunk := window lines context_lines hit_idx in
          let remaining := max_total_lines - used in
          if remaining <=? 0 then st
          else
            let chunk :=
              if len chunk >? remaining
              then take (Z.to_nat remaining) chunk else chunk in
            excerpts_loop lines context_lines max_total_lines codes'
              (<[code_u := chunk]> excerpts, used + len chunk)
      end
  end.

Definition _extract_excerpts (text : string) (codes : list string)
    (context_lines max_total_lines : Z) : gmap string (list string) :=
  match text, codes with
  | EmptyString, _ | _, [] => ∅
  | _, _ =>
      (excerpts_loop (Py.splitlines text) context_lines max_total_lines
         codes (∅, 0)).1
  end.

(** The defaults of the two keyword arguments. *)
Definition DEFAULT_CONTEXT_LINES : Z := 2.
Definition DEFAULT_MAX_TOTAL_LINES : Z := 20.

Record compile_warning : Type := mkWarning {
  cw_ora : string;
  cw_object_type : string;
  cw_schema : string;
  cw_object_name : string
}.

Definition _extract_compile_warnings_39082 (text : string)
    : list compile_warning :=
  (fun m =>
     mkWarning "ORA-39082"
       (Py.upper (default "" (Re.group m 1)))
       (default "" (Re.group m 2))
       (default "" (Re.group m 3)))
    <$> ReMore.finditer ORA_39082_OBJ_RE text.

(* ================================================================== *)
(** ** Validation proof parsing *)
(* ================================================================== *)

Record invalid_object : Type := mkInvalid {
  io_owner : string;
  io_object_name : string;
  io_object_type : string;
  io_status : string
}.

Record invalid_proof : Type := mkProof {
  count : option Z;
  objects : list invalid_object
}.

(** One turn of the loop over the lines; the state is [(count, objects)]. *)
Definition invalid_row (st : Z * list invalid_object) (ln : string)
    : Z * list invalid_object :=
  let s := Py.strip ln in
  match s with
  | EmptyString => st
  | _ =>
      if Py.startswith "OWNER" (Py.upper s)
         || Py.all (fun c => Py.mem_char c "- ") s
      then st
      else
        match ReMore.split TWO_SPACES_RE s with
        | owner :: obj_name :: obj_type :: status :: _ =>
            if String.eqb (Py.upper status) "INVALID"
            then (st.1 + 1,
                  (st.2 ++ [mkInvalid owner obj_name obj_type status])%list)
            else st
        | _ => st
        end
  end.

Definition _parse_invalid_object_proof (text : string) : invalid_proof :=
  match text with
  | EmptyString => mkProof None []
  | _ =>
      let '(count, objects) :=
        foldl invalid_row (0, []) (Py.splitlines text) in
      mkProof (Some count) objects
  end.

(** The loop of [_parse_orders_count_proof]: the first line the pattern
    matches decides. *)
Fixpoint first_integer_line (lines : list string) : option Z :=
  match lines with
  | [] => None
  | ln :: lines' =>
      match Re.match_ INTEGER_LINE_RE ln with
      | Some m => Re.group m 1 ≫= Py.int
      | None => first_integer_line lines'
      end
  end.

Definition _parse_orders_count_proof (text : string) : option Z :=
  match text with
  | EmptyString => None
  | _ => first_integer_line (Py.splitlines text)
  end.

Record evidence_flags : Type := mkFlags {
  invalid_object_proof : bool;
  orders_count_proof : bool
}.

Record ValidationResult : Type := mkValidation {
  status : string;
  invalid_objects_count : option Z;
  invalid_objects_sample : list invalid_object;
  orders_count : option Z;
  evidence : evidence_flags
}.

Definition _parse_validation (s3 : s3_client) (bucket run_prefix : string)
    : ValidationResult :=
  let invalid_txt :=
    s3_try_get_text s3 bucket (run_prefix ++ INVALID_OBJECT_PROOF_REL)
      MAX_BYTES_PROOF in
  let orders_txt :=
    s3_try_get_text s3 bucket (run_prefix ++ ORDERS_COUNT_PROOF_REL)
      MAX_BYTES_PROOF in
  let invalid_parsed := _parse_invalid_object_proof (default "" invalid_txt) in
  let orders_count := _parse_orders_count_proof (default "" orders_txt) in
  let invalid_count := count invalid_parsed in
  let status :=
    match invalid_count with
    | None => "UNKNOWN"
    | Some n =>
        if n >? 0 then "WARN"
        else match orders_count with Some _ => "PASS" | None => "WARN" end
    end in
  mkValidation status invalid_count (take 20 (objects invalid_parsed))
    orders_count
    (mkFlags (bool_decide (is_Some invalid_txt))
             (bool_decide (is_Some orders_txt))).

(* ================================================================== *)
(** ** Risk and status *)
(* ================================================================== *)

Definition _risk_level (score : Z) : string :=
  if score >=? 70 then "HIGH"
  else if score >=? 35 then "MEDIUM"
  else "LOW".

(** The [evidence] of a factor is a string, a list of codes, a count or a
    small dict about a log. *)
Inductive evidence_value : Type :=
| EvStr (s : string)
| EvCodes (codes : list string)
| EvInt (n : Z)
| EvLog (log : string) (error_count : option Z).

Record factor : Type := mkFactor {
  f_factor : string;
  f_weight : Z;
  f_evidence : evidence_value
}.

(** The two statements every trigger repeats:
    [score += RISK_WEIGHTS[name]] and [factors.append({...})]. *)
Definition trigger (name : string) (ev : evidence_value)
    (st : Z * list factor) : Z * list factor :=
  (st.1 + RISK_WEIGHTS !!! name,
   (st.2 ++ [mkFactor name (RISK_WEIGHTS !!! name) ev])%list).

(** [lr and lr.found] *)
Definition is_found (lr : option LogResult) : bool :=
  match lr with Some l => found l | None => false end.

(** [(impdp.ora_counts if (impdp and impdp.found) else {}) or {}] *)
Definition imp_ora_of (impdp : option LogResult) : gmap string Z :=
  match impdp with
  | Some l => if found l then ora_counts l else ∅
  | None => ∅
  end.

(** [lr and lr.found and lr.dp_state == state] *)
Definition found_in_state (lr : option LogResult) (state : string) : bool :=
  match lr with
  | Some l => found l && String.eqb (dp_state l) state
  | None => false
  end.

Definition nonempty {A} (l : list A) : bool :=
  match l with [] => false | _ :: _ => true end.

Definition _risk_score (required_logs : list LogResult)
    (impdp : option LogResult) (impdp_count : Z) (expdp : option LogResult)
    (validation : ValidationResult) : Z * list factor :=
  let st : Z * list factor := (0, []) in
  let st :=
    foldl (fun st lr =>
             if found lr then st
             else trigger "missing_required_log" (EvStr (key_rel lr)) st)
          st required_logs in
  let st :=
    if is_found impdp then st
    else trigger "missing_impdp_log"
           (EvStr "No impdp log selected/found under 03-migration/") st in
  let st :=
    if impdp_count >? 1
    then trigger "impdp_retry_present"
           (EvStr ("impdp_log_count=" ++ pretty impdp_count)) st
    else st in
  let imp_ora := imp_ora_of impdp in
  let fatal_codes := sorted (filter (fun c => c ∈ FATAL_ORA) (keys imp_ora)) in
  let warn_codes := sorted (filter (fun c => c ∈ WARN_ORA) (keys imp_ora)) in
  let fatal_present := nonempty fatal_codes in
  let st :=
    if fatal_present
    then trigger "fatal_ora_present" (EvCodes fatal_codes) st
    else if nonempty warn_codes
    then trigger "warn_ora_present" (EvCodes warn_codes) st
    else st in
  let st :=
    match impdp with
    | Some l =>
        if found_in_state impdp "NONE" && negb fatal_present
        then trigger "dp_completion_marker_missing" (EvStr (key_rel l)) st
        else st
    | None => st
    end in
  let st :=
    match expdp with
    | Some l =>
        if found_in_state expdp "COMPLETED_WITH_ERRORS"
        then trigger "expdp_completed_with_errors"
               (EvLog (key_rel l) (dp_error_count l)) st
        else st
    | None => st
    end in
  let st :=
    match invalid_objects_count validation with
    | Some inv =>
        if inv >? 0
        then trigger "validation_invalid_objects_present" (EvInt inv) st
        else st
    | None => st
    end in
  let st :=
    match orders_count validation with
    | None =>
        trigger "validation_orders_count_missing"
          (EvStr "orders_count_proof missing or unparseable") st
    | Some _ => st
    end in
  (Z.min 100 st.1, st.2).

(** [any(c in FATAL_ORA for c in d.keys())] *)
Definition any_fatal (d : gmap string Z) : bool :=
  existsb (fun c => bool_decide (c ∈ FATAL_ORA)) (keys d).

Definition _classify_status (expdp impdp : option LogResult)
    (validation : ValidationResult) (impdp_count : Z) : string * list string :=
  let reasons : list string :=
    if impdp_count >? 1
    then ["Multiple impdp attempts detected (count=" ++ pretty impdp_count
          ++ ")."]
    else [] in
  let imp_ora := imp_ora_of impdp in
  if any_fatal imp_ora then
    ("FAIL", (reasons ++ ["Fatal ORA codes detected in impdp."])%list)
  else
    let reasons :=
      if String.eqb (status validation) "WARN"
      then (reasons ++
            ["Post-validation indicates WARN conditions (invalid objects present)."])%list
      else reasons in
    if found_in_state impdp "COMPLETED_WITH_ERRORS"
    then ("WARN", (reasons ++ ["impdp completed with errors."])%list)
    else if found_in_state expdp "COMPLETED_WITH_ERRORS"
    then ("WARN", (reasons ++ ["expdp completed with errors."])%list)
    else if found_in_state impdp "SUCCESS"
         && found_in_state expdp "SUCCESS"
         && String.eqb (status validation) "PASS"
    then ("PASS", reasons)
    else ("WARN",
          (reasons ++
           ["Evidence present but not definitive SUCCESS for all phases."])%list).

(** The local function [dp_status] of [lambda_handler]. *)
Definition dp_status (lr : option LogResult) : string :=
  match lr with
  | None => "MISSING"
  | Some l =>
      if negb (found l) then "MISSING"
      else if any_fatal (ora_counts l) then "FAIL"
      else if String.eqb (dp_state l) "SUCCESS" then "PASS"
      else if String.eqb (dp_state l) "COMPLETED_WITH_ERRORS" then "WARN"
      else "WARN"
  end.

(* ================================================================== *)
(** ** The handler, from the run prefix to the summary *)
(* ================================================================== *)

Record export_phase : Type := mkExport {
  export_log : option string;
  export_status : string;
  export_completion_state : string;
  export_completed_with_error_count : option Z
}.

Record import_phase : Type := mkImport {
  import_log : option string;
  import_status : string;
  import_completion_state : string;
  import_attempt_count : Z
}.

Record datapump_summary : Type := mkDatapump {
  dp_export : export_phase;
  dp_import : import_phase;
  dp_impdp_candidates : list candidate_meta;
  dp_selection_reason : string
}.

(** The [datapump] entry of the summary. *)
Definition datapump (expdp_lr impdp_lr : option LogResult)
    (selected_impdp_rel : option string) (impdp_log_count : Z)
    (impdp_candidates : list candidate_meta) (selection_reason : string)
    : datapump_summary :=
  mkDatapump
    (mkExport (key_rel <$> expdp_lr)
              (dp_status expdp_lr)
              (default "NONE" (dp_state <$> expdp_lr))
              (expdp_lr ≫= dp_error_count))
    (mkImport selected_impdp_rel
              (dp_status impdp_lr)
              (default "NONE" (dp_state <$> impdp_lr))
              impdp_log_count)
    impdp_candidates selection_reason.

(** The part of the summary computed from the artifacts of the run (the
    entries copied from the metrics blob and the constant ones are left
    out). *)
Record Summary : Type := mkSummary {
  selected_impdp_log : option string;
  log_presence : gmap string bool;
  ora_counts_by_file : gmap string (gmap string Z);
  sum_datapump : datapump_summary;
  compile_warnings : list compile_warning;
  sum_validation : ValidationResult;
  overall_status : string;
  status_reasons : list string;
  risk_score : Z;
  risk_level : string;
  risk_factors : list factor;
  evidence_excerpts : gmap string (gmap string (list string))
}.

(** The part of [lambda_handler] that follows the read of the metrics blob
    (which raises when the blob is missing or is not a JSON object, before
    any summary is built), once the bucket and the run prefix are known.  The
    result is [None] when the read of the selected import log raises. *)
Definition analyze_run (s3 : s3_client) (bucket run_prefix : string)
    : option Summary :=
  let log_results :=
    _analyze_log s3 bucket run_prefix <$> ALLOWLIST_RELATIVE_KEYS in
  let log_presence : gmap string bool :=
    foldl (fun d lr => <[key_rel lr := found lr]> d) ∅ log_results in
  let ora_counts_by_file : gmap string (gmap string Z) :=
    foldl (fun d lr => <[key_rel lr := ora_counts lr]> d) ∅ log_results in
  let expdp_lr :=
    List.find (fun x => Py.endswith "expdp_legacy_18c.log" (key_rel x))
      log_results in
  let '(selected_impdp_abs, impdp_log_count, impdp_candidates,
        selection_reason) := _pick_best_impdp_log s3 bucket run_prefix in
  let finish (impdp_lr : option LogResult) (selected_impdp_rel : option string)
        log_presence ora_counts_by_file evidence_excerpts compile_warnings :=
    let validation := _parse_validation s3 bucket run_prefix in
    let '(overall_status, status_reasons) :=
      _classify_status expdp_lr impdp_lr validation impdp_log_count in
    let '(risk_score_value, risk_factors) :=
      _risk_score log_results impdp_lr impdp_log_count expdp_lr validation in
    mkSummary selected_impdp_rel log_presence ora_counts_by_file
      (datapump expdp_lr impdp_lr selected_impdp_rel impdp_log_count
         impdp_candidates selection_reason)
      compile_warnings validation overall_status status_reasons
      risk_score_value (_risk_level risk_score_value) risk_factors
      evidence_excerpts in
  match selected_impdp_abs with
  | None | Some EmptyString =>
      Some (finish None None log_presence ora_counts_by_file ∅ [])
  | Some selected_impdp_abs =>
      let selected_impdp_rel := Py.replace run_prefix "" selected_impdp_abs in
      impdp_text ← s3_try_get_text s3 bucket selected_impdp_abs MAX_BYTES_LOG;
      let '(dp_state, dp_errs) := _dp_completion_state_and_errors impdp_text in
      let impdp_lr :=
        mkLogResult selected_impdp_rel true (Some impdp_text)
          (_parse_ora_counts impdp_text) dp_state dp_errs in
      let fatal_in_impdp :=
        sorted (filter (fun c => c ∈ FATAL_ORA) (keys (ora_counts impdp_lr))) in
      let evidence_excerpts : gmap string (gmap string (list string)) :=
        if nonempty fatal_in_impdp
        then {[ selected_impdp_rel :=
                  _extract_excerpts impdp_text fatal_in_impdp
                    DEFAULT_CONTEXT_LINES DEFAULT_MAX_TOTAL_LINES ]}
        else ∅ in
      Some (finish (Some impdp_lr) (Some selected_impdp_rel)
              (<[selected_impdp_rel := true]> log_presence)
              (<[selected_impdp_rel := ora_counts impdp_lr]> ora_counts_by_file)
              evidence_excerpts
              (_extract_compile_warnings_39082 impdp_text))
  end.

(* ================================================================== *)
(** ** A client over a finite store, to run the model on examples *)
(* ================================================================== *)

(** A bucket as a list of (key, text, modification time); the bucket name
    is ignored and the byte cap is taken to be large enough. *)
Definition store : Type := list (string * (string * Z)).

Definition store_client (st : store) : s3_client :=
  mkS3 (fun _ key _ =>
          (fun e => e.2.1) <$> List.find (fun e => String.eqb e.1 key) st)
       (fun _ prefix =>
          (fun e => mkObject e.1 e.2.2 (Some (Z.of_nat (String.length e.2.1))))
            <$> List.filter (fun e => Py.startswith prefix e.1) st).

(* ================================================================== *)
(** ** The trigger key and the keys written *)
(* ================================================================== *)

(** The outcome of a call that may raise [ValueError]. *)
Inductive outcome (A : Type) : Type :=
| Return (a : A)
| RaiseValueError (msg : string).
Arguments Return {A} a.
Arguments RaiseValueError {A} msg.

(** [s[:stop]] on a string *)
Definition str_slice_to (s : string) (stop : Z) : string :=
  String.substring 0
    (Z.to_nat (slice_index (Z.of_nat (String.length s)) stop)) s.

Definition _derive_run_prefix (metrics_key : string) : outcome string :=
  let suffix := "/00-metadata/metrics.json" in
  if negb (Py.endswith suffix metrics_key) then
    RaiseValueError
      ("Unexpected trigger key. Expected suffix '" ++ suffix ++ "', got: "
       ++ metrics_key)
  else
    Return (str_slice_to metrics_key
              (- Z.of_nat (String.length "00-metadata/metrics.json"))).

(** The keys [lambda_handler] writes the summary and the report to. *)
Definition summary_key (run_prefix : string) : string :=
  run_prefix ++ "00-metadata/sanitized_summary.json".

Definition report_key (run_prefix : string) : string :=
  run_prefix ++ "05-reports/executive_report.md".

(* ================================================================== *)
(** ** Executive report: the most frequent codes *)
(* ================================================================== *)

(** A dict whose iteration order matters: its items, in insertion order. *)
Definition odict (V : Type) : Type := list (string * V).

(** [d.get(k)] *)
Fixpoint od_get {V} (d : odict V) (k : string) : option V :=
  match d with
  | [] => None
  | (k', v) :: d' => if String.eqb k' k then Some v else od_get d' k
  end.

(** [d[k] = v]: an existing key keeps its place, a new key comes last. *)
Fixpoint od_set {V} (d : odict V) (k : string) (v : V) : odict V :=
  match d with
  | [] => [(k, v)]
  | (k', v') :: d' =>
      if String.eqb k' k then (k', v) :: d' else (k', v') :: od_set d' k v
  end.

(** [sorted(items, key=lambda x: x[1], reverse=True)]: a stable sort by
    decreasing count.  [insert_desc] puts [x] in front of the first item
    whose count is not above the count of [x]. *)
Fixpoint insert_desc (x : string * Z) (l : list (string * Z))
    : list (string * Z) :=
  match l with
  | [] => [x]
  | y :: l' => if y.2 <=? x.2 then x :: l else y :: insert_desc x l'
  end.

Definition sorted_desc (l : list (string * Z)) : list (string * Z) :=
  foldr insert_desc [] l.

(** [top_n] defaults to 10; a mapping that is [None] or empty contributes
    nothing, which is what the empty list of items does here. *)
Definition _top_ora (ora_counts_by_file : odict (odict Z)) (top_n : Z)
    : list (string * Z) :=
  let agg : odict Z :=
    foldl (fun agg '(_, counts) =>
             foldl (fun agg '(code, cnt) =>
                      od_set agg code (default 0 (od_get agg code) + cnt))
                   agg counts)
          [] ora_counts_by_file in
  slice (sorted_desc agg) 0 top_n.

Definition DEFAULT_TOP_N : Z := 10.

(* ================================================================== *)
(** * Vocabulary of the statements *)
(* ================================================================== *)

(** The log was selected and found, and is in the given completion state. *)
Definition present_in_state (lr : option LogResult) (state : string) : Prop :=
  ∃ l, lr = Some l ∧ found l = true ∧ dp_state l = state.

(** The mapping of a log holds a fatal code. *)
Definition has_fatal_code (d : gmap string Z) : Prop :=
  ∃ c, is_Some (d !! c) ∧ c ∈ FATAL_ORA.

(** The selected import log was found and holds a fatal code. *)
Definition fatal_in_import (impdp : option LogResult) : Prop :=
  ∃ l, impdp = Some l ∧ found l = true ∧ has_fatal_code (ora_counts l).

(** No log was selected, or the selected one was not found. *)
Definition missing_log (lr : option LogResult) : Prop :=
  lr = None ∨ ∃ l, lr = Some l ∧ found l = false.

Definition NOT_DEFINITIVE : string :=
  "Evidence present but not definitive SUCCESS for all phases.".

(** What the summary reports for one phase, given its log. *)
Definition phase_status_spec (lr : option LogResult) (st : string) : Prop :=
  (st = "MISSING" ↔ missing_log lr) ∧
  (st = "FAIL" ↔ ∃ l, lr = Some l ∧ found l = true ∧
                      has_fatal_code (ora_counts l)) ∧
  (st = "PASS" ↔ ∃ l, lr = Some l ∧ found l = true ∧
                      ¬ has_fatal_code (ora_counts l) ∧
                      dp_state l = "SUCCESS") ∧
  (st = "WARN" ↔ ∃ l, lr = Some l ∧ found l = true ∧
                      ¬ has_fatal_code (ora_counts l) ∧
                      dp_state l ≠ "SUCCESS").

(** Sample data on which the statements are instantiated. *)
Definition demo_validation : ValidationResult :=
  mkValidation "PASS" (Some 0) [] (Some 50000) (mkFlags true true).

Definition demo_fatal_log : LogResult :=
  mkLogResult "03-migration/impdp_retry2.log" true
    (Some "ORA-39000: bad dump file specification; job successfully completed")
    {[ "ORA-39000" := 1 ]} "SUCCESS" (Some 0).

Definition demo_success_log : LogResult :=
  mkLogResult "03-migration/expdp_legacy_18c.log" true
    (Some "Job successfully completed") ∅ "SUCCESS" (Some 0).

(** The mapping of a log holds a warning code. *)
Definition has_warn_code (d : gmap string Z) : Prop :=
  ∃ c, is_Some (d !! c) ∧ c ∈ WARN_ORA.

Definition warn_in_import (impdp : option LogResult) : Prop :=
  ∃ l, impdp = Some l ∧ found l = true ∧ has_warn_code (ora_counts l).

(** The sum of the weights of a list of factors. *)
Definition total_weight (fs : list factor) : Z :=
  foldr (fun f acc => f_weight f + acc) 0 fs.

(** The weight recorded in a factor is the one of the table. *)
Definition weight_from_table (f : factor) : Prop :=
  RISK_WEIGHTS !! f_factor f = Some (f_weight f).

(** The factor named [name] is among the triggered ones. *)
Definition fired (name : string) (fs : list factor) : Prop :=
  name ∈ f_factor <$> fs.

(** Invariant of the accumulation of [_risk_score]: the score is the sum of
    the recorded weights, which are those of the table, and the fatal and the
    warn factor are recorded exactly under [PF] and [PW]. *)
Definition scored (PF PW : Prop) (st : Z * list factor) : Prop :=
  st.1 = total_weight st.2 ∧
  Forall weight_from_table st.2 ∧
  (fired "fatal_ora_present" st.2 ↔ PF) ∧
  (fired "warn_ora_present" st.2 ↔ PW).

(** The order of the sort keys: by retry number, then by modification
    time. *)
Definition key_le (a b : Z * Z) : Prop :=
  a.1 < b.1 ∨ (a.1 = b.1 ∧ a.2 ≤ b.2).



(** The number of lines of all the chunks of a result. *)
Definition total_lines (m : gmap string (list string)) : Z :=
  map_fold (fun _ chunk acc => len chunk + acc) 0 m.

(** Line [i] is the first line of [lines] that contains [code_u]. *)
Definition first_hit (code_u : string) (lines : list string) (i : nat) : Prop :=
  (∃ ln, lines !! i = Some ln ∧ hit_line code_u ln) ∧
  ∀ j ln, lines !! j = Some ln → (j < i)%nat → ¬ hit_line code_u ln.

(** No line of [lines] contains [code_u]. *)
Definition no_hit (code_u : string) (lines : list string) : Prop :=
  ∀ ln, ln ∈ lines → ¬ hit_line code_u ln.

(** The lines from [context_lines] before line [i] to [context_lines] after
    it, as far as the text reaches. *)
Definition around (lines : list string) (context_lines : Z) (i : nat)
    : list string :=
  let start := Z.to_nat (Z.max 0 (Z.of_nat i - context_lines)) in
  let stop :=
    Z.to_nat (Z.min (len lines) (Z.of_nat i + context_lines + 1)) in
  take (stop - start)%nat (drop start lines).

(** The index of the first line of [lines] that contains [code_u], if any. *)
Fixpoint first_line_with (code_u : string) (lines : list string)
    : option nat :=
  match lines with
  | [] => None
  | ln :: lines' =>
      if Py.contains code_u (Py.upper ln) then Some 0%nat
      else S <$> first_line_with code_u lines'
  end.

(** The lines taken of a budget of [max_total_lines] once the code [code]
    has been processed, [used] of them being taken before: a code found in no
    line takes none; a code found in a line takes the lines of the window
    around the first such line, or the lines that remain if they are fewer;
    and once no line remains nothing is taken. *)
Definition take_lines (lines : list string)
    (context_lines max_total_lines : Z) (used : Z) (code : string) : Z :=
  match first_line_with (Py.upper code) lines with
  | Some i =>
      if used <? max_total_lines
      then used + Z.min (max_total_lines - used)
                    (len (around lines context_lines i))
      else used
  | None => used
  end.

(** The lines taken by the codes [codes], processed in their order. *)
Definition lines_taken (lines : list string)
    (context_lines max_total_lines : Z) (codes : list string) : Z :=
  fold_left (take_lines lines context_lines max_total_lines) codes 0.


Definition demo_log_text : string :=
  "Import: Release 23.0" ++ String "010"
  ("ORA-39000: bad dump file specification" ++ String "010"
  ("ora-31640: unable to open dump file" ++ String "010"
  ("ORA-27037: unable to obtain file status" ++ String "010"
  "Job stopped"))).

(** *** What it means for a pattern to match *)

(** [Run p n pv s pv' s']: the text [s] starts with [n] characters of class
    [p], after which the position is [(pv', s')]. *)
Inductive Run (p : ascii → bool)
    : nat → option ascii → string → option ascii → string → Prop :=
| Run_O pv s : Run p 0 pv s pv s
| Run_S n pv c s pv' s' :
    p c = true → Run p n (Some c) s pv' s' →
    Run p (S n) pv (String c s) pv' s'.

(** [$] holds at the end of the text and before a final newline. *)
Definition at_end (s : string) : Prop :=
  s = "" ∨ ∃ c, s = String c "" ∧ Py.code c = 10%nat.

(** [Matches icase r st st']: pattern [r] matches the text between the
    positions [st] and [st'], capturing the groups added in [st']. *)
Inductive Matches (icase : bool) : Re.re → Re.mstate → Re.mstate → Prop :=
| M_Eps st : Matches icase Re.Eps st st
| M_Chr c x pv s caps :
    Re.chr_eq icase c x = true →
    Matches icase (Re.Chr c) (Re.MState pv (String x s) caps)
      (Re.MState (Some x) s caps)
| M_Cls p x pv s caps :
    p x = true →
    Matches icase (Re.Cls p) (Re.MState pv (String x s) caps)
      (Re.MState (Some x) s caps)
| M_Bnd st :
    xorb (Re.word_at (Re.prev st)) (Re.word_at (Re.peek (Re.rest st))) = true →
    Matches icase Re.Bnd st st
| M_Bol s caps :
    Matches icase Re.Bol (Re.MState None s caps) (Re.MState None s caps)
| M_Eol st : at_end (Re.rest st) → Matches icase Re.Eol st st
| M_Rep p lo hi n pv s caps pv' s' :
    (lo ≤ n)%nat → (∀ h, hi = Some h → (n ≤ h)%nat) →
    Run p n pv s pv' s' →
    Matches icase (Re.Rep p lo hi) (Re.MState pv s caps)
      (Re.MState pv' s' caps)
| M_Grp i r st st' :
    Matches icase r st st' →
    Matches icase (Re.Grp i r) st
      (Re.MState (Re.prev st') (Re.rest st')
         ((i, String.substring 0
                (String.length (Re.rest st) - String.length (Re.rest st'))
                (Re.rest st)) :: Re.caps st'))
| M_Opt_yes r st st' :
    Matches icase r st st' → Matches icase (Re.Opt r) st st'
| M_Opt_no r st : Matches icase (Re.Opt r) st st
| M_Seq r1 r2 st st1 st2 :
    Matches icase r1 st st1 → Matches icase r2 st1 st2 →
    Matches icase (Re.Seq r1 r2) st st2.

(** The pattern matches at the position [(pv, s)], ending in [m]. *)
Definition matches_at (p : Re.pattern) (pv : option ascii) (s : string)
    (m : Re.mstate) : Prop :=
  Matches (Re.ignorecase p) (Re.pat p) (Re.MState pv s []) m.

(** The last character of [pre], or [pv] when [pre] is empty. *)
Fixpoint last_char (pv : option ascii) (pre : string) : option ascii :=
  match pre with
  | EmptyString => pv
  | String c pre' => last_char (Some c) pre'
  end.

(** The pattern matches somewhere in the text. *)
Definition Occurs (p : Re.pattern) (text : string) : Prop :=
  ∃ pre post m,
    text = pre ++ post ∧ matches_at p (last_char None pre) post m.

(** A run of decimal digits that is not empty. *)
Definition digits (ds : string) : Prop :=
  ds ≠ "" ∧ Py.all Py.isdigit ds = true.

(** The sentences of the classifier's reasons. *)
Definition MULTIPLE_ATTEMPTS (impdp_count : Z) : string :=
  "Multiple impdp attempts detected (count=" ++ pretty impdp_count ++ ").".
Definition FATAL_DETECTED : string := "Fatal ORA codes detected in impdp.".
Definition VALIDATION_WARN : string :=
  "Post-validation indicates WARN conditions (invalid objects present).".

(** A row recorded by [_parse_invalid_object_proof]: its status reads
    INVALID, in whatever case. *)
Definition invalid_status (o : invalid_object) : Prop :=
  Py.upper (io_status o) = "INVALID".

(** The text [x] is the literal [w], up to case when [icase] is set. *)
Definition lit_eq (icase : bool) (w x : string) : Prop :=
  if icase then Py.upper x = Py.upper w else x = w.

(** A line made of the digits [ds], 1 to 12 of them, with optional
    whitespace before and after. *)
Definition integer_line (ln ds : string) : Prop :=
  ∃ ws1 ws2,
    ln = ws1 ++ ds ++ ws2 ∧
    Py.all Py.isspace ws1 = true ∧ Py.all Py.isspace ws2 = true ∧
    digits ds ∧ (String.length ds ≤ 12)%nat.

(** No part of the line can be read as such a number. *)
Definition not_integer_line (ln : string) : Prop :=
  ∀ ds, ¬ integer_line ln ds.

(** A run of whitespace that is not empty. *)
Definition blanks (ws : string) : Prop :=
  ws ≠ "" ∧ Py.all Py.isspace ws = true.

(** The text reads [completed with <ds> error] somewhere, in any case and
    with any whitespace between the words and the digits [ds]. *)
Definition completed_with_count (text ds : string) : Prop :=
  ∃ pre w sp1 sp2 e post,
    text = pre ++ w ++ sp1 ++ ds ++ sp2 ++ e ++ post ∧
    Py.upper w = "COMPLETED WITH" ∧ blanks sp1 ∧ digits ds ∧ blanks sp2 ∧
    Py.upper e = "ERROR".

(** An error code in its normal form: [ORA-] and five digits. *)
Definition ora_code (k : string) : Prop :=
  ∃ d, k = "ORA-" ++ d ∧ String.length d = 5%nat ∧
       Py.all Py.isdigit d = true.

(** What holds of an entry of the mapping of [_parse_ora_counts]. *)
Definition counted_code (text : string) (k : string) (n : Z) : Prop :=
  ora_code k ∧ 1 ≤ n ∧ Is_true (Py.contains k (Py.upper text)).

(** A character that is not the letter O, in either case: no error code
    starts at it. *)
Definition not_letter_O (c : ascii) : bool :=
  negb (Ascii.eqb (Py.upper_char c) "O").

(** The code [k] occurs in the text: [ORA-] and five digits between two
    word boundaries, in any case, reading [k] once in upper case. *)
Definition code_occurs (text k : string) : Prop :=
  ∃ pre post m g,
    text = pre ++ post ∧ matches_at ORA_RE (last_char None pre) post m ∧
    Re.group m 1 = Some g ∧ Py.upper g = k.

(** A finding of [_extract_compile_warnings_39082] as it stands in the
    text: the object type [ty] as written, then the quoted schema and the
    quoted object name. *)
Definition warning_in_text (text ty : string) (w : compile_warning) : Prop :=
  ∃ pre post,
    text = pre ++ ty ++ ":" ++ String quote (cw_schema w) ++
           String quote "." ++ String quote (cw_object_name w) ++
           String quote post.

(** A name between double quotes: not empty and without a double quote. *)
Definition quoted_name (s : string) : Prop :=
  s ≠ "" ∧ Py.all notquote s = true.

(** The text starts with a character of the class [p]. *)
Definition next_is (p : ascii → bool) (s : string) : bool :=
  match s with String c _ => p c | EmptyString => false end.

(** The value [_impdp_retry_number] reads off the digits [ds] that follow
    the word [retry]: 1 without digits or with more than 4300 of them. *)
Definition retry_value (ds : string) : Z :=
  match ds with
  | EmptyString => 1
  | _ =>
      if Nat.leb (String.length ds) Py.INT_MAX_STR_DIGITS
      then Py.digits_value 0 ds else 1
  end.

(** A text without any of the characters that end a line. *)
Definition no_linebreak (s : string) : Prop :=
  Py.all (fun c => negb (Py.islinebreak c)) s = true.

(** The allowlisted logs of a run as [lambda_handler] analyses them, the
    export log among them, and the result it builds for the selected import
    log. *)
Definition run_logs (s3 : s3_client) (bucket run_prefix : string)
    : list LogResult :=
  _analyze_log s3 bucket run_prefix <$> ALLOWLIST_RELATIVE_KEYS.

Definition run_expdp (s3 : s3_client) (bucket run_prefix : string)
    : option LogResult :=
  List.find (fun x => Py.endswith "expdp_legacy_18c.log" (key_rel x))
    (run_logs s3 bucket run_prefix).

Definition import_result (run_prefix abs_key text : string) : LogResult :=
  mkLogResult (Py.replace run_prefix "" abs_key) true (Some text)
    (_parse_ora_counts text)
    (_dp_completion_state_and_errors text).1
    (_dp_completion_state_and_errors text).2.

Definition run_impdp (s3 : s3_client) (bucket run_prefix : string)
    : option LogResult :=
  match (_pick_best_impdp_log s3 bucket run_prefix).1.1.1 with
  | None | Some EmptyString => None
  | Some abs_key =>
      import_result run_prefix abs_key
        <$> s3_try_get_text s3 bucket abs_key MAX_BYTES_LOG
  end.

(** The fatal codes of a log, in the order of [sorted]. *)
Definition fatal_codes_of (l : LogResult) : list string :=
  sorted (filter (fun c => c ∈ FATAL_ORA) (keys (ora_counts l))).

(** The log result holds the text it was computed from. *)
Definition text_of (l : LogResult) (t : string) : Prop :=
  text l = Some t ∧ ora_counts l = _parse_ora_counts t ∧
  dp_state l = (_dp_completion_state_and_errors t).1 ∧
  dp_error_count l = (_dp_completion_state_and_errors t).2.

(** A small run on which the statements about the summary are
    instantiated: an export log, two import attempts, the later one with a
    fatal code, and the two proof artifacts. *)
Definition demo_store : store :=
  [ ("runs/d1/03-migration/expdp_legacy_18c.log",
     ("Job successfully completed", 1));
    ("runs/d1/03-migration/impdp_full.log",
     ("Job successfully completed", 2));
    ("runs/d1/03-migration/impdp_full_retry1.log", (demo_log_text, 3));
    ("runs/d1/04-validation/invalid_object_proof.txt",
     ("OWNER  OBJECT_NAME  OBJECT_TYPE  STATUS", 4));
    ("runs/d1/04-validation/orders_count_proof.txt", ("50000", 5)) ].

(** The weight of a factor that is recorded under the condition [b]. *)
Definition risk_points (b : bool) (w : Z) : Z := if b then w else 0.

(** The score of [_risk_score] before the cap, factor by factor. *)
Definition risk_sum (required_logs : list LogResult)
    (impdp : option LogResult) (impdp_count : Z) (expdp : option LogResult)
    (validation : ValidationResult) : Z :=
  let fatal := nonempty (sorted (filter (fun c => c ∈ FATAL_ORA)
                                   (keys (imp_ora_of impdp)))) in
  let warn := nonempty (sorted (filter (fun c => c ∈ WARN_ORA)
                                  (keys (imp_ora_of impdp)))) in
  15 * len (List.filter (fun lr => negb (found lr)) required_logs)
  + risk_points (negb (is_found impdp)) 25
  + risk_points (impdp_count >? 1) 10
  + (if fatal then 50 else risk_points warn 15)
  + risk_points (found_in_state impdp "NONE" && negb fatal) 10
  + risk_points (found_in_state expdp "COMPLETED_WITH_ERRORS") 10
  + risk_points (match invalid_objects_count validation with
                 | Some inv => inv >? 0
                 | None => false
                 end) 25
  + risk_points (match orders_count validation with
                 | None => true
                 | Some _ => false
                 end) 5.

(** A run in which everything succeeded, after one retry. *)
Definition demo_pass_store : store :=
  [ ("runs/d2/02-precheck/precheck.log", ("precheck ok", 1));
    ("runs/d2/03-migration/expdp_legacy_18c.log",
     ("Job successfully completed", 2));
    ("runs/d2/03-migration/impdp_full.log", ("ORA-39000: failed", 3));
    ("runs/d2/03-migration/impdp_full_retry1.log",
     ("ORA-39082: warning; job successfully completed", 4));
    ("runs/d2/04-validation/invalid_object_proof.txt",
     ("OWNER  OBJECT_NAME  OBJECT_TYPE  STATUS", 5));
    ("runs/d2/04-validation/orders_count_proof.txt", ("50000", 6)) ].

(** The number of times a code was counted in the given items. *)
Definition total_count (items : odict Z) (code : string) : Z :=
  foldr (fun '(c, cnt) acc => if String.eqb c code then cnt + acc else acc)
        0 items.

(** All the (code, count) items of all the files, in order. *)
Definition all_counts (ora_counts_by_file : odict (odict Z)) : odict Z :=
  concat (snd <$> ora_counts_by_file).

(** The counts of a list of items do not increase. *)
Definition decreasing (l : list (string * Z)) : Prop :=
  ∀ i j x y, (i < j)%nat → l !! i = Some x → l !! j = Some y → y.2 ≤ x.2.

(** One step of the aggregation of [_top_ora]. *)
Definition add_count (agg : odict Z) (item : string * Z) : odict Z :=
  od_set agg item.1 (default 0 (od_get agg item.1) + item.2).

(*VOCABULARY-END*)

(* ================================================================== *)
(** * Properties *)
(* ================================================================== *)

(** ** Status classifier *)

Lemma any_fatal_spec (d : gmap string Z) :
  any_fatal d = true ↔ has_fatal_code d.
Proof.
  unfold any_fatal, keys, has_fatal_code. rewrite existsb_exists. split.
  - intros (c & Hin & Hc). apply bool_decide_eq_true in Hc.
    exists c. split; [|done].
    apply list_elem_of_In, list_elem_of_fmap in Hin as ([k v] & -> & Hkv).
    apply elem_of_map_to_list in Hkv. by exists v.
  - intros (c & [v Hv] & Hc). exists c. split.
    + apply list_elem_of_In, list_elem_of_fmap. exists (c, v). split; [done|].
      by apply elem_of_map_to_list.
    + by apply bool_decide_eq_true.
Qed.

Lemma any_fatal_false (d : gmap string Z) :
  any_fatal d = false ↔ ¬ has_fatal_code d.
Proof. rewrite <- any_fatal_spec. by destruct (any_fatal d). Qed.

Lemma any_fatal_imp_ora (impdp : option LogResult) :
  any_fatal (imp_ora_of impdp) = true ↔ fatal_in_import impdp.
Proof.
  rewrite any_fatal_spec. unfold imp_ora_of, fatal_in_import. split.
  - destruct impdp as [l|]; [destruct (found l) eqn:Hf|].
    + intros H. by exists l.
    + intros (c & [v Hv] & _). by rewrite lookup_empty in Hv.
    + intros (c & [v Hv] & _). by rewrite lookup_empty in Hv.
  - intros (l & -> & -> & H). done.
Qed.

Lemma found_in_state_spec (lr : option LogResult) (state : string) :
  found_in_state lr state = true ↔ present_in_state lr state.
Proof.
  unfold found_in_state, present_in_state. split.
  - destruct lr as [l|]; [|done]. intros [Hf Hs]%andb_prop.
    apply String.eqb_eq in Hs. by exists l.
  - intros (l & -> & -> & <-). by rewrite String.eqb_refl.
Qed.

Lemma found_in_state_false (lr : option LogResult) (state : string) :
  found_in_state lr state = false ↔ ¬ present_in_state lr state.
Proof. rewrite <- found_in_state_spec. by destruct (found_in_state lr state). Qed.

(** C1.  When the selected import log was found and its error-code mapping
    holds a fatal code, the classifier answers FAIL, whatever the export log,
    the validation result and the attempt count are. *)
Theorem classify_status_fatal_is_fail
    (expdp impdp : option LogResult) (validation : ValidationResult)
    (impdp_count : Z) (l : LogResult) (c : string) :
  impdp = Some l →
  found l = true →
  is_Some (ora_counts l !! c) →
  c ∈ FATAL_ORA →
  (_classify_status expdp impdp validation impdp_count).1 = "FAIL".
Proof.
  intros Himp Hf Hc Hfatal. unfold _classify_status.
  assert (any_fatal (imp_ora_of impdp) = true) as ->; [|done].
  apply any_fatal_imp_ora. exists l. repeat split; [done..|]. by exists c.
Qed.

Lemma classify_status_fatal_is_fail_witness :
  found demo_fatal_log = true ∧
  "ORA-39000" ∈ FATAL_ORA ∧
  (_classify_status (Some demo_success_log) (Some demo_fatal_log)
     demo_validation 1).1 = "FAIL".
Proof.
  assert ("ORA-39000" ∈ FATAL_ORA) as Hin
    by (apply (bool_decide_unpack _); vm_compute; exact I).
  split; [reflexivity|]. split; [exact Hin|].
  apply (classify_status_fatal_is_fail (Some demo_success_log)
           (Some demo_fatal_log) demo_validation 1 demo_fatal_log "ORA-39000").
  - reflexivity.
  - reflexivity.
  - vm_compute. eexists. reflexivity.
  - exact Hin.
Defined.

Lemma found_in_state_excl (lr : option LogResult) (s1 s2 : string) :
  found_in_state lr s1 = true → found_in_state lr s2 = true → s1 = s2.
Proof.
  rewrite !found_in_state_spec.
  intros (l & -> & _ & <-) (l' & [= <-] & _ & <-). reflexivity.
Qed.

(** C6.  The classifier answers PASS exactly when the selected import log
    holds no fatal code, the export and the import log are both present in
    state SUCCESS and the validation status is PASS; it answers WARN with the
    generic reason exactly when neither the fatal rule nor one of the two
    completed-with-errors rules fired and the PASS condition fails; and its
    answer is always one of FAIL, WARN and PASS. *)
Theorem classify_status_pass_iff
    (expdp impdp : option LogResult) (validation : ValidationResult)
    (impdp_count : Z) :
  let r := _classify_status expdp impdp validation impdp_count in
  (r.1 = "PASS" ↔
     ¬ fatal_in_import impdp ∧
     present_in_state impdp "SUCCESS" ∧
     present_in_state expdp "SUCCESS" ∧
     status validation = "PASS") ∧
  (r.1 = "WARN" ∧ last r.2 = Some NOT_DEFINITIVE ↔
     ¬ fatal_in_import impdp ∧
     ¬ present_in_state impdp "COMPLETED_WITH_ERRORS" ∧
     ¬ present_in_state expdp "COMPLETED_WITH_ERRORS" ∧
     ¬ (present_in_state impdp "SUCCESS" ∧
        present_in_state expdp "SUCCESS" ∧
        status validation = "PASS")) ∧
  (r.1 = "FAIL" ∨ r.1 = "WARN" ∨ r.1 = "PASS").
Proof.
  intros r. subst r. unfold _classify_status.
  rewrite <- any_fatal_imp_ora, <- !found_in_state_spec.
  pose proof (found_in_state_excl impdp "COMPLETED_WITH_ERRORS" "SUCCESS") as Xi.
  pose proof (found_in_state_excl expdp "COMPLETED_WITH_ERRORS" "SUCCESS") as Xe.
  pose proof (String.eqb_eq (status validation) "PASS") as Hv.
  set (reasons0 := if impdp_count >? 1 then _ else _).
  set (reasons1 := if String.eqb (status validation) "WARN" then _ else _).
  destruct (any_fatal (imp_ora_of impdp)),
    (found_in_state impdp "COMPLETED_WITH_ERRORS"),
    (found_in_state expdp "COMPLETED_WITH_ERRORS"),
    (found_in_state impdp "SUCCESS"),
    (found_in_state expdp "SUCCESS"),
    (String.eqb (status validation) "PASS");
    cbn [fst snd andb]; rewrite ?last_snoc;
    try discriminate (Xi eq_refl eq_refl);
    try discriminate (Xe eq_refl eq_refl);
    unfold NOT_DEFINITIVE;
    (split; [|split]);
    solve [ intuition (try discriminate; try congruence) ].
Qed.

(** ** Per-phase status of the summary *)

Lemma ex_some_eq {A} (x : A) (P : A → Prop) :
  (∃ y, Some x = Some y ∧ P y) ↔ P x.
Proof.
  split; [intros (y & [= <-] & H); exact H | intros H; exists x; auto].
Qed.

Lemma dp_status_spec (lr : option LogResult) :
  phase_status_spec lr (dp_status lr).
Proof.
  unfold phase_status_spec, dp_status, missing_log.
  destruct lr as [l|].
  - setoid_rewrite (ex_some_eq l).
    pose proof (any_fatal_spec (ora_counts l)) as Hfatal.
    pose proof (String.eqb_eq (dp_state l) "SUCCESS") as Hs.
    destruct (found l), (any_fatal (ora_counts l)),
      (String.eqb (dp_state l) "SUCCESS"),
      (String.eqb (dp_state l) "COMPLETED_WITH_ERRORS"); cbn [negb];
      repeat split; intros; try discriminate;
      intuition (try discriminate; try congruence).
  - repeat split; intros; try discriminate; auto;
      repeat match goal with
             | H : ∃ _, _ |- _ => destruct H as (? & ? & ?)
             | H : _ ∨ _ |- _ => destruct H
             end; try discriminate.
Qed.

(** C9.  In the [datapump] entry of the summary, the status of each phase is
    MISSING exactly for a missing or unselected log, FAIL exactly for a found
    log that holds a fatal code (whatever its completion state), PASS exactly
    for a found log without fatal code in state SUCCESS, and WARN exactly for
    every other found log. *)
Theorem datapump_phase_status
    (expdp_lr impdp_lr : option LogResult) (selected_impdp_rel : option string)
    (impdp_log_count : Z) (metas : list candidate_meta) (reason : string) :
  let d := datapump expdp_lr impdp_lr selected_impdp_rel impdp_log_count
             metas reason in
  phase_status_spec expdp_lr (export_status (dp_export d)) ∧
  phase_status_spec impdp_lr (import_status (dp_import d)).
Proof. cbn. split; apply dp_status_spec. Qed.

(** A found log in state SUCCESS that holds a fatal code is reported FAIL. *)
Example dp_status_fatal_success :
  dp_state demo_fatal_log = "SUCCESS" ∧
  dp_status (Some demo_fatal_log) = "FAIL" ∧
  dp_status (Some demo_success_log) = "PASS" ∧
  dp_status None = "MISSING".
Proof. vm_compute. done. Qed.

(** ** Validation parser *)

Lemma invalid_row_count (st : Z * list invalid_object) (ln : string) :
  (invalid_row st ln).1 = st.1 ∨ (invalid_row st ln).1 = st.1 + 1.
Proof. unfold invalid_row. repeat case_match; cbn; auto. Qed.

Lemma invalid_rows_nonneg (lines : list string) (st : Z * list invalid_object) :
  0 ≤ st.1 → 0 ≤ (foldl invalid_row st lines).1.
Proof.
  revert st. induction lines as [|ln lines IH]; intros st Hst; cbn; [done|].
  apply IH. destruct (invalid_row_count st ln) as [-> | ->]; lia.
Qed.

Lemma parse_invalid_count_None (text : string) :
  count (_parse_invalid_object_proof text) = None ↔ text = "".
Proof.
  unfold _parse_invalid_object_proof. destruct text; [done|].
  destruct (foldl _ _ _). cbn. split; discriminate.
Qed.

Lemma parse_invalid_count_nonneg (text : string) (n : Z) :
  count (_parse_invalid_object_proof text) = Some n → 0 ≤ n.
Proof.
  unfold _parse_invalid_object_proof. destruct text as [|c text]; [done|].
  pose proof (invalid_rows_nonneg (Py.splitlines (String c text)) (0, [])) as H.
  destruct (foldl _ _ _) as [k objs]. cbn in *. intros [= <-]. by apply H.
Qed.

(** C2.  The validation status is UNKNOWN exactly when the invalid-object
    count is null; a count is never negative; a positive count gives WARN
    whatever the row count is; a zero count gives PASS when the row count is
    present and WARN when it is null. *)
Theorem parse_validation_status (s3 : s3_client) (bucket run_prefix : string) :
  let v := _parse_validation s3 bucket run_prefix in
  (status v = "UNKNOWN" ↔ invalid_objects_count v = None) ∧
  (∀ n, invalid_objects_count v = Some n → 0 ≤ n) ∧
  (∀ n, invalid_objects_count v = Some n → 0 < n → status v = "WARN") ∧
  (invalid_objects_count v = Some 0 → is_Some (orders_count v) →
   status v = "PASS") ∧
  (invalid_objects_count v = Some 0 → orders_count v = None →
   status v = "WARN").
Proof.
  cbn. set (inv := _parse_invalid_object_proof _).
  set (oc := _parse_orders_count_proof _).
  pose proof (parse_invalid_count_nonneg _ : ∀ n, count inv = Some n → 0 ≤ n)
    as Hnn.
  destruct (count inv) as [n|].
  - repeat split.
    + destruct (n >? 0); [discriminate|]. destruct oc; discriminate.
    + discriminate.
    + exact Hnn.
    + intros k [= <-] Hk. apply Z.gtb_lt in Hk. by rewrite Hk.
    + intros [= ->] [x Hx]. by rewrite Hx.
    + intros [= ->] ->. done.
  - repeat split; done.
Qed.

Lemma parse_validation_status_witness :
  let v := _parse_validation
             (store_client
                [("runs/d1/04-validation/invalid_object_proof.txt",
                  ("OWNER  OBJECT_NAME  OBJECT_TYPE  STATUS", 5));
                 ("runs/d1/04-validation/orders_count_proof.txt",
                  ("50000", 6))])
             "bucket" "runs/d1/" in
  invalid_objects_count v = Some 0 ∧ orders_count v = Some 50000 ∧
  status v = "PASS".
Proof.
  intros v.
  assert (invalid_objects_count v = Some 0) as H0 by (vm_compute; reflexivity).
  assert (orders_count v = Some 50000) as H1 by (vm_compute; reflexivity).
  split; [exact H0|]. split; [exact H1|].
  destruct (parse_validation_status
              (store_client
                 [("runs/d1/04-validation/invalid_object_proof.txt",
                   ("OWNER  OBJECT_NAME  OBJECT_TYPE  STATUS", 5));
                  ("runs/d1/04-validation/orders_count_proof.txt",
                   ("50000", 6))])
              "bucket" "runs/d1/") as (_ & _ & _ & Hpass & _).
  apply Hpass; [exact H0|]. exists 50000. exact H1.
Defined.

(** The four cases of the derivation, on concrete proof artifacts. *)
Example parse_validation_cases :
  let proof_of txt := ("runs/d1/04-validation/invalid_object_proof.txt", (txt, 5)) in
  let orders_of txt := ("runs/d1/04-validation/orders_count_proof.txt", (txt, 6)) in
  let run st := _parse_validation (store_client st) "bucket" "runs/d1/" in
  let header := "OWNER  OBJECT_NAME  OBJECT_TYPE  STATUS" in
  let bad := "LEGACY_APP  BAD_VIEW  VIEW  INVALID" in
  status (run []) = "UNKNOWN" ∧
  status (run [proof_of header]) = "WARN" ∧
  status (run [proof_of header; orders_of "50000"]) = "PASS" ∧
  status (run [proof_of bad; orders_of "50000"]) = "WARN" ∧
  invalid_objects_count (run [proof_of bad; orders_of "50000"]) = Some 1.
Proof. vm_compute. done. Qed.

(** C10.  The evidence flag of the invalid-object proof says whether the
    artifact exists, while the count is null exactly when the fetched text is
    empty (or the artifact is absent); so an artifact that exists with an
    empty text gives a null count and status UNKNOWN with the flag set. *)
Theorem empty_invalid_proof_is_unknown
    (s3 : s3_client) (bucket run_prefix : string) :
  let invalid_txt :=
    s3_try_get_text s3 bucket (run_prefix ++ INVALID_OBJECT_PROOF_REL)
      MAX_BYTES_PROOF in
  let v := _parse_validation s3 bucket run_prefix in
  (invalid_object_proof (evidence v) = true ↔ is_Some invalid_txt) ∧
  (invalid_objects_count v = None ↔ default "" invalid_txt = "") ∧
  (invalid_txt = Some "" →
   invalid_objects_count v = None ∧ status v = "UNKNOWN" ∧
   invalid_object_proof (evidence v) = true).
Proof.
  cbn. rewrite bool_decide_eq_true, parse_invalid_count_None.
  split; [done|]. split; [done|]. intros ->. cbn. done.
Qed.

Lemma empty_invalid_proof_is_unknown_witness :
  let v := _parse_validation
             (store_client
                [("runs/d1/04-validation/invalid_object_proof.txt", ("", 5))])
             "bucket" "runs/d1/" in
  invalid_objects_count v = None ∧ status v = "UNKNOWN" ∧
  invalid_object_proof (evidence v) = true.
Proof.
  intros v.
  destruct (empty_invalid_proof_is_unknown
              (store_client
                 [("runs/d1/04-validation/invalid_object_proof.txt", ("", 5))])
              "bucket" "runs/d1/") as (_ & _ & H).
  apply H. vm_compute. reflexivity.
Defined.

(** ** Risk scorer *)

Lemma total_weight_snoc (fs : list factor) (f : factor) :
  total_weight (fs ++ [f]) = total_weight fs + f_weight f.
Proof.
  unfold total_weight. induction fs as [|g fs IH]; cbn; [lia|].
  rewrite IH. lia.
Qed.

Lemma fired_snoc (n : string) (fs : list factor) (f : factor) :
  fired n (fs ++ [f]) ↔ fired n fs ∨ n = f_factor f.
Proof.
  unfold fired. rewrite fmap_app, elem_of_app. cbn.
  by rewrite list_elem_of_singleton.
Qed.

Lemma scored_iff (PF PW PF' PW' : Prop) (st : Z * list factor) :
  (PF ↔ PF') → (PW ↔ PW') → scored PF PW st → scored PF' PW' st.
Proof. unfold scored. intuition. Qed.

Lemma scored_trigger (PF PW : Prop) (name : string) (w : Z)
    (ev : evidence_value) (st : Z * list factor) :
  RISK_WEIGHTS !! name = Some w →
  scored PF PW st →
  scored (PF ∨ "fatal_ora_present" = name) (PW ∨ "warn_ora_present" = name)
         (trigger name ev st).
Proof.
  intros Hw (Hsum & Hall & HF & HW). unfold scored, trigger. cbn [fst snd].
  rewrite (lookup_total_correct _ _ _ Hw), total_weight_snoc, !fired_snoc.
  cbn [f_factor f_weight]. repeat split; try tauto.
  - lia.
  - apply Forall_app. split; [done|]. by apply Forall_singleton.
Qed.

(** A trigger that is neither the fatal nor the warn factor. *)
Lemma scored_other (PF PW : Prop) (name : string) (w : Z)
    (ev : evidence_value) (st : Z * list factor) :
  RISK_WEIGHTS !! name = Some w →
  "fatal_ora_present" ≠ name → "warn_ora_present" ≠ name →
  scored PF PW st → scored PF PW (trigger name ev st).
Proof.
  intros Hw H1 H2 Hst. eapply scored_iff; [| |by eapply scored_trigger]; tauto.
Qed.

Lemma keys_elem {V} (m : gmap string V) (c : string) :
  c ∈ keys m ↔ is_Some (m !! c).
Proof.
  unfold keys. rewrite list_elem_of_fmap. split.
  - intros ([k v] & -> & Hkv). apply elem_of_map_to_list in Hkv. by exists v.
  - intros [v Hv]. exists (c, v). split; [done|]. by apply elem_of_map_to_list.
Qed.

Lemma nonempty_elem {A} (l : list A) : nonempty l = true ↔ ∃ x, x ∈ l.
Proof.
  destruct l as [|x l]; cbn.
  - split; [done|]. intros [x Hx]. by apply not_elem_of_nil in Hx.
  - split; [|done]. intros _. exists x. left.
Qed.

Lemma nonempty_sorted_filter (S : gset string) (d : gmap string Z) :
  nonempty (sorted (filter (fun c => c ∈ S) (keys d))) = true ↔
  ∃ c, is_Some (d !! c) ∧ c ∈ S.
Proof.
  rewrite nonempty_elem. unfold sorted.
  setoid_rewrite merge_sort_Permutation.
  setoid_rewrite list_elem_of_filter. setoid_rewrite keys_elem.
  split; intros (c & ? & ?); by exists c.
Qed.

Lemma imp_ora_has (impdp : option LogResult) (S : gset string) :
  (∃ c, is_Some (imp_ora_of impdp !! c) ∧ c ∈ S) ↔
  ∃ l, impdp = Some l ∧ found l = true ∧
       ∃ c, is_Some (ora_counts l !! c) ∧ c ∈ S.
Proof.
  unfold imp_ora_of. split.
  - destruct impdp as [l|]; [destruct (found l) eqn:Hf|].
    + intros H. by exists l.
    + intros (c & [v Hv] & _). by rewrite lookup_empty in Hv.
    + intros (c & [v Hv] & _). by rewrite lookup_empty in Hv.
  - intros (l & -> & -> & H). done.
Qed.

Lemma risk_level_thresholds (score : Z) :
  (_risk_level score = "HIGH" ↔ 70 ≤ score) ∧
  (_risk_level score = "MEDIUM" ↔ 35 ≤ score < 70) ∧
  (_risk_level score = "LOW" ↔ score < 35).
Proof.
  unfold _risk_level.
  destruct (Z.geb_spec score 70), (Z.geb_spec score 35);
    repeat split; intros; try discriminate; try lia; reflexivity.
Qed.

Ltac scored_other :=
  eapply scored_other; [vm_compute; reflexivity | discriminate | discriminate |].

Lemma scored_required_logs (PF PW : Prop) (logs : list LogResult)
    (st : Z * list factor) :
  scored PF PW st →
  scored PF PW
    (foldl (fun st lr =>
              if found lr then st
              else trigger "missing_required_log" (EvStr (key_rel lr)) st)
           st logs).
Proof.
  revert st. induction logs as [|lr logs IH]; intros st Hst; cbn; [done|].
  apply IH. destruct (found lr); [done|]. by scored_other.
Qed.

(** The state of [_risk_score] just before the cap. *)
Lemma risk_score_scored (required_logs : list LogResult)
    (impdp : option LogResult) (impdp_count : Z) (expdp : option LogResult)
    (validation : ValidationResult) :
  let r := _risk_score required_logs impdp impdp_count expdp validation in
  ∃ s, r.1 = Z.min 100 s ∧
       scored (fatal_in_import impdp)
              (¬ fatal_in_import impdp ∧ warn_in_import impdp) (s, r.2).
Proof.
  unfold _risk_score. cbv zeta.
  match goal with |- context [Z.min 100 (fst ?t)] => set (T := t) end.
  exists T.1. split; [reflexivity|]. cbn [fst snd].
  replace (T.1, T.2) with T by (by destruct T). subst T.
  set (st0 := foldl _ _ required_logs).
  assert (scored False False st0) as H0.
  { apply scored_required_logs. unfold scored, fired. cbn.
    split; [done|]. split; [constructor|]. split; split; try done;
      intros []%not_elem_of_nil. }
  clearbody st0.
  set (st1 := if is_found impdp then st0 else _).
  assert (scored False False st1) as H1.
  { subst st1. destruct (is_found impdp); [done|]. by scored_other. }
  clearbody st1. clear st0 H0.
  set (st2 := if impdp_count >? 1 then _ else st1).
  assert (scored False False st2) as H2.
  { subst st2. destruct (impdp_count >? 1); [|done]. by scored_other. }
  clearbody st2. clear st1 H1.
  pose proof (nonempty_sorted_filter FATAL_ORA (imp_ora_of impdp)) as HF.
  pose proof (nonempty_sorted_filter WARN_ORA (imp_ora_of impdp)) as HW.
  rewrite imp_ora_has in HF, HW.
  change (∃ l, impdp = Some l ∧ found l = true ∧
               ∃ c, is_Some (ora_counts l !! c) ∧ c ∈ FATAL_ORA)
    with (fatal_in_import impdp) in HF.
  change (∃ l, impdp = Some l ∧ found l = true ∧
               ∃ c, is_Some (ora_counts l !! c) ∧ c ∈ WARN_ORA)
    with (warn_in_import impdp) in HW.
  set (fatal_present :=
         nonempty (sorted (filter (fun c => c ∈ FATAL_ORA) _))) in *.
  set (warn_present :=
         nonempty (sorted (filter (fun c => c ∈ WARN_ORA) _))) in *.
  set (st3 := if fatal_present then _ else _).
  assert (scored (fatal_in_import impdp)
            (¬ fatal_in_import impdp ∧ warn_in_import impdp) st3) as H3.
  { subst st3. destruct fatal_present.
    - eapply scored_iff;
        [| |eapply scored_trigger; [vm_compute; reflexivity|exact H2]].
      + intuition.
      + split; [intros [[]|?]; discriminate|]. intros [Hn _]. destruct Hn.
        by apply HF.
    - assert (¬ fatal_in_import impdp) as Hn by (intros ?%HF; done).
      destruct warn_present.
      + eapply scored_iff;
          [| |eapply scored_trigger; [vm_compute; reflexivity|exact H2]].
        * split; [intros [[]|?]; discriminate|done].
        * split; [intros _|by right]. split; [done|by apply HW].
      + eapply scored_iff; [| |exact H2]; [tauto|].
        split; [done|]. intros [_ ?%HW]. done. }
  clearbody st3. clear st2 H2 HF HW.
  set (st4 := match impdp with Some _ => _ | None => st3 end).
  assert (scored (fatal_in_import impdp)
            (¬ fatal_in_import impdp ∧ warn_in_import impdp) st4) as H4.
  { subst st4. destruct impdp as [l|]; [|done].
    destruct (_ && _); [|done]. by scored_other. }
  clearbody st4. clear st3 H3.
  set (st5 := match expdp with Some _ => _ | None => st4 end).
  assert (scored (fatal_in_import impdp)
            (¬ fatal_in_import impdp ∧ warn_in_import impdp) st5) as H5.
  { subst st5. destruct expdp as [l|]; [|done].
    destruct (found_in_state _ _); [|done]. by scored_other. }
  clearbody st5. clear st4 H4.
  set (st6 := match invalid_objects_count validation with
              | Some _ => _ | None => st5 end).
  assert (scored (fatal_in_import impdp)
            (¬ fatal_in_import impdp ∧ warn_in_import impdp) st6) as H6.
  { subst st6. destruct (invalid_objects_count validation) as [inv|]; [|done].
    destruct (inv >? 0); [|done]. by scored_other. }
  clearbody st6. clear st5 H5.
  destruct (orders_count validation); [done|]. by scored_other.
Qed.

(** C4.  The score is the sum of the weights of the triggered factors,
    capped at 100; every recorded weight is the one of the table; the fatal
    factor fires exactly when the found import log holds a fatal code, and
    the warn factor exactly when it holds a warning code and no fatal one, so
    the two never fire together; the level is HIGH from 70, MEDIUM from 35
    to 69 and LOW below. *)
Theorem risk_score_sum_capped (required_logs : list LogResult)
    (impdp : option LogResult) (impdp_count : Z) (expdp : option LogResult)
    (validation : ValidationResult) :
  let r := _risk_score required_logs impdp impdp_count expdp validation in
  r.1 = Z.min 100 (total_weight r.2) ∧
  Forall weight_from_table r.2 ∧
  (fired "fatal_ora_present" r.2 ↔ fatal_in_import impdp) ∧
  (fired "warn_ora_present" r.2 ↔
     ¬ fatal_in_import impdp ∧ warn_in_import impdp) ∧
  ¬ (fired "fatal_ora_present" r.2 ∧ fired "warn_ora_present" r.2) ∧
  ∀ score,
    (_risk_level score = "HIGH" ↔ 70 ≤ score) ∧
    (_risk_level score = "MEDIUM" ↔ 35 ≤ score < 70) ∧
    (_risk_level score = "LOW" ↔ score < 35).
Proof.
  intros r.
  destruct (risk_score_scored required_logs impdp impdp_count expdp validation)
    as (s & Hs & Hsum & Hall & HF & HW).
  fold r in Hs, Hsum, Hall, HF, HW. cbn [fst snd] in *.
  split; [by rewrite Hs, Hsum|]. split; [exact Hall|].
  split; [exact HF|]. split; [exact HW|]. split; [tauto|].
  apply risk_level_thresholds.
Qed.

(** Both kinds of code in the import log: only the fatal factor fires; and
    with enough factors the cap is reached. *)
Example risk_score_fatal_and_warn :
  let impdp :=
    mkLogResult "03-migration/impdp_retry1.log" true None
      {[ "ORA-39000" := 2; "ORA-39082" := 1 ]} "NONE" None in
  let expdp :=
    mkLogResult "03-migration/expdp_legacy_18c.log" true None ∅
      "COMPLETED_WITH_ERRORS" (Some 2) in
  let missing := mkLogResult "02-precheck/precheck.log" false None ∅ "NONE" None in
  let validation :=
    mkValidation "WARN" (Some 3) [] None (mkFlags true false) in
  let r := _risk_score [missing; expdp; missing] (Some impdp) 2 (Some expdp)
             validation in
  f_factor <$> r.2 =
    ["missing_required_log"; "missing_required_log"; "impdp_retry_present";
     "fatal_ora_present"; "expdp_completed_with_errors";
     "validation_invalid_objects_present"; "validation_orders_count_missing"] ∧
  total_weight r.2 = 130 ∧ r.1 = 100 ∧ _risk_level r.1 = "HIGH".
Proof. vm_compute. done. Qed.

(** ** Attempt selector *)

Lemma tuple_le_spec (a b : Z * Z) : tuple_le a b = true ↔ key_le a b.
Proof.
  unfold tuple_le, key_le. destruct a as [a1 a2], b as [b1 b2]. cbn.
  rewrite orb_true_iff, andb_true_iff, Z.ltb_lt, Z.eqb_eq, Z.leb_le. tauto.
Qed.

Lemma tuple_le_false (a b : Z * Z) :
  tuple_le a b = false ↔ ¬ key_le a b.
Proof. rewrite <- tuple_le_spec. by destruct (tuple_le a b). Qed.

Lemma key_le_refl (a : Z * Z) : key_le a a.
Proof. unfold key_le. lia. Qed.

Lemma key_le_trans (a b c : Z * Z) : key_le a b → key_le b c → key_le a c.
Proof. unfold key_le. lia. Qed.

Lemma key_le_total (a b : Z * Z) : ¬ key_le a b → key_le b a.
Proof. unfold key_le. lia. Qed.

Section SortBy.
Context {A : Type} (key : A → Z * Z).

Lemma elem_of_insert_by (x y : A) (l : list A) :
  y ∈ insert_by key x l ↔ y = x ∨ y ∈ l.
Proof.
  induction l as [|z l IH]; cbn.
  - rewrite list_elem_of_singleton. split; [auto|].
    intros [?|?%not_elem_of_nil]; done.
  - destruct (tuple_le (key x) (key z)).
    + by rewrite (elem_of_cons (z :: l)).
    + rewrite !elem_of_cons, IH. tauto.
Qed.

Lemma elem_of_sort_by (y : A) (l : list A) : y ∈ sort_by key l ↔ y ∈ l.
Proof.
  unfold sort_by. induction l as [|x l IH]; cbn; [done|].
  by rewrite elem_of_insert_by, elem_of_cons, IH.
Qed.

Lemma length_insert_by (x : A) (l : list A) :
  length (insert_by key x l) = S (length l).
Proof.
  induction l as [|z l IH]; cbn; [done|].
  destruct (tuple_le _ _); cbn; [done|]. by rewrite IH.
Qed.

Lemma length_sort_by (l : list A) : length (sort_by key l) = length l.
Proof.
  unfold sort_by. induction l as [|x l IH]; cbn; [done|].
  by rewrite length_insert_by, IH.
Qed.

(** An element above all the others goes to the end. *)
Lemma insert_by_above (x : A) (l : list A) :
  (∀ y, y ∈ l → ¬ key_le (key x) (key y)) →
  insert_by key x l = (l ++ [x])%list.
Proof.
  induction l as [|z l IH]; intros Hall; cbn; [done|].
  assert (tuple_le (key x) (key z) = false) as ->.
  { apply tuple_le_false, Hall. left. }
  rewrite IH; [done|]. intros y Hy. apply Hall. by right.
Qed.

(** Otherwise the last element stays. *)
Lemma last_insert_by (x y d : A) (l : list A) :
  y ∈ l → key_le (key x) (key y) →
  List.last (insert_by key x l) d = List.last l d.
Proof.
  induction l as [|z l IH]; intros Hy Hle; [by apply not_elem_of_nil in Hy|].
  cbn [insert_by]. destruct (tuple_le (key x) (key z)) eqn:Hz.
  - by destruct l.
  - apply elem_of_cons in Hy as [->|Hy].
    + apply tuple_le_spec in Hle. congruence.
    + specialize (IH Hy Hle).
      change (List.last (z :: insert_by key x l) d =
              List.last (z :: l) d).
      destruct l as [|w l]; [by apply not_elem_of_nil in Hy|].
      destruct (insert_by key x (w :: l)) eqn:Hins.
      { pose proof (length_insert_by x (w :: l)) as Hlen.
        rewrite Hins in Hlen. done. }
      exact IH.
Qed.

(** The last element of the sorted list: it is the last of the original
    list among those that are maximal for the key. *)
Lemma last_sort_by (l : list A) (d : A) :
  l ≠ [] →
  ∃ pre sel post,
    l = (pre ++ sel :: post)%list ∧
    List.last (sort_by key l) d = sel ∧
    (∀ c, c ∈ pre → key_le (key c) (key sel)) ∧
    (∀ c, c ∈ post → ¬ key_le (key sel) (key c)).
Proof.
  induction l as [|x l IH]; intros Hne; [done|].
  destruct l as [|x' l'].
  { exists [], x, []. cbn. repeat split; try done;
      intros c ?%not_elem_of_nil; done. }
  destruct IH as (pre & sel & post & Hl & Hlast & Hpre & Hpost); [done|].
  set (l := x' :: l') in *.
  assert (∀ c, c ∈ l → key_le (key c) (key sel)) as Hmax.
  { intros c Hc. rewrite Hl in Hc.
    apply elem_of_app in Hc as [Hc|Hc]; [by apply Hpre|].
    apply elem_of_cons in Hc as [->|Hc]; [apply key_le_refl|].
    by apply key_le_total, Hpost. }
  assert (sel ∈ l) as Hsel.
  { rewrite Hl. apply elem_of_app. right. left. }
  cbn [sort_by foldr]. fold (sort_by key l).
  destruct (tuple_le (key x) (key sel)) eqn:Hx.
  - apply tuple_le_spec in Hx.
    exists (x :: pre), sel, post. repeat split.
    + by rewrite Hl.
    + rewrite (last_insert_by x sel); [done| |done].
      by apply elem_of_sort_by.
    + intros c [->|Hc]%elem_of_cons; [done|by apply Hpre].
    + exact Hpost.
  - apply tuple_le_false in Hx.
    exists [], x, l. repeat split.
    + rewrite insert_by_above; [by rewrite last_last|].
      intros y Hy Hle. rewrite elem_of_sort_by in Hy. apply Hx.
      eapply key_le_trans; [exact Hle|by apply Hmax].
    + intros c ?%not_elem_of_nil. done.
    + intros c Hc Hle. apply Hx.
      eapply key_le_trans; [exact Hle|by apply Hmax].
Qed.

End SortBy.




(** Candidates [(retry 0, t 10); (retry 2, t 9); (retry 2, t 11)]: the third
    is selected, by retry number; without retries the latest one is. *)
Example pick_best_examples :
  let run st := _pick_best_impdp_log (store_client st) "bucket" "runs/d1/" in
  let r1 := run [("runs/d1/03-migration/impdp_a.log", ("x", 10));
                 ("runs/d1/03-migration/impdp_a_retry2.log", ("x", 9));
                 ("runs/d1/03-migration/impdp_b_retry2.log", ("x", 11));
                 ("runs/d1/03-migration/expdp_legacy_18c.log", ("x", 12))] in
  let r2 := run [("runs/d1/03-migration/impdp_a.log", ("x", 10));
                 ("runs/d1/03-migration/impdp_b.log", ("x", 9))] in
  let r3 := run [("runs/d1/03-migration/expdp_legacy_18c.log", ("x", 12))] in
  (r1.1.1.1, r1.1.1.2, r1.2) =
    (Some "runs/d1/03-migration/impdp_b_retry2.log", 3,
     "filename_retry_number_then_lastmodified") ∧
  (r2.1.1.1, r2.1.1.2, r2.2) =
    (Some "runs/d1/03-migration/impdp_a.log", 2, "lastmodified") ∧
  r3 = (None, 0, [], "no_candidates").
Proof. vm_compute. done. Qed.

(** ** Bounded excerpt extractor *)

Lemma find_hit_Some (code_u : string) (lines : list string) (i : Z) :
  find_hit code_u lines = Some i ↔
  ∃ n, i = Z.of_nat n ∧ first_hit code_u lines n.
Proof.
  unfold find_hit, first_hit. split.
  - destruct (list_find _ lines) as [[n ln]|] eqn:Hfind; [|done].
    intros [= <-]. apply list_find_Some in Hfind as (Hn & Hln & Hfirst).
    exists n. split; [done|]. split; [by exists ln|exact Hfirst].
  - intros (n & -> & (ln & Hn & Hln) & Hfirst).
    assert (list_find (hit_line code_u) lines = Some (n, ln)) as ->; [|done].
    apply list_find_Some. done.
Qed.

Lemma find_hit_None (code_u : string) (lines : list string) :
  find_hit code_u lines = None ↔ no_hit code_u lines.
Proof.
  unfold find_hit, no_hit. rewrite fmap_None, list_find_None, Forall_forall.
  done.
Qed.


Lemma total_lines_empty : total_lines ∅ = 0.
Proof. unfold total_lines. by rewrite map_fold_empty. Qed.

Lemma total_lines_insert_fresh (m : gmap string (list string)) (k : string)
    (chunk : list string) :
  m !! k = None → total_lines (<[k := chunk]> m) = len chunk + total_lines m.
Proof.
  intros Hk. unfold total_lines. rewrite map_fold_insert_L; [done| |done].
  intros. lia.
Qed.

Lemma total_lines_nonneg (m : gmap string (list string)) : 0 ≤ total_lines m.
Proof.
  induction m as [|k chunk m Hk IH] using map_ind.
  - by rewrite total_lines_empty.
  - rewrite total_lines_insert_fresh by done. unfold len. lia.
Qed.

Lemma total_lines_insert_le (m : gmap string (list string)) (k : string)
    (chunk : list string) :
  total_lines (<[k := chunk]> m) ≤ len chunk + total_lines m.
Proof.
  destruct (m !! k) as [old|] eqn:Hk.
  - rewrite <- (insert_delete_eq m).
    rewrite total_lines_insert_fresh by apply lookup_delete_eq.
    replace (total_lines m) with (total_lines (<[k := old]> (delete k m)))
      by (by rewrite insert_delete_id).
    rewrite total_lines_insert_fresh by apply lookup_delete_eq.
    unfold len. lia.
  - by rewrite total_lines_insert_fresh.
Qed.

Section ExcerptsLoop.
Context (lines : list string) (context_lines max_total_lines : Z).

Local Abbreviation loop :=
  (excerpts_loop lines context_lines max_total_lines).

(** The chunk stored for a hit at line [i] when [rem] lines remain. *)
Lemma stored_chunk (hit_idx rem : Z) :
  0 < rem →
  let chunk := window lines context_lines hit_idx in
  (if len chunk >? rem then take (Z.to_nat rem) chunk else chunk) =
    take (Z.to_nat rem) chunk ∧
  len (take (Z.to_nat rem) chunk) ≤ rem.
Proof.
  intros Hrem chunk. unfold len. rewrite length_take. split; [|lia].
  destruct (Z.gtb_spec (Z.of_nat (length chunk)) rem); [done|].
  rewrite take_ge; [done|lia].
Qed.



(** The chunks never hold more lines than were counted, and the count never
    passes the budget. *)
Lemma loop_bound (codes : list string) (st : gmap string (list string) * Z) :
  total_lines st.1 ≤ st.2 → st.2 ≤ max_total_lines →
  total_lines (loop codes st).1 ≤ (loop codes st).2 ∧
  (loop codes st).2 ≤ max_total_lines.
Proof.
  revert st. induction codes as [|code codes IH]; intros [e u] Ht Hu; [done|].
  cbn in *. destruct (find_hit _ lines) as [hit_idx|]; [|by apply IH].
  destruct (Z.leb_spec (max_total_lines - u) 0) as [|Hrem]; [done|].
  destruct (stored_chunk hit_idx (max_total_lines - u) Hrem) as [-> Hlen].
  apply IH; cbn.
  - etransitivity; [apply total_lines_insert_le|]. lia.
  - lia.
Qed.

(** Every chunk of the result was stored for one of the codes, and is the
    window around its first hit, cut to the lines that remained. *)
Lemma loop_lookup (codes : list string) (st : gmap string (list string) * Z)
    (k : string) (chunk : list string) :
  (loop codes st).1 !! k = Some chunk →
  st.1 !! k = Some chunk ∨
  ∃ code i rem,
    code ∈ codes ∧ k = Py.upper code ∧ first_hit k lines i ∧ 0 < rem ∧
    chunk = take (Z.to_nat rem) (window lines context_lines (Z.of_nat i)).
Proof.
  revert st. induction codes as [|code codes IH]; intros [e u] Hk; [by left|].
  assert (∀ st', (loop codes st').1 !! k = Some chunk →
            st'.1 !! k = Some chunk ∨
            ∃ code0 i rem,
              code0 ∈ code :: codes ∧ k = Py.upper code0 ∧
              first_hit k lines i ∧ 0 < rem ∧
              chunk = take (Z.to_nat rem)
                        (window lines context_lines (Z.of_nat i))) as IH'.
  { intros st' [H|(code0 & i & rem & Hin & H)]%IH; [by left|].
    right. exists code0, i, rem. split; [by right|done]. }
  cbn in Hk. destruct (find_hit _ lines) as [hit_idx|] eqn:Hfind;
    [|by apply IH'].
  destruct (Z.leb_spec (max_total_lines - u) 0) as [|Hrem]; [by left|].
  destruct (stored_chunk hit_idx (max_total_lines - u) Hrem) as [Hc _].
  rewrite Hc in Hk. apply IH' in Hk as [Hk|Hk]; [|by right]. cbn in Hk.
  apply lookup_insert_Some in Hk as [[<- <-]|[_ Hk]]; [|by left].
  apply find_hit_Some in Hfind as (i & -> & Hfirst).
  right. exists code, i, (max_total_lines - u).
  split; [left|]. done.
Qed.



End ExcerptsLoop.

Lemma loop_no_lines (context_lines max_total_lines : Z) (codes : list string)
    (st : gmap string (list string) * Z) :
  excerpts_loop [] context_lines max_total_lines codes st = st.
Proof.
  induction codes as [|code codes IH]; [done|]. destruct st as [e u]. cbn.
  exact IH.
Qed.

Lemma splitlines_empty : Py.splitlines "" = [].
Proof. reflexivity. Qed.

Lemma extract_excerpts_loop (text : string) (codes : list string)
    (context_lines max_total_lines : Z) :
  _extract_excerpts text codes context_lines max_total_lines =
  (excerpts_loop (Py.splitlines text) context_lines max_total_lines
     codes (∅, 0)).1.
Proof.
  unfold _extract_excerpts. destruct text as [|c text].
  - by rewrite splitlines_empty, loop_no_lines.
  - by destruct codes.
Qed.

Lemma window_around (lines : list string) (context_lines : Z) (i : nat) :
  0 ≤ context_lines → (i < length lines)%nat →
  window lines context_lines (Z.of_nat i) = around lines context_lines i.
Proof.
  intros Hc Hi. unfold window, around, slice, slice_index, len.
  destruct (Z.ltb_spec (Z.max 0 (Z.of_nat i - context_lines)) 0); [lia|].
  destruct (Z.ltb_spec
              (Z.min (Z.of_nat (length lines))
                 (Z.of_nat i + context_lines + 1)) 0); [lia|].
  f_equal; [|f_equal]; lia.
Qed.

Lemma excerpts_loop_other_key (lines : list string)
    (context_lines max_total_lines : Z) (codes : list string)
    (st : gmap string (list string) * Z) (k : string) :
  k ∉ Py.upper <$> codes →
  (excerpts_loop lines context_lines max_total_lines codes st).1 !! k
  = st.1 !! k.
Proof.
  revert st. induction codes as [|code codes IH]; intros [e u] Hk; [done|].
  rewrite fmap_cons, not_elem_of_cons in Hk. destruct Hk as [Hne Hk].
  cbn [excerpts_loop]. destruct (find_hit _ lines); [|by apply IH].
  destruct (_ <=? 0); [done|]. rewrite IH by done. cbn [fst].
  by rewrite lookup_insert_ne.
Qed.




Section Budget.
Context (lines : list string) (context_lines max_total_lines : Z).
Hypothesis context_nonneg : 0 ≤ context_lines.

Local Abbreviation loop :=
  (excerpts_loop lines context_lines max_total_lines).
Local Abbreviation taken :=
  (fold_left (take_lines lines context_lines max_total_lines)).








End Budget.



(** The lines taken from a budget of 5 by the codes of the example below:
    4 by the first, the one that remains by the second, none after. *)
Example lines_taken_examples :
  let taken := lines_taken (Py.splitlines demo_log_text) 2 5 in
  taken [] = 0 ∧ taken ["ORA-27037"] = 4 ∧
  taken ["ORA-27037"; "ORA-00001"] = 4 ∧
  taken ["ORA-27037"; "ORA-00001"; "ora-39000"] = 5 ∧
  taken ["ORA-27037"; "ORA-00001"; "ora-39000"; "ORA-31640"] = 5.
Proof. vm_compute. done. Qed.

(** A budget of 5 lines: the first code takes its window of 4 lines, the
    second gets the one line that remains, the third none. *)
Example extract_excerpts_budget :
  let R := _extract_excerpts demo_log_text
             ["ORA-27037"; "ora-39000"; "ORA-31640"; "ORA-00001"] 2 5 in
  R !! "ORA-27037" =
    Some ["ORA-39000: bad dump file specification";
          "ora-31640: unable to open dump file";
          "ORA-27037: unable to obtain file status"; "Job stopped"] ∧
  R !! "ORA-39000" = Some ["Import: Release 23.0"] ∧
  R !! "ORA-31640" = None ∧ R !! "ORA-00001" = None ∧ total_lines R = 5.
Proof. vm_compute. done. Qed.

(** ** The matcher against the meaning of the patterns *)

Lemma rep_greedy_sound {A} (p : ascii → bool) (k : option ascii → string → option A)
    (s : string) (lo : nat) (hi : option nat) (pv : option ascii) (a : A) :
  Re.rep_greedy p lo hi k pv s = Some a →
  ∃ n pv' s',
    (lo ≤ n)%nat ∧ (∀ h, hi = Some h → (n ≤ h)%nat) ∧
    Run p n pv s pv' s' ∧ k pv' s' = Some a.
Proof.
  revert lo hi pv. induction s as [|c s IH]; intros lo hi pv; cbn.
  - destruct lo; [|done]. intros Hk. exists 0%nat, pv, "".
    repeat split; [lia|intros; lia|constructor|done].
  - assert (match lo with O => k pv (String c s) | S _ => None end = Some a →
            ∃ n pv' s',
              (lo ≤ n)%nat ∧ (∀ h, hi = Some h → (n ≤ h)%nat) ∧
              Run p n pv (String c s) pv' s' ∧ k pv' s' = Some a) as Hstop.
    { destruct lo; [|done]. intros Hk. exists 0%nat, pv, (String c s).
      repeat split; [lia|intros; lia|constructor|done]. }
    destruct (p c) eqn:Hc; cbn [andb]; [|exact Hstop].
    destruct (match hi with Some O => false | _ => true end) eqn:Hhi;
      [|exact Hstop].
    destruct (Re.rep_greedy p (Nat.pred lo) (Nat.pred <$> hi) k (Some c) s)
      as [r|] eqn:Hin; [|exact Hstop].
    intros [= ->]. apply IH in Hin as (n & pv' & s' & Hlo & Hh & Hrun & Hk).
    exists (S n), pv', s'. repeat split; [lia| |by constructor|done].
    intros h ->. destruct h; [done|]. specialize (Hh h eq_refl). lia.
Qed.

Lemma rep_greedy_complete {A} (p : ascii → bool)
    (k : option ascii → string → option A) (n : nat)
    (pv : option ascii) (s : string) (pv' : option ascii) (s' : string) :
  Run p n pv s pv' s' →
  ∀ lo hi, (lo ≤ n)%nat → (∀ h, hi = Some h → (n ≤ h)%nat) →
  is_Some (k pv' s') → is_Some (Re.rep_greedy p lo hi k pv s).
Proof.
  induction 1 as [pv s|n pv c s pv' s' Hc Hrun IH]; intros lo hi Hlo Hhi Hk.
  - assert (lo = 0%nat) as -> by lia.
    destruct s as [|c s]; cbn; [done|].
    destruct (p c && _); [|done]. by destruct (Re.rep_greedy _ _ _ _ _ _).
  - cbn. rewrite Hc. cbn [andb].
    assert (match hi with Some O => false | _ => true end = true) as ->.
    { destruct hi as [[|h]|]; try done. specialize (Hhi _ eq_refl). lia. }
    destruct (IH (Nat.pred lo) (Nat.pred <$> hi)) as [r ->]; [lia| |done|done].
    intros h Hh. destruct hi as [h0|]; [|done]. injection Hh as <-.
    specialize (Hhi _ eq_refl). lia.
Qed.

Lemma run_sound {A} (icase : bool) (r : Re.re) (st : Re.mstate)
    (k : Re.mstate → option A) (a : A) :
  Re.run icase r st k = Some a →
  ∃ st', Matches icase r st st' ∧ k st' = Some a.
Proof.
  revert A st k a.
  induction r as [|c|p| | | |p lo hi|i r IH|r IH|r1 IH1 r2 IH2];
    intros A st k a; cbn.
  - intros Hk. exists st. split; [constructor|done].
  - destruct st as [pv [|x s] caps]; cbn; [done|].
    destruct (Re.chr_eq icase c x) eqn:Hc; [|done].
    intros Hk. eexists. split; [by constructor|done].
  - destruct st as [pv [|x s] caps]; cbn; [done|].
    destruct (p x) eqn:Hc; [|done].
    intros Hk. eexists. split; [by constructor|done].
  - destruct (xorb _ _) eqn:Hb; [|done].
    intros Hk. exists st. split; [by constructor|done].
  - destruct st as [[c|] s caps]; cbn; [done|].
    intros Hk. eexists. split; [constructor|done].
  - destruct st as [pv s caps]; cbn.
    destruct s as [|c [|d s]]; [| |done].
    + intros Hk. eexists. split; [constructor; by left|done].
    + destruct (Nat.eqb_spec (Py.code c) 10); [|done].
      intros Hk. eexists. split; [constructor; right; by exists c|done].
  - destruct st as [pv s caps]; cbn.
    intros (n & pv' & s' & Hlo & Hhi & Hrun & Hk)%rep_greedy_sound.
    eexists. split; [by econstructor|done].
  - intros (st' & Hm & Hk)%IH. eexists. split; [by constructor|done].
  - destruct (Re.run icase r st k) as [x|] eqn:Hr.
    + intros [= ->]. apply IH in Hr as (st' & Hm & Hk).
      exists st'. split; [by constructor|done].
    + intros Hk. exists st. split; [apply M_Opt_no|done].
  - intros (st1 & Hm1 & (st2 & Hm2 & Hk)%IH2)%IH1.
    exists st2. split; [by econstructor|done].
Qed.

Lemma run_complete {A} (icase : bool) (r : Re.re) (st st' : Re.mstate) :
  Matches icase r st st' →
  ∀ k : Re.mstate → option A, is_Some (k st') →
  is_Some (Re.run icase r st k).
Proof.
  induction 1 as [st|c x pv s caps Hc|p x pv s caps Hc|st Hb|s caps|st He
                 |p lo hi n pv s caps pv' s' Hlo Hhi Hrun
                 |i r st st' Hm IH|r st st' Hm IH|r st
                 |r1 r2 st st1 st2 Hm1 IH1 Hm2 IH2];
    intros k Hk; cbn.
  - done.
  - by rewrite Hc.
  - by rewrite Hc.
  - by rewrite Hb.
  - done.
  - destruct st as [pv s caps]. cbn in *.
    destruct He as [->|(c & -> & Hc)]; [done|].
    by rewrite Hc.
  - by eapply rep_greedy_complete.
  - by apply IH.
  - destruct (IH k Hk) as [x ->]. done.
  - by destruct (Re.run icase r st k).
  - apply IH1. by apply IH2.
Qed.

Lemma match_at_sound (p : Re.pattern) (pv : option ascii) (s : string)
    (m : Re.mstate) :
  Re.match_at p pv s = Some m → matches_at p pv s m.
Proof.
  unfold Re.match_at, matches_at.
  intros (st' & Hm & [= ->])%run_sound. exact Hm.
Qed.

Lemma match_at_complete (p : Re.pattern) (pv : option ascii) (s : string)
    (m : Re.mstate) :
  matches_at p pv s m → is_Some (Re.match_at p pv s).
Proof.
  unfold Re.match_at, matches_at. intros Hm.
  by eapply run_complete.
Qed.

Lemma search_from_unfold (p : Re.pattern) (pv : option ascii) (s : string) :
  Re.search_from p pv s =
  match Re.match_at p pv s with
  | Some m => Some m
  | None =>
      match s with
      | String c s' => Re.search_from p (Some c) s'
      | EmptyString => None
      end
  end.
Proof. by destruct s. Qed.

Lemma search_from_sound (p : Re.pattern) (s : string) (pv : option ascii)
    (m : Re.mstate) :
  Re.search_from p pv s = Some m →
  ∃ pre post, s = pre ++ post ∧ matches_at p (last_char pv pre) post m.
Proof.
  revert pv. induction s as [|c s IH]; intros pv; rewrite search_from_unfold.
  - destruct (Re.match_at p pv "") as [m'|] eqn:Hm; [|done].
    intros [= ->]. exists "", "". split; [done|]. by apply match_at_sound.
  - destruct (Re.match_at p pv (String c s)) as [m'|] eqn:Hm.
    + intros [= ->]. exists "", (String c s). split; [done|].
      by apply match_at_sound.
    + intros (pre & post & -> & Hpost)%IH.
      by exists (String c pre), post.
Qed.

Lemma search_from_complete (p : Re.pattern) (pre post : string)
    (pv : option ascii) (m : Re.mstate) :
  matches_at p (last_char pv pre) post m →
  is_Some (Re.search_from p pv (pre ++ post)).
Proof.
  revert pv. induction pre as [|c pre IH]; intros pv Hm;
    rewrite search_from_unfold; cbn in Hm.
  - apply match_at_complete in Hm as [m' Hm'].
    change ("" ++ post) with post. by rewrite Hm'.
  - destruct (Re.match_at p pv _); [done|].
    change (String c pre ++ post) with (String c (pre ++ post)). by apply IH.
Qed.

Lemma search_occurs (p : Re.pattern) (text : string) :
  is_Some (Re.search p text) ↔ Occurs p text.
Proof.
  unfold Re.search, Occurs. split.
  - intros [m (pre & post & -> & Hm)%search_from_sound]. by exists pre, post, m.
  - intros (pre & post & m & -> & Hm). by eapply search_from_complete.
Qed.

Lemma search_None (p : Re.pattern) (text : string) :
  Re.search p text = None ↔ ¬ Occurs p text.
Proof.
  rewrite <- search_occurs, <- eq_None_not_Some. done.
Qed.

(** ** Strings *)

Lemma app_cons_s (x : ascii) (a b : string) :
  String x a ++ b = String x (a ++ b).
Proof. reflexivity. Qed.

Lemma app_nil_s (b : string) : "" ++ b = b.
Proof. reflexivity. Qed.

Lemma app_assoc_s (a b c : string) : (a ++ b) ++ c = a ++ (b ++ c).
Proof.
  induction a as [|x a IH]; [done|]. by rewrite !app_cons_s, IH.
Qed.

Lemma app_empty_r (a : string) : a ++ "" = a.
Proof. induction a as [|x a IH]; [done|]. by rewrite app_cons_s, IH. Qed.

Lemma length_app_s (a b : string) :
  String.length (a ++ b) = (String.length a + String.length b)%nat.
Proof.
  induction a as [|x a IH]; [done|]. rewrite app_cons_s. cbn. by rewrite IH.
Qed.

Lemma substring_prefix (a b : string) :
  String.substring 0 (String.length a) (a ++ b) = a.
Proof.
  induction a as [|x a IH]; [by destruct b|].
  rewrite app_cons_s. cbn. by rewrite IH.
Qed.

Lemma all_app (p : ascii → bool) (a b : string) :
  Py.all p (a ++ b) = Py.all p a && Py.all p b.
Proof.
  induction a as [|x a IH]; [done|].
  rewrite app_cons_s. cbn. by rewrite IH, andb_assoc.
Qed.

Lemma last_char_app (pv : option ascii) (a b : string) :
  last_char pv (a ++ b) = last_char (last_char pv a) b.
Proof.
  revert pv. induction a as [|x a IH]; intros pv; [done|].
  rewrite app_cons_s. cbn. apply IH.
Qed.

(** A run reads a prefix of the class, and conversely. *)
Lemma Run_prefix (p : ascii → bool) (n : nat) (pv : option ascii) (s : string)
    (pv' : option ascii) (s' : string) :
  Run p n pv s pv' s' →
  ∃ w, s = w ++ s' ∧ Py.all p w = true ∧ String.length w = n ∧
       pv' = last_char pv w.
Proof.
  induction 1 as [pv s|n pv c s pv' s' Hc Hrun (w & -> & Hall & Hlen & ->)].
  - by exists "".
  - exists (String c w). rewrite app_cons_s. cbn. by rewrite Hc, Hall, Hlen.
Qed.

Lemma prefix_Run (p : ascii → bool) (w : string) (pv : option ascii)
    (s' : string) :
  Py.all p w = true →
  Run p (String.length w) pv (w ++ s') (last_char pv w) s'.
Proof.
  revert pv. induction w as [|c w IH]; intros pv Hall.
  - constructor.
  - rewrite app_cons_s. cbn in *.
    apply andb_prop in Hall as [Hc Hall]. constructor; [done|]. by apply IH.
Qed.

Lemma captured_prefix (w s' : string) :
  String.substring 0 (String.length (w ++ s') - String.length s') (w ++ s') = w.
Proof.
  rewrite length_app_s.
  replace (String.length w + String.length s' - String.length s')%nat
    with (String.length w) by lia.
  apply substring_prefix.
Qed.

(* ================================================================== *)
(** * Further properties *)
(* ================================================================== *)

(** ** Reasons of the classifier *)

Lemma multiple_attempts_head (n : Z) :
  ∃ t, MULTIPLE_ATTEMPTS n = String "M" t.
Proof. eexists. reflexivity. Qed.

Lemma classify_status_shape
    (expdp impdp : option LogResult) (validation : ValidationResult)
    (impdp_count : Z) :
  let reasons0 :=
    if impdp_count >? 1 then [MULTIPLE_ATTEMPTS impdp_count] else [] in
  let vw :=
    if String.eqb (status validation) "WARN" then [VALIDATION_WARN] else [] in
  let r := _classify_status expdp impdp validation impdp_count in
  (fatal_in_import impdp ∧ r = ("FAIL", (reasons0 ++ [FATAL_DETECTED])%list)) ∨
  (¬ fatal_in_import impdp ∧ status validation = "PASS" ∧
   r = ("PASS", reasons0)) ∨
  (¬ fatal_in_import impdp ∧
   ∃ x, (x = "impdp completed with errors." ∨
         x = "expdp completed with errors." ∨ x = NOT_DEFINITIVE) ∧
        r = ("WARN", (reasons0 ++ vw ++ [x])%list)).
Proof.
  intros reasons0 vw r. subst r. unfold _classify_status. cbv zeta.
  fold (MULTIPLE_ATTEMPTS impdp_count). fold reasons0.
  rewrite <- any_fatal_imp_ora.
  destruct (any_fatal (imp_ora_of impdp)); [left; by split|right].
  assert (true ≠ false → ¬ false = true) as Hn by done.
  set (rs := if String.eqb (status validation) "WARN" then _ else reasons0).
  assert (rs = (reasons0 ++ vw)%list) as ->
    by (subst rs vw; destruct (String.eqb _ _); [done|by rewrite app_nil_r]).
  rewrite <- !(assoc_L (++)%list).
  destruct (found_in_state impdp "COMPLETED_WITH_ERRORS");
    [right; split; [done|]; eexists; split; [|reflexivity]; auto|].
  destruct (found_in_state expdp "COMPLETED_WITH_ERRORS");
    [right; split; [done|]; eexists; split; [|reflexivity]; auto|].
  destruct (_ && _ && String.eqb (status validation) "PASS") eqn:Hp.
  - left. apply andb_prop in Hp as [_ Hp%String.eqb_eq].
    split; [done|]. split; [done|]. subst vw. rewrite Hp. cbn.
    by rewrite app_nil_r.
  - right. split; [done|]. eexists; split; [|reflexivity]; auto.
Qed.

(** The classifier answers FAIL only for a fatal code in the found import
    log, and then its last reason is the fatal-code sentence; the first
    reason is the multiple-attempts sentence exactly when more than one
    attempt was counted; the validation sentence is given exactly with an
    answer WARN and a validation status WARN; a PASS carries no reason other
    than the multiple-attempts one, and every other answer has a reason. *)
Theorem classify_status_reasons
    (expdp impdp : option LogResult) (validation : ValidationResult)
    (impdp_count : Z) :
  let r := _classify_status expdp impdp validation impdp_count in
  (r.1 = "FAIL" ↔ fatal_in_import impdp) ∧
  (head r.2 = Some (MULTIPLE_ATTEMPTS impdp_count) ↔ 1 < impdp_count) ∧
  (r.1 = "FAIL" → last r.2 = Some FATAL_DETECTED) ∧
  (VALIDATION_WARN ∈ r.2 ↔ r.1 = "WARN" ∧ status validation = "WARN") ∧
  (r.1 = "PASS" →
   r.2 = if impdp_count >? 1 then [MULTIPLE_ATTEMPTS impdp_count] else []) ∧
  (r.1 ≠ "PASS" → r.2 ≠ []).
Proof.
  intros r. subst r.
  destruct (multiple_attempts_head impdp_count) as [t Ht].
  pose proof (String.eqb_eq (status validation) "WARN") as Hw.
  pose proof (Z.gtb_lt impdp_count 1) as Hc.
  destruct (classify_status_shape expdp impdp validation impdp_count)
    as [[Hf ->]|[(Hf & Hp & ->)|(Hf & x & Hx & ->)]]; cbn [fst snd].
  - rewrite last_snoc.
    destruct (impdp_count >? 1); cbn [app head];
      rewrite ?Ht, ?elem_of_cons, ?elem_of_nil; unfold FATAL_DETECTED, VALIDATION_WARN;
      repeat split; try done; try (intros; discriminate);
      try (intros _; by apply Hc); try (intros ?%Hc; done);
      intuition discriminate.
  - rewrite Hp.
    destruct (impdp_count >? 1); cbn [app head];
      rewrite ?Ht, ?elem_of_cons, ?elem_of_nil; unfold VALIDATION_WARN;
      repeat split; try done; try (intros; discriminate);
      try (intros _; by apply Hc); try (intros ?%Hc; done);
      intuition discriminate.
  - unfold NOT_DEFINITIVE in Hx.
    destruct (impdp_count >? 1), (String.eqb (status validation) "WARN");
      cbn [app head];
      rewrite ?Ht, ?elem_of_cons, ?elem_of_nil; unfold VALIDATION_WARN;
      repeat split; try done; try (intros; discriminate);
      try (intros _; by apply Hc); try (intros ?%Hc; done);
      try (by apply Hw); try (by left); try (by right; left);
      destruct Hx as [->|[->| ->]];
      intuition discriminate.
Qed.

(** ** Factors of the risk score *)

Lemma fired_trigger (n name : string) (ev : evidence_value)
    (st : Z * list factor) :
  fired n (trigger name ev st).2 ↔ fired n st.2 ∨ n = name.
Proof. unfold trigger. cbn [snd]. by rewrite fired_snoc. Qed.

Lemma fired_nil (n : string) : ¬ fired n [].
Proof. unfold fired. cbn. apply not_elem_of_nil. Qed.

Lemma fired_required_logs (n : string) (logs : list LogResult)
    (st : Z * list factor) :
  fired n (foldl (fun st lr =>
                    if found lr then st
                    else trigger "missing_required_log" (EvStr (key_rel lr)) st)
                 st logs).2 ↔
  fired n st.2 ∨
  (n = "missing_required_log" ∧ ∃ lr, lr ∈ logs ∧ found lr = false).
Proof.
  revert st. induction logs as [|lr logs IH]; intros st; cbn [foldl].
  - split; [by left|]. intros [H|(_ & lr & []%not_elem_of_nil & _)]. done.
  - rewrite IH. destruct (found lr) eqn:Hf.
    + split.
      * intros [H|(Hn & lr' & Hin & Hf')]; [by left|right].
        split; [done|]. exists lr'. split; [by right|done].
      * intros [H|(Hn & lr' & Hin & Hf')]; [by left|right].
        split; [done|]. exists lr'. split; [|done].
        apply elem_of_cons in Hin as [->|Hin]; [congruence|done].
    + rewrite fired_trigger. split.
      * intros [[H|H]|(Hn & lr' & Hin & Hf')]; [by left|right|right].
        -- split; [done|]. exists lr. split; [left|done].
        -- split; [done|]. exists lr'. split; [by right|done].
      * intros [H|(Hn & lr' & Hin & Hf')]; [by left; left|].
        left. by right.
Qed.

Lemma risk_score_fired (required_logs : list LogResult)
    (impdp : option LogResult) (impdp_count : Z) (expdp : option LogResult)
    (validation : ValidationResult) (n : string) :
  let r := _risk_score required_logs impdp impdp_count expdp validation in
  fired n r.2 ↔
    (n = "missing_required_log" ∧ ∃ lr, lr ∈ required_logs ∧ found lr = false) ∨
    (n = "missing_impdp_log" ∧ is_found impdp = false) ∨
    (n = "impdp_retry_present" ∧ 1 < impdp_count) ∨
    (n = "fatal_ora_present" ∧ fatal_in_import impdp) ∨
    (n = "warn_ora_present" ∧ ¬ fatal_in_import impdp ∧ warn_in_import impdp) ∨
    (n = "dp_completion_marker_missing" ∧
       present_in_state impdp "NONE" ∧ ¬ fatal_in_import impdp) ∨
    (n = "expdp_completed_with_errors" ∧
       present_in_state expdp "COMPLETED_WITH_ERRORS") ∨
    (n = "validation_invalid_objects_present" ∧
       ∃ inv, invalid_objects_count validation = Some inv ∧ 0 < inv) ∨
    (n = "validation_orders_count_missing" ∧ orders_count validation = None).
Proof.
  unfold _risk_score. cbv zeta. cbn [snd].
  pose proof (nonempty_sorted_filter FATAL_ORA (imp_ora_of impdp)) as HF.
  pose proof (nonempty_sorted_filter WARN_ORA (imp_ora_of impdp)) as HW.
  rewrite imp_ora_has in HF, HW.
  change (∃ l, impdp = Some l ∧ found l = true ∧
               ∃ c, is_Some (ora_counts l !! c) ∧ c ∈ FATAL_ORA)
    with (fatal_in_import impdp) in HF.
  change (∃ l, impdp = Some l ∧ found l = true ∧
               ∃ c, is_Some (ora_counts l !! c) ∧ c ∈ WARN_ORA)
    with (warn_in_import impdp) in HW.
  set (fatal_codes := sorted (filter (fun c => c ∈ FATAL_ORA) _)) in *.
  set (warn_codes := sorted (filter (fun c => c ∈ WARN_ORA) _)) in *.
  pose proof (found_in_state_spec impdp "NONE") as HN.
  pose proof (found_in_state_spec expdp "COMPLETED_WITH_ERRORS") as HE.
  pose proof (Z.gtb_lt impdp_count 1) as HC.
  set (st0 := foldl _ _ required_logs).
  pose proof (fired_required_logs n required_logs (0, [])) as H0.
  fold st0 in H0. clearbody st0.
  assert (¬ fired n (0, []).2) as Hnil by apply fired_nil.
  set (st1 := if is_found impdp then st0 else _).
  assert (fired n st1.2 ↔
          fired n st0.2 ∨ (n = "missing_impdp_log" ∧ is_found impdp = false))
    as H1.
  { subst st1. destruct (is_found impdp); rewrite ?fired_trigger;
      intuition discriminate. }
  clearbody st1.
  set (st2 := if impdp_count >? 1 then _ else st1).
  assert (fired n st2.2 ↔
          fired n st1.2 ∨ (n = "impdp_retry_present" ∧ 1 < impdp_count))
    as H2.
  { subst st2. destruct (impdp_count >? 1); rewrite ?fired_trigger;
      intuition discriminate. }
  clearbody st2.
  set (st3 := if nonempty fatal_codes then _ else _).
  assert (fired n st3.2 ↔
          fired n st2.2 ∨ (n = "fatal_ora_present" ∧ fatal_in_import impdp) ∨
          (n = "warn_ora_present" ∧ ¬ fatal_in_import impdp ∧
           warn_in_import impdp)) as H3.
  { subst st3. destruct (nonempty fatal_codes); [|destruct (nonempty warn_codes)];
      rewrite ?fired_trigger; intuition discriminate. }
  set (st4 := match impdp with Some _ => _ | None => st3 end).
  assert (fired n st4.2 ↔
          fired n st3.2 ∨
          (n = "dp_completion_marker_missing" ∧
           present_in_state impdp "NONE" ∧ ¬ fatal_in_import impdp)) as H4.
  { subst st4. destruct impdp as [l|].
    - destruct (found_in_state (Some l) "NONE"), (nonempty fatal_codes);
        cbn [andb negb]; rewrite ?fired_trigger; intuition discriminate.
    - split; [by left|]. intros [H|(_ & (l & Hl & _) & _)]; done. }
  clearbody st3 st4.
  set (st5 := match expdp with Some _ => _ | None => st4 end).
  assert (fired n st5.2 ↔
          fired n st4.2 ∨
          (n = "expdp_completed_with_errors" ∧
           present_in_state expdp "COMPLETED_WITH_ERRORS")) as H5.
  { subst st5. destruct expdp as [l|].
    - destruct (found_in_state (Some l) "COMPLETED_WITH_ERRORS");
        rewrite ?fired_trigger; intuition discriminate.
    - split; [by left|]. intros [H|(_ & (l & Hl & _))]; done. }
  clearbody st5.
  set (st6 := match invalid_objects_count validation with
              | Some _ => _ | None => st5 end).
  assert (fired n st6.2 ↔
          fired n st5.2 ∨
          (n = "validation_invalid_objects_present" ∧
           ∃ inv, invalid_objects_count validation = Some inv ∧ 0 < inv)) as H6.
  { subst st6. destruct (invalid_objects_count validation) as [inv|].
    - destruct (Z.gtb_spec inv 0) as [Hgt|Hle]; rewrite ?fired_trigger.
      + split; [intros [H|H]; [by left|right; split; [done|by exists inv]]|].
        intros [H|[H _]]; [by left|by right].
      + split; [by left|]. intros [H|(_ & inv' & [= <-] & ?)]; [done|lia].
    - split; [by left|]. intros [H|(_ & inv' & [=] & ?)]; done. }
  clearbody st6.
  cbn [snd] in Hnil.
  destruct (orders_count validation) as [oc|]; rewrite ?fired_trigger;
    rewrite H6, H5, H4, H3, H2, H1, H0; cbn [snd].
  - assert (Some oc ≠ None) as Hoc by discriminate. clear -Hnil Hoc. tauto.
  - assert (@None Z = None) as Hoc by done. clear -Hnil Hoc. tauto.
Qed.

Lemma missing_log_is_found (lr : option LogResult) :
  is_found lr = false ↔ missing_log lr.
Proof.
  unfold is_found, missing_log. destruct lr as [l|].
  - split; [intros H; right; by exists l|].
    intros [H|(l' & [= <-] & H)]; done.
  - split; [by left|done].
Qed.

Ltac choose_factor H :=
  first [ split; [reflexivity|exact H]
        | left; split; [reflexivity|exact H]
        | right; choose_factor H ].

Ltac factor_condition :=
  rewrite risk_score_fired; split;
  [ intros H;
    repeat (destruct H as [H|H]; [destruct H as [Hn H]; try discriminate Hn; exact H|]);
    destruct H as [Hn H]; try discriminate Hn; exact H
  | intros H; choose_factor H ].

(** Apart from the two code factors, each factor of the risk score is
    recorded exactly under its own condition: a required log that was not
    found; no import log selected or found; more than one import attempt; a
    found import log without completion marker and without fatal code; a
    found export log that completed with errors; a positive invalid-object
    count; a null row count. *)
Theorem risk_score_factor_conditions (required_logs : list LogResult)
    (impdp : option LogResult) (impdp_count : Z) (expdp : option LogResult)
    (validation : ValidationResult) :
  let r := _risk_score required_logs impdp impdp_count expdp validation in
  (fired "missing_required_log" r.2 ↔
     ∃ lr, lr ∈ required_logs ∧ found lr = false) ∧
  (fired "missing_impdp_log" r.2 ↔ missing_log impdp) ∧
  (fired "impdp_retry_present" r.2 ↔ 1 < impdp_count) ∧
  (fired "dp_completion_marker_missing" r.2 ↔
     present_in_state impdp "NONE" ∧ ¬ fatal_in_import impdp) ∧
  (fired "expdp_completed_with_errors" r.2 ↔
     present_in_state expdp "COMPLETED_WITH_ERRORS") ∧
  (fired "validation_invalid_objects_present" r.2 ↔
     ∃ inv, invalid_objects_count validation = Some inv ∧ 0 < inv) ∧
  (fired "validation_orders_count_missing" r.2 ↔
     orders_count validation = None).
Proof.
  intros r. subst r. rewrite <- missing_log_is_found.
  split; [factor_condition|]. split; [factor_condition|].
  split; [factor_condition|]. split; [factor_condition|].
  split; [factor_condition|]. split; [factor_condition|].
  factor_condition.
Qed.

Lemma table_weight_range (name : string) (w : Z) :
  RISK_WEIGHTS !! name = Some w → 5 ≤ w ≤ 50 ∧ (5 | w).
Proof.
  unfold RISK_WEIGHTS. intros H%elem_of_list_to_map_2.
  repeat (apply elem_of_cons in H as [[= -> ->]|H];
          [split; [lia|]; apply (Z.mod_divide _ 5); [lia|reflexivity]|]).
  by apply not_elem_of_nil in H.
Qed.

Lemma total_weight_range (fs : list factor) :
  Forall weight_from_table fs →
  0 ≤ total_weight fs ∧ (5 | total_weight fs) ∧
  (fs ≠ [] → 5 ≤ total_weight fs).
Proof.
  induction 1 as [|f fs Hf _ (IH0 & IH5 & _)].
  - split; [done|]. split; [by exists 0|done].
  - change (total_weight (f :: fs)) with (f_weight f + total_weight fs).
    apply table_weight_range in Hf as [Hf H5].
    split; [lia|]. split; [by apply Z.divide_add_r|]. intros _. lia.
Qed.

Lemma total_weight_fired (name : string) (w : Z) (fs : list factor) :
  Forall weight_from_table fs → fired name fs →
  RISK_WEIGHTS !! name = Some w → w ≤ total_weight fs.
Proof.
  unfold fired. induction 1 as [|f fs Hf Hfs IH].
  - by intros []%not_elem_of_nil.
  - change (total_weight (f :: fs)) with (f_weight f + total_weight fs).
    rewrite fmap_cons. intros [->|Hin]%elem_of_cons Hw.
    + unfold weight_from_table in Hf. rewrite Hw in Hf. injection Hf as <-.
      apply total_weight_range in Hfs. lia.
    + apply table_weight_range in Hf. specialize (IH Hin Hw). lia.
Qed.

(** The risk score lies between 0 and 100 and is a multiple of 5; it is 0
    exactly when no factor was recorded. *)
Theorem risk_score_range (required_logs : list LogResult)
    (impdp : option LogResult) (impdp_count : Z) (expdp : option LogResult)
    (validation : ValidationResult) :
  let r := _risk_score required_logs impdp impdp_count expdp validation in
  0 ≤ r.1 ≤ 100 ∧ (5 | r.1) ∧ (r.1 = 0 ↔ r.2 = []).
Proof.
  intros r.
  destruct (risk_score_scored required_logs impdp impdp_count expdp validation)
    as (s & Hs & Hsum & Hall & _).
  fold r in Hs, Hsum, Hall. cbn [fst snd] in *.
  apply total_weight_range in Hall as (H0 & H5 & Hne). rewrite <- Hsum in *.
  rewrite Hs. split; [lia|]. split.
  - destruct (Z.min_spec 100 s) as [[_ ->]|[_ ->]]; [by exists 20|done].
  - split.
    + intros Hz. destruct r.2 as [|f fs]; [done|].
      assert (5 ≤ s) by (by apply Hne). lia.
    + intros Hnil. rewrite Hnil in Hsum. cbn in Hsum. lia.
Qed.

Lemma risk_score_fatal_min (required_logs : list LogResult)
    (impdp : option LogResult) (impdp_count : Z) (expdp : option LogResult)
    (validation : ValidationResult) :
  fatal_in_import impdp →
  50 ≤ (_risk_score required_logs impdp impdp_count expdp validation).1.
Proof.
  intros Hfatal.
  destruct (risk_score_scored required_logs impdp impdp_count expdp validation)
    as (s & Hs & Hsum & Hall & HF & _).
  cbn [fst snd] in *. apply HF in Hfatal.
  pose proof (total_weight_fired "fatal_ora_present" 50 _ Hall Hfatal eq_refl).
  lia.
Qed.

Lemma classify_status_fail_iff
    (expdp impdp : option LogResult) (validation : ValidationResult)
    (impdp_count : Z) :
  (_classify_status expdp impdp validation impdp_count).1 = "FAIL" ↔
  fatal_in_import impdp.
Proof.
  rewrite <- any_fatal_imp_ora. unfold _classify_status.
  destruct (any_fatal (imp_ora_of impdp)); [done|].
  repeat case_match; cbn; split; discriminate.
Qed.

(** A run classified FAIL has a risk score of at least 50, so its risk
    level is MEDIUM or HIGH, never LOW. *)
Theorem fail_is_never_low_risk (required_logs : list LogResult)
    (expdp impdp : option LogResult) (validation : ValidationResult)
    (impdp_count : Z) :
  (_classify_status expdp impdp validation impdp_count).1 = "FAIL" →
  let r := _risk_score required_logs impdp impdp_count expdp validation in
  50 ≤ r.1 ∧ (_risk_level r.1 = "MEDIUM" ∨ _risk_level r.1 = "HIGH").
Proof.
  intros Hfail%classify_status_fail_iff r.
  pose proof (risk_score_fatal_min required_logs impdp impdp_count expdp
                validation Hfail) as H50.
  fold r in H50. split; [done|].
  destruct (risk_level_thresholds r.1) as (HH & HM & _).
  destruct (Z.le_gt_cases 70 r.1); [right; by apply HH|left; apply HM; lia].
Qed.

Lemma fail_is_never_low_risk_witness :
  let r := _risk_score [demo_success_log] (Some demo_fatal_log) 1
             (Some demo_success_log) demo_validation in
  50 ≤ r.1 ∧ (_risk_level r.1 = "MEDIUM" ∨ _risk_level r.1 = "HIGH").
Proof.
  apply (fail_is_never_low_risk [demo_success_log] (Some demo_success_log)
           (Some demo_fatal_log) demo_validation 1).
  vm_compute. reflexivity.
Defined.

(** ** Strings: reversal, prefixes and suffixes *)

Lemma rev_app_append (s1 s2 : string) :
  String.rev_app s1 s2 = String.rev s1 ++ s2.
Proof.
  unfold String.rev. revert s2.
  induction s1 as [|a s1 IH]; intros s2; cbn [String.rev_app]; [done|].
  rewrite (IH (String a s2)), (IH (String a "")).
  by rewrite app_assoc_s, app_cons_s, app_nil_s.
Qed.

Lemma rev_cons (a : ascii) (s : string) :
  String.rev (String a s) = String.rev s ++ String a "".
Proof. unfold String.rev at 1. cbn [String.rev_app]. apply rev_app_append. Qed.

Lemma rev_append (s1 s2 : string) :
  String.rev (s1 ++ s2) = String.rev s2 ++ String.rev s1.
Proof.
  induction s1 as [|a s1 IH].
  - by rewrite app_nil_s, app_empty_r.
  - by rewrite app_cons_s, !rev_cons, IH, app_assoc_s.
Qed.

Lemma rev_involutive (s : string) : String.rev (String.rev s) = s.
Proof.
  induction s as [|a s IH]; [done|].
  by rewrite rev_cons, rev_append, IH.
Qed.

Lemma startswith_spec (p s : string) :
  Py.startswith p s = true ↔ ∃ t, s = p ++ t.
Proof.
  revert s. induction p as [|a p IH]; intros s; cbn [Py.startswith].
  - split; [intros _; by exists s|done].
  - destruct s as [|b s].
    + split; [done|]. intros [t Ht]. by rewrite app_cons_s in Ht.
    + rewrite andb_true_iff, Ascii.eqb_eq, IH. split.
      * intros [-> [t ->]]. by exists t.
      * intros [t Ht]. rewrite app_cons_s in Ht. injection Ht as -> ->.
        split; [done|by exists t].
Qed.

Lemma endswith_spec (p s : string) :
  Py.endswith p s = true ↔ ∃ t, s = t ++ p.
Proof.
  unfold Py.endswith. rewrite startswith_spec. split.
  - intros [t Ht]. exists (String.rev t).
    by rewrite <- (rev_involutive s), Ht, rev_append, rev_involutive.
  - intros [t ->]. exists (String.rev t). by rewrite rev_append.
Qed.

Lemma str_slice_to_suffix (s t : string) :
  t ≠ "" → str_slice_to (s ++ t) (- Z.of_nat (String.length t)) = s.
Proof.
  intros Ht. unfold str_slice_to, slice_index. rewrite length_app_s.
  destruct t as [|c t]; [done|]. cbn [String.length].
  destruct (Z.ltb_spec (- Z.of_nat (S (String.length t))) 0); [|lia].
  replace (Z.to_nat _) with (String.length s) by lia.
  apply substring_prefix.
Qed.

(** ** The trigger key *)

(** The run prefix is derived exactly from a key [base/00-metadata/
    metrics.json], and is then [base/], so that the key is the prefix followed
    by [00-metadata/metrics.json]; the summary and the report are written
    under [base/], to keys from which no run prefix can be derived. *)
Theorem derive_run_prefix_round_trip (metrics_key : string) :
  (∀ p, _derive_run_prefix metrics_key = Return p ↔
        ∃ base, metrics_key = base ++ "/00-metadata/metrics.json" ∧
                p = base ++ "/") ∧
  (∀ p, _derive_run_prefix metrics_key = Return p →
        metrics_key = p ++ "00-metadata/metrics.json" ∧
        (∃ msg, _derive_run_prefix (summary_key p) = RaiseValueError msg) ∧
        (∃ msg, _derive_run_prefix (report_key p) = RaiseValueError msg)).
Proof.
  assert (∀ p, _derive_run_prefix metrics_key = Return p ↔
               ∃ base, metrics_key = base ++ "/00-metadata/metrics.json" ∧
                       p = base ++ "/") as Hiff.
  { intros p. unfold _derive_run_prefix. cbv zeta.
    assert (∀ base,
              str_slice_to (base ++ "/00-metadata/metrics.json")
                (- Z.of_nat (String.length "00-metadata/metrics.json"))
              = base ++ "/") as Hslice.
    { intros base.
      change (base ++ "/00-metadata/metrics.json")
        with (base ++ "/" ++ "00-metadata/metrics.json").
      rewrite <- app_assoc_s. by apply str_slice_to_suffix. }
    split.
    - destruct (Py.endswith _ metrics_key) eqn:He; cbn [negb]; [|done].
      apply endswith_spec in He as [base ->]. intros [= <-].
      exists base. by rewrite Hslice.
    - intros (base & -> & ->).
      assert (Py.endswith "/00-metadata/metrics.json"
                (base ++ "/00-metadata/metrics.json") = true) as ->
        by (apply endswith_spec; by exists base).
      cbn [negb]. by rewrite Hslice. }
  split; [exact Hiff|].
  intros p (base & -> & ->)%Hiff. split.
  - by rewrite app_assoc_s.
  - unfold _derive_run_prefix, summary_key, report_key, Py.endswith. cbv zeta.
    rewrite !rev_append.
    split; eexists; vm_compute; reflexivity.
Qed.

(** The key of a run of 2026-01-15. *)
Example derive_run_prefix_examples :
  _derive_run_prefix "runs/2026-01-15/00-metadata/metrics.json"
    = Return "runs/2026-01-15/" ∧
  _derive_run_prefix "/00-metadata/metrics.json" = Return "/" ∧
  (∃ msg, _derive_run_prefix "00-metadata/metrics.json" = RaiseValueError msg) ∧
  (∃ msg, _derive_run_prefix "runs/d1/00-metadata/metrics.json.bak"
          = RaiseValueError msg).
Proof. vm_compute. repeat split; eexists; reflexivity. Qed.

(** ** Rows of the invalid-object proof *)

Lemma invalid_row_inv (lines_seen : Z) (st : Z * list invalid_object)
    (ln : string) :
  st.1 = len st.2 ∧ Forall invalid_status st.2 ∧ len st.2 ≤ lines_seen →
  let st' := invalid_row st ln in
  st'.1 = len st'.2 ∧ Forall invalid_status st'.2 ∧ len st'.2 ≤ lines_seen + 1.
Proof.
  intros (Hc & Hall & Hle). unfold invalid_row.
  repeat case_match; cbn [fst snd]; try (split; [done|split; [done|lia]]).
  unfold len in *. rewrite length_app. cbn [length].
  split; [lia|]. split; [|lia].
  apply Forall_app. split; [done|]. apply Forall_singleton.
  unfold invalid_status. cbn. by apply String.eqb_eq.
Qed.

Lemma invalid_rows_inv (lines : list string) (seen : Z)
    (st : Z * list invalid_object) :
  st.1 = len st.2 ∧ Forall invalid_status st.2 ∧ len st.2 ≤ seen →
  let st' := foldl invalid_row st lines in
  st'.1 = len st'.2 ∧ Forall invalid_status st'.2 ∧
  len st'.2 ≤ seen + len lines.
Proof.
  revert seen st. induction lines as [|ln lines IH]; intros seen st Hst.
  - cbn [foldl]. cbv zeta. unfold len in *. cbn [length].
    destruct Hst as (? & ? & ?). split; [done|]. split; [done|]. lia.
  - cbn [foldl]. apply (invalid_row_inv seen st ln) in Hst.
    apply IH in Hst. cbv zeta in *. unfold len in *. cbn [length].
    destruct Hst as (? & ? & ?). split; [done|]. split; [done|]. lia.
Qed.

(** For a text that is not empty the count is the number of rows listed;
    every row listed has a status that reads INVALID in upper case; and no
    more rows are listed than the text has lines. *)
Theorem parse_invalid_object_proof_rows (text : string) :
  let p := _parse_invalid_object_proof text in
  (text ≠ "" → count p = Some (len (objects p))) ∧
  Forall invalid_status (objects p) ∧
  len (objects p) ≤ len (Py.splitlines text).
Proof.
  unfold _parse_invalid_object_proof. destruct text as [|c text].
  - cbn. split; [done|]. split; [constructor|done].
  - pose proof (invalid_rows_inv (Py.splitlines (String c text)) 0 (0, []))
      as H.
    destruct (foldl _ _ _) as [n objs]. cbn [count objects fst snd] in *.
    destruct H as (-> & Hall & Hle).
    + cbn. split; [done|]. split; [constructor|done].
    + split; [done|]. split; [done|]. lia.
Qed.

(** The sample of the validation result holds the first 20 rows: its length
    is the smaller of 20 and the count, its rows read INVALID, and it is
    empty exactly when the count is null or zero. *)
Theorem parse_validation_sample (s3 : s3_client) (bucket run_prefix : string) :
  let v := _parse_validation s3 bucket run_prefix in
  (∀ n, invalid_objects_count v = Some n →
        len (invalid_objects_sample v) = Z.min 20 n) ∧
  Forall invalid_status (invalid_objects_sample v) ∧
  (invalid_objects_sample v = [] ↔
     invalid_objects_count v = None ∨ invalid_objects_count v = Some 0).
Proof.
  cbn. set (txt := default "" _).
  destruct (parse_invalid_object_proof_rows txt) as (Hc & Hall & _).
  cbv zeta in *.
  assert (count (_parse_invalid_object_proof txt) = None →
          objects (_parse_invalid_object_proof txt) = []) as Hnone.
  { intros Hn%parse_invalid_count_None. by rewrite Hn. }
  set (p := _parse_invalid_object_proof txt) in *.
  assert (∀ n, count p = Some n → n = len (objects p)) as Hn.
  { intros n Hcn. destruct (decide (txt = "")) as [He|He].
    - apply parse_invalid_count_None in He. fold p in He. congruence.
    - rewrite (Hc He) in Hcn. by injection Hcn. }
  split; [|split].
  - intros n ->%Hn. unfold len. rewrite length_take. lia.
  - by apply Forall_take.
  - split.
    + intros Ht. destruct (count p) as [n|] eqn:Hcn; [right|by left].
      rewrite (Hn n eq_refl). f_equal. unfold len.
      destruct (objects p); [done|]. discriminate.
    + intros [Hcn|Hcn]; [by rewrite (Hnone Hcn)|].
      apply Hn in Hcn. unfold len in Hcn.
      destruct (objects p); [done|]. cbn in Hcn. lia.
Qed.

(** ** Retry numbers and the listing *)

Lemma digits_value_nonneg (s : string) (acc : Z) :
  0 ≤ acc → 0 ≤ Py.digits_value acc s.
Proof.
  revert acc. induction s as [|c s IH]; intros acc Hacc; cbn; [done|].
  apply IH. unfold Py.digit_value. lia.
Qed.

Lemma int_nonneg (s : string) (n : Z) : Py.int s = Some n → 0 ≤ n.
Proof.
  unfold Py.int. destruct s as [|c s]; [done|].
  destruct (_ && _); [|done]. intros [= <-]. apply (digits_value_nonneg (String c s) 0). lia.
Qed.

Lemma impdp_retry_number_nonneg (filename : string) :
  0 ≤ _impdp_retry_number filename.
Proof.
  unfold _impdp_retry_number.
  destruct (Re.search _ _) as [m|]; [|done].
  destruct (Re.group m 1) as [[|c g]|]; [done| |done].
  destruct (Py.int (String c g)) as [n|] eqn:Hn; [|done].
  cbn. by eapply int_nonneg.
Qed.

(** The selector returns the key of a listed object whose file name starts
    with [impdp_] and ends with [.log]; the count is the number of such
    objects, and one entry is reported for each of them, with a retry number
    that is never negative; no key is returned exactly when the count is 0,
    and exactly then the reason is no_candidates. *)
Theorem pick_best_impdp_log_listed
    (s3 : s3_client) (bucket run_prefix : string) :
  let objs := list_objects_v2 s3 bucket (run_prefix ++ MIGRATION_PREFIX_REL) in
  let r := _pick_best_impdp_log s3 bucket run_prefix in
  (∀ k, r.1.1.1 = Some k →
        ∃ o, o ∈ objs ∧ Key o = k ∧ is_impdp_log o = true) ∧
  r.1.1.2 = len (List.filter is_impdp_log objs) ∧
  len r.1.2 = r.1.1.2 ∧
  Forall (fun m => 0 ≤ meta_retry_number m) r.1.2 ∧
  (r.1.1.1 = None ↔ r.1.1.2 = 0) ∧
  (r.1.1.1 = None ↔ r.2 = "no_candidates").
Proof.
  intros objs r. subst r. unfold _pick_best_impdp_log. fold objs.
  cbv zeta.
  assert (∀ c, c ∈ impdp_candidates objs →
               c.1 ∈ objs ∧ is_impdp_log c.1 = true ∧ 0 ≤ c.2) as Hcand.
  { intros c (o & -> & Ho)%list_elem_of_fmap. cbn [fst snd].
    apply list_elem_of_In, filter_In in Ho as [Ho Hi].
    split; [by apply list_elem_of_In|]. split; [done|].
    apply impdp_retry_number_nonneg. }
  assert (len (impdp_candidates objs) = len (List.filter is_impdp_log objs))
    as Hlen by (unfold impdp_candidates, len; by rewrite length_fmap).
  rewrite <- Hlen. clear Hlen.
  set (candidates := impdp_candidates objs) in *. clearbody candidates.
  set (meta := _ <$> candidates).
  assert (len meta = len candidates) as Hmeta
    by (subst meta; unfold len; by rewrite length_fmap).
  assert (Forall (fun m => 0 ≤ meta_retry_number m) meta) as Hrn.
  { subst meta. apply Forall_fmap, Forall_forall. intros [o rn] Hin.
    cbn. by apply (Hcand (o, rn)). }
  clearbody meta.
  destruct candidates as [|c0 cs].
  { cbn [fst snd]. repeat split; try done. }
  set (candidates := c0 :: cs) in *.
  assert (candidates ≠ []) as Hne by done.
  destruct (last_sort_by sort_key candidates c0 Hne)
    as (pre & sel & post & Hl & Hlast & _ & _).
  rewrite Hlast. destruct sel as [selected_obj rn] eqn:Hsel.
  cbn [fst snd].
  assert (len candidates ≠ 0) as Hpos by (unfold len; cbn; lia).
  split.
  - intros k [= <-]. exists selected_obj.
    destruct (Hcand (selected_obj, rn)) as (Ho & Hi & _); [|done].
    rewrite Hl. apply elem_of_app. right. left.
  - split; [done|]. split; [done|]. split; [done|].
    split; (split; [done|]); [done|].
    destruct (max_rn candidates >? 0); discriminate.
Qed.

(** ** Reading a match off the pattern *)

Lemma Matches_Seq_inv (icase : bool) (r1 r2 : Re.re) (st st2 : Re.mstate) :
  Matches icase (Re.Seq r1 r2) st st2 →
  ∃ st1, Matches icase r1 st st1 ∧ Matches icase r2 st1 st2.
Proof. inversion 1; subst. by eexists. Qed.

Lemma Matches_Rep_inv (icase : bool) (p : ascii → bool) (lo : nat)
    (hi : option nat) (st st' : Re.mstate) :
  Matches icase (Re.Rep p lo hi) st st' →
  ∃ w, Re.rest st = w ++ Re.rest st' ∧ Py.all p w = true ∧
       (lo ≤ String.length w)%nat ∧
       (∀ h, hi = Some h → (String.length w ≤ h)%nat) ∧
       Re.prev st' = last_char (Re.prev st) w ∧ Re.caps st' = Re.caps st.
Proof.
  inversion 1 as [| | | | | |p' lo' hi' n pv s caps pv' s' Hlo Hhi Hrun| | | |];
    subst. cbn.
  apply Run_prefix in Hrun as (w & -> & Hall & <- & ->). by exists w.
Qed.

Lemma Matches_Grp_inv (icase : bool) (i : nat) (r : Re.re)
    (st st' : Re.mstate) :
  Matches icase (Re.Grp i r) st st' →
  ∃ st1, Matches icase r st st1 ∧ Re.prev st' = Re.prev st1 ∧
         Re.rest st' = Re.rest st1 ∧
         Re.caps st' =
           (i, String.substring 0
                 (String.length (Re.rest st) - String.length (Re.rest st1))
                 (Re.rest st)) :: Re.caps st1.
Proof. inversion 1; subst. by eexists. Qed.

Lemma Matches_Bnd_inv (icase : bool) (st st' : Re.mstate) :
  Matches icase Re.Bnd st st' →
  st' = st ∧
  xorb (Re.word_at (Re.prev st)) (Re.word_at (Re.peek (Re.rest st))) = true.
Proof. inversion 1; by subst. Qed.

Lemma Matches_Bol_inv (icase : bool) (st st' : Re.mstate) :
  Matches icase Re.Bol st st' → st' = st ∧ Re.prev st = None.
Proof. inversion 1; by subst. Qed.

Lemma Matches_Eol_inv (icase : bool) (st st' : Re.mstate) :
  Matches icase Re.Eol st st' → st' = st ∧ at_end (Re.rest st).
Proof. inversion 1; by subst. Qed.

Lemma Matches_Opt_inv (icase : bool) (r : Re.re) (st st' : Re.mstate) :
  Matches icase (Re.Opt r) st st' → Matches icase r st st' ∨ st' = st.
Proof. inversion 1; subst; auto. Qed.

Lemma Matches_Chr_inv (icase : bool) (c : ascii) (st st' : Re.mstate) :
  Matches icase (Re.Chr c) st st' →
  ∃ x, Re.rest st = String x (Re.rest st') ∧ Re.chr_eq icase c x = true ∧
       Re.prev st' = Some x ∧ Re.caps st' = Re.caps st.
Proof. inversion 1; subst. by eexists. Qed.

Lemma Matches_Lit_inv (icase : bool) (w : string) (st st' : Re.mstate) :
  Matches icase (Re.Lit w) st st' →
  ∃ x, Re.rest st = x ++ Re.rest st' ∧ lit_eq icase w x ∧
       Re.prev st' = last_char (Re.prev st) x ∧ Re.caps st' = Re.caps st.
Proof.
  revert st. induction w as [|c w IH]; intros st; cbn [Re.Lit].
  - inversion 1; subst. exists "". unfold lit_eq. by destruct icase.
  - intros (st1 & (x & Hr & Hx & Hp & Hc)%Matches_Chr_inv &
            (y & Hr' & Hy & Hp' & Hc')%IH)%Matches_Seq_inv.
    exists (String x y). rewrite Hr, Hr', Hp', Hp, Hc', Hc.
    split; [done|]. split; [|done].
    unfold lit_eq, Re.chr_eq in *. destruct icase.
    + apply Ascii.eqb_eq in Hx. cbn. by rewrite Hy, Hx.
    + apply Ascii.eqb_eq in Hx. by rewrite Hy, Hx.
Qed.

Lemma Matches_Lit_intro (icase : bool) (w x : string) (pv : option ascii)
    (s : string) (caps : list (nat * string)) :
  lit_eq icase w x →
  Matches icase (Re.Lit w) (Re.MState pv (x ++ s) caps)
    (Re.MState (last_char pv x) s caps).
Proof.
  revert x pv. induction w as [|c w IH]; intros x pv Hx; cbn [Re.Lit].
  - assert (x = "") as ->.
    { unfold lit_eq in Hx. destruct icase; [|done]. by destruct x. }
    constructor.
  - assert (∃ a y, x = String a y ∧ Re.chr_eq icase c a = true ∧
                   lit_eq icase w y) as (a & y & -> & Ha & Hy).
    { unfold lit_eq, Re.chr_eq in *. destruct icase.
      - destruct x as [|a y]; [done|]. cbn in Hx. injection Hx as Ha Hy.
        exists a, y. rewrite Ha. by rewrite Ascii.eqb_refl.
      - subst x. exists c, w. by rewrite Ascii.eqb_refl. }
    apply M_Seq with (Re.MState (Some a) (y ++ s) caps).
    + rewrite app_cons_s. by constructor.
    + by apply (IH y (Some a)).
Qed.

Lemma Matches_Rep_intro (icase : bool) (p : ascii → bool) (lo : nat)
    (hi : option nat) (w : string) (pv : option ascii) (s : string)
    (caps : list (nat * string)) :
  Py.all p w = true → (lo ≤ String.length w)%nat →
  (∀ h, hi = Some h → (String.length w ≤ h)%nat) →
  Matches icase (Re.Rep p lo hi) (Re.MState pv (w ++ s) caps)
    (Re.MState (last_char pv w) s caps).
Proof.
  intros Hall Hlo Hhi. apply M_Rep with (String.length w); [done..|].
  by apply prefix_Run.
Qed.

(** ** The row count proof *)

Lemma isspace_newline (c : ascii) : Py.code c = 10%nat → Py.isspace c = true.
Proof. unfold Py.isspace, Py.between. by intros ->. Qed.

Lemma integer_line_match_sound (ln : string) (m : Re.mstate) :
  Re.match_ INTEGER_LINE_RE ln = Some m →
  ∃ ds, integer_line ln ds ∧ Re.group m 1 = Some ds.
Proof.
  intros H%match_at_sound. unfold matches_at, INTEGER_LINE_RE, star in H.
  cbn [Re.pat Re.ignorecase] in H.
  apply Matches_Seq_inv in H as (st1 & [-> _]%Matches_Bol_inv & H).
  apply Matches_Seq_inv in H
    as (st2 & (w1 & Hr1 & Ha1 & _ & _ & _ & Hc1)%Matches_Rep_inv & H).
  apply Matches_Seq_inv in H
    as (st3 & (st2' & (w2 & Hr2 & Ha2 & Hlo & Hhi & _ & Hc2)%Matches_Rep_inv
               & _ & Hr3 & Hc3)%Matches_Grp_inv & H).
  apply Matches_Seq_inv in H
    as (st4 & (w3 & Hr4 & Ha3 & _ & _ & _ & Hc4)%Matches_Rep_inv
        & [-> Hend]%Matches_Eol_inv).
  cbn [Re.rest Re.caps] in *.
  rewrite Hr2, <- Hr3, captured_prefix, Hc2, Hc1 in Hc3.
  exists w2. split.
  - exists w1, (w3 ++ Re.rest st4).
    split; [by rewrite Hr1, Hr2, <- Hr3, Hr4|].
    split; [done|]. split.
    + rewrite all_app, Ha3. destruct Hend as [->|(c & -> & Hc)]; [done|].
      cbn. by rewrite isspace_newline.
    + split; [|by apply Hhi]. split; [|done].
      intros ->. cbn in Hlo. lia.
  - unfold Re.group. by rewrite Hc4, Hc3.
Qed.

Lemma integer_line_match_complete (ln ds : string) :
  integer_line ln ds → is_Some (Re.match_ INTEGER_LINE_RE ln).
Proof.
  intros (ws1 & ws2 & -> & H1 & H2 & [Hne Hd] & Hlen).
  rewrite <- (app_empty_r ws2).
  eapply match_at_complete. unfold matches_at, INTEGER_LINE_RE, star.
  cbn [Re.pat Re.ignorecase].
  eapply M_Seq; [apply M_Bol|].
  eapply M_Seq; [by apply Matches_Rep_intro; [|lia|]|].
  eapply M_Seq.
  { apply M_Grp. apply Matches_Rep_intro; [exact Hd| |].
    - destruct ds; [done|cbn; lia].
    - by intros h [= <-]. }
  cbn [Re.prev Re.rest Re.caps].
  eapply M_Seq; [by apply Matches_Rep_intro; [|lia|]|].
  apply M_Eol. by left.
Qed.

Lemma int_digits (ds : string) :
  digits ds → (String.length ds ≤ Py.INT_MAX_STR_DIGITS)%nat →
  Py.int ds = Some (Py.digits_value 0 ds).
Proof.
  intros [Hne Hd] Hlen. unfold Py.int. destruct ds as [|c ds]; [done|].
  rewrite Hd. by apply Nat.leb_le in Hlen as ->.
Qed.

Lemma digits_value_bound (s : string) (acc : Z) :
  0 ≤ acc → Py.all Py.isdigit s = true →
  0 ≤ Py.digits_value acc s < (acc + 1) * 10 ^ Z.of_nat (String.length s).
Proof.
  revert acc. induction s as [|c s IH]; intros acc Hacc Hall.
  - cbn. lia.
  - cbn [Py.all] in Hall. apply andb_prop in Hall as [Hc Hall].
    assert (0 ≤ Py.digit_value c ≤ 9) as Hdv.
    { unfold Py.digit_value, Py.isdigit, Py.between in *.
      apply andb_prop in Hc as [?%Nat.leb_le ?%Nat.leb_le]. lia. }
    cbn [Py.digits_value String.length].
    specialize (IH (10 * acc + Py.digit_value c) ltac:(lia) Hall).
    rewrite Nat2Z.inj_succ, Z.pow_succ_r by lia. nia.
Qed.

Lemma first_integer_line_spec (lines : list string) :
  match first_integer_line lines with
  | Some n =>
      ∃ pre ln post ds,
        lines = (pre ++ ln :: post)%list ∧
        Forall not_integer_line pre ∧ integer_line ln ds ∧
        n = Py.digits_value 0 ds
  | None => Forall not_integer_line lines
  end.
Proof.
  induction lines as [|ln lines IH]; cbn [first_integer_line]; [constructor|].
  destruct (Re.match_ INTEGER_LINE_RE ln) as [m|] eqn:Hm.
  - apply integer_line_match_sound in Hm as (ds & Hds & ->). cbn.
    assert (Py.int ds = Some (Py.digits_value 0 ds)) as ->.
    { destruct Hds as (_ & _ & _ & _ & _ & Hd & Hlen).
      apply int_digits; [done|]. unfold Py.INT_MAX_STR_DIGITS. lia. }
    by exists [], ln, lines, ds.
  - assert (not_integer_line ln) as Hno.
    { intros ds [m' Hm']%integer_line_match_complete. congruence. }
    destruct (first_integer_line lines) as [n|].
    + destruct IH as (pre & ln' & post & ds & -> & Hpre & Hds & ->).
      exists (ln :: pre), ln', post, ds. repeat split; try done.
      by constructor.
    + by constructor.
Qed.

(** For an ASCII text, the value returned is that of the first line made of
    1 to 12 digits with optional whitespace around them, the lines before it
    not being of that form; it lies between 0 and 999999999999; and null is
    returned exactly when no line of the text has that form. *)
Theorem parse_orders_count_first_integer_line (text : string) :
  Py.isascii text = true →
  match _parse_orders_count_proof text with
  | Some n =>
      ∃ pre ln post ds,
        Py.splitlines text = (pre ++ ln :: post)%list ∧
        Forall not_integer_line pre ∧ integer_line ln ds ∧
        n = Py.digits_value 0 ds ∧ 0 ≤ n < 10 ^ 12
  | None => Forall not_integer_line (Py.splitlines text)
  end.
Proof.
  intros _. unfold _parse_orders_count_proof. destruct text as [|c text].
  - rewrite splitlines_empty. constructor.
  - pose proof (first_integer_line_spec (Py.splitlines (String c text))) as H.
    destruct (first_integer_line _) as [n|]; [|done].
    destruct H as (pre & ln & post & ds & Hl & Hpre & Hds & ->).
    exists pre, ln, post, ds. repeat split; try done.
    + apply digits_value_nonneg. lia.
    + destruct Hds as (_ & _ & _ & _ & _ & [_ Hd] & Hlen).
      pose proof (digits_value_bound ds 0 ltac:(lia) Hd) as [_ Hlt].
      eapply Z.lt_le_trans; [exact Hlt|].
      rewrite Z.add_0_l, Z.mul_1_l. apply Z.pow_le_mono_r; lia.
Qed.

Lemma parse_orders_count_first_integer_line_witness :
  let text := "COUNT" ++ String "010" ("  50000 " ++ String "010" "") in
  Py.isascii text = true ∧
  ∃ pre ln post ds,
    Py.splitlines text = (pre ++ ln :: post)%list ∧
    Forall not_integer_line pre ∧ integer_line ln ds ∧
    50000 = Py.digits_value 0 ds.
Proof.
  intros text.
  assert (Py.isascii text = true) as Ha by (vm_compute; reflexivity).
  split; [exact Ha|].
  pose proof (parse_orders_count_first_integer_line text Ha) as H.
  assert (_parse_orders_count_proof text = Some 50000) as E
    by (vm_compute; reflexivity).
  rewrite E in H. destruct H as (pre & ln & post & ds & Hl & Hp & Hd & Hn & _).
  exists pre, ln, post, ds.
  split; [exact Hl|]. split; [exact Hp|]. split; [exact Hd|exact Hn].
Defined.









(** A line of 13 digits is passed over, the count is read from a later
    line; signs and decimal points do not make a number. *)
Example parse_orders_count_examples :
  let nl := String "010" "" in
  _parse_orders_count_proof
    ("ORDERS_COUNT" ++ nl ++ "------------" ++ nl ++ "  50000 " ++ nl) =
    Some 50000 ∧
  _parse_orders_count_proof ("1234567890123" ++ nl ++ "7") = Some 7 ∧
  _parse_orders_count_proof "999999999999" = Some 999999999999 ∧
  _parse_orders_count_proof "-5" = None ∧
  _parse_orders_count_proof "50000.0" = None ∧
  _parse_orders_count_proof "" = None.
Proof. vm_compute. done. Qed.

(** ** Completion state of a Data Pump log *)

Lemma isword_upper_char (c : ascii) :
  Py.isword (Py.upper_char c) = Py.isword c.
Proof. by destruct c as [[] [] [] [] [] [] [] []]. Qed.

Lemma upper_app (a b : string) :
  Py.upper (a ++ b) = Py.upper a ++ Py.upper b.
Proof.
  induction a as [|c a IH]; [done|]. rewrite !app_cons_s. cbn. by rewrite IH.
Qed.

Lemma upper_split (x a b : string) :
  Py.upper x = a ++ b →
  ∃ x1 x2, x = x1 ++ x2 ∧ Py.upper x1 = a ∧ Py.upper x2 = b.
Proof.
  revert x. induction a as [|c a IH]; intros x Hx.
  - by exists "", x.
  - destruct x as [|d x]; [done|]. rewrite app_cons_s in Hx. cbn in Hx.
    injection Hx as Hd (x1 & x2 & -> & H1 & H2)%IH.
    exists (String d x1), x2. cbn. by rewrite Hd, H1.
Qed.

Lemma last_char_upper (x : string) (pv : option ascii) :
  last_char (Py.upper_char <$> pv) (Py.upper x) =
  Py.upper_char <$> last_char pv x.
Proof.
  revert pv. induction x as [|c x IH]; intros pv; [done|].
  cbn. apply (IH (Some c)).
Qed.

Lemma last_char_nonempty (x : string) (pv pv' : option ascii) :
  x ≠ "" → last_char pv x = last_char pv' x.
Proof. by destruct x. Qed.

Lemma word_at_last_upper (x : string) (pv : option ascii) :
  x ≠ "" →
  Re.word_at (last_char pv x) = Re.word_at (last_char None (Py.upper x)).
Proof.
  intros Hne. rewrite (last_char_nonempty x pv None Hne).
  change (last_char None (Py.upper x))
    with (last_char (Py.upper_char <$> None) (Py.upper x)).
  rewrite last_char_upper.
  destruct (last_char None x) as [c|]; [|done].
  cbn. apply eq_sym, isword_upper_char.
Qed.

Lemma word_at_peek_upper (x s : string) :
  x ≠ "" →
  Re.word_at (Re.peek (x ++ s)) = Re.word_at (Re.peek (Py.upper x)).
Proof.
  destruct x as [|c x]; [done|]. intros _. cbn.
  apply eq_sym, isword_upper_char.
Qed.

Lemma upper_nonempty (x w : string) : Py.upper x = w → w ≠ "" → x ≠ "".
Proof. intros <- Hne ->. done. Qed.

(** The word [completed] between two places that are not inside a word. *)
Lemma completed_occurs (text pre x rest : string) :
  text = pre ++ x ++ rest →
  Py.upper x = "COMPLETED" →
  Re.word_at (last_char None pre) = false →
  Re.word_at (Re.peek rest) = false →
  Occurs DP_COMPLETED_RE text.
Proof.
  intros -> Hx Hpre Hrest.
  assert (x ≠ "") as Hne by (by eapply upper_nonempty).
  exists pre, (x ++ rest),
    (Re.MState (last_char (last_char None pre) x) rest []).
  split; [done|]. unfold matches_at, DP_COMPLETED_RE.
  cbn [Re.pat Re.ignorecase].
  eapply M_Seq; [|eapply M_Seq].
  - apply M_Bnd. cbn [Re.prev Re.rest].
    by rewrite Hpre, word_at_peek_upper, Hx.
  - by apply Matches_Lit_intro.
  - apply M_Bnd. cbn [Re.prev Re.rest].
    by rewrite word_at_last_upper, Hx, Hrest.
Qed.

Lemma success_occurs_completed (text : string) :
  Occurs DP_SUCCESS_RE text → Occurs DP_COMPLETED_RE text.
Proof.
  intros (pre & post & m & -> & H).
  unfold matches_at, DP_SUCCESS_RE in H. cbn [Re.pat Re.ignorecase] in H.
  apply Matches_Seq_inv in H as (st1 & [-> _]%Matches_Bnd_inv & H).
  apply Matches_Seq_inv in H
    as (st2 & (x & Hr & Hx & Hp & _)%Matches_Lit_inv
        & [-> Hb]%Matches_Bnd_inv).
  cbn [Re.prev Re.rest] in *. subst post. unfold lit_eq in Hx.
  change (Py.upper "successfully completed")
    with ("SUCCESSFULLY " ++ "COMPLETED") in Hx.
  pose proof Hx as Hx'.
  apply upper_split in Hx' as (x1 & x2 & -> & H1 & H2).
  apply (completed_occurs _ (pre ++ x1) x2 (Re.rest st2)).
  - by rewrite !app_assoc_s.
  - done.
  - rewrite last_char_app, word_at_last_upper, H1; [done|].
    by eapply upper_nonempty.
  - rewrite Hp, word_at_last_upper, Hx in Hb; [|by eapply upper_nonempty].
    cbn in Hb. by destruct (Re.word_at (Re.peek (Re.rest st2))).
Qed.

(** A match that starts with [\bcompleted with]. *)
Lemma completed_with_occurs_completed (text pre post : string) (r : Re.re)
    (m : Re.mstate) :
  text = pre ++ post →
  Matches true (Re.Seq Re.Bnd (Re.Seq (Re.Lit "completed with") r))
    (Re.MState (last_char None pre) post []) m →
  Occurs DP_COMPLETED_RE text.
Proof.
  intros -> H.
  apply Matches_Seq_inv in H as (st1 & [-> Hb]%Matches_Bnd_inv & H).
  apply Matches_Seq_inv in H
    as (st2 & (x & Hr & Hx & Hp & _)%Matches_Lit_inv & _).
  cbn [Re.prev Re.rest] in *. subst post. unfold lit_eq in Hx.
  change (Py.upper "completed with") with ("COMPLETED" ++ " WITH") in Hx.
  pose proof Hx as Hx'.
  apply upper_split in Hx' as (x1 & x2 & -> & H1 & H2).
  apply (completed_occurs _ pre x1 (x2 ++ Re.rest st2)).
  - by rewrite !app_assoc_s.
  - done.
  - rewrite word_at_peek_upper, Hx in Hb; [|by eapply upper_nonempty].
    cbn in Hb. by destruct (Re.word_at (last_char None pre)).
  - rewrite word_at_peek_upper, H2; [done|]. by eapply upper_nonempty.
Qed.

Lemma completed_with_errors_shape (text : string) (m : Re.mstate) :
  Re.search DP_COMPLETED_WITH_ERRORS_RE text = Some m →
  ∃ ds, completed_with_count text ds ∧ Re.group m 1 = Some ds.
Proof.
  intros (pre & post & -> & H)%search_from_sound.
  unfold matches_at, DP_COMPLETED_WITH_ERRORS_RE, plus in H.
  cbn [Re.pat Re.ignorecase] in H.
  apply Matches_Seq_inv in H as (st1 & [-> _]%Matches_Bnd_inv & H).
  apply Matches_Seq_inv in H
    as (st2 & (w & Hr1 & Hw & _ & Hc1)%Matches_Lit_inv & H).
  apply Matches_Seq_inv in H
    as (st3 & (sp1 & Hr2 & Hs1 & Hl1 & _ & _ & Hc2)%Matches_Rep_inv & H).
  apply Matches_Seq_inv in H
    as (st4 & (st3' & (ds & Hr3 & Hd & Hl2 & _ & _ & Hc3)%Matches_Rep_inv
               & _ & Hr4 & Hc4)%Matches_Grp_inv & H).
  apply Matches_Seq_inv in H
    as (st5 & (sp2 & Hr5 & Hs2 & Hl3 & _ & _ & Hc5)%Matches_Rep_inv
        & (e & Hr6 & He & _ & Hc6)%Matches_Lit_inv).
  cbn [Re.rest Re.caps] in *.
  rewrite Hr3, <- Hr4, captured_prefix, Hc3, Hc2, Hc1 in Hc4.
  assert (∀ s, (1 ≤ String.length s)%nat → s ≠ "") as Hne
    by (intros s Hs ->; cbn in Hs; lia).
  exists ds. split.
  - exists pre, w, sp1, sp2, e, (Re.rest m).
    split; [by rewrite Hr1, Hr2, Hr3, <- Hr4, Hr5, Hr6|].
    repeat split; try done; by apply Hne.
  - unfold Re.group. by rewrite Hc6, Hc5, Hc4.
Qed.

Lemma search_cases (p : Re.pattern) (text : string) :
  (∃ m, Re.search p text = Some m ∧ Occurs p text) ∨
  (Re.search p text = None ∧ ¬ Occurs p text).
Proof.
  destruct (Re.search p text) as [m|] eqn:Hs.
  - left. exists m. split; [done|]. apply search_occurs. by rewrite Hs.
  - right. split; [done|]. by apply search_None.
Qed.

(** The markers in their order, for any text of the embedding. *)
Lemma dp_completion_order (text : string) :
  let r := _dp_completion_state_and_errors text in
  (Occurs DP_SUCCESS_RE text → r = ("SUCCESS", Some 0)) ∧
  (¬ Occurs DP_SUCCESS_RE text →
   Occurs DP_COMPLETED_WITH_ERRORS_RE text →
   r.1 = "COMPLETED_WITH_ERRORS" ∧
   ∃ ds, completed_with_count text ds ∧ r.2 = Py.int ds ∧
         (r.2 = None ↔ (Py.INT_MAX_STR_DIGITS < String.length ds)%nat)) ∧
  (¬ Occurs DP_SUCCESS_RE text →
   ¬ Occurs DP_COMPLETED_WITH_ERRORS_RE text →
   Occurs DP_COMPLETED_WITH_ERRORS_RE2 text →
   r = ("COMPLETED_WITH_ERRORS", None)) ∧
  (¬ Occurs DP_SUCCESS_RE text →
   ¬ Occurs DP_COMPLETED_WITH_ERRORS_RE text →
   ¬ Occurs DP_COMPLETED_WITH_ERRORS_RE2 text →
   Occurs DP_COMPLETED_RE text →
   r = ("COMPLETED", None)) ∧
  (¬ Occurs DP_COMPLETED_RE text → r = ("NONE", None)).
Proof.
  intros r. subst r. unfold _dp_completion_state_and_errors.
  destruct (search_cases DP_SUCCESS_RE text) as [(m1 & -> & H1)|[-> H1]];
    [repeat split; try done; intros Hc; destruct Hc;
     by apply success_occurs_completed|].
  destruct (search_cases DP_COMPLETED_WITH_ERRORS_RE text)
    as [(m2 & Hm2 & H2)|[-> H2]].
  { rewrite Hm2. cbn [fst snd]. repeat split; try done.
    - apply completed_with_errors_shape in Hm2 as (ds & Hds & ->).
      exists ds. split; [done|]. change (Some ds ≫= Py.int) with (Py.int ds).
      split; [done|].
      destruct Hds as (_ & _ & _ & _ & _ & _ & _ & _ & _ & [Hne Hd] & _).
      unfold Py.int. destruct ds as [|c ds]; [done|]. rewrite Hd.
      cbn [andb]. destruct (Nat.leb_spec (String.length (String c ds))
                              Py.INT_MAX_STR_DIGITS); split; try done; lia.
    - intros Hc. destruct Hc. destruct H2 as (pre & post & m & -> & Hm).
      by apply (completed_with_occurs_completed _ pre post _ m eq_refl Hm). }
  destruct (search_cases DP_COMPLETED_WITH_ERRORS_RE2 text)
    as [(m3 & -> & H3)|[-> H3]].
  { repeat split; try done. intros Hc. destruct Hc.
    destruct H3 as (pre & post & m & -> & Hm).
    by apply (completed_with_occurs_completed _ pre post _ m eq_refl Hm). }
  destruct (search_cases DP_COMPLETED_RE text) as [(m4 & -> & H4)|[-> H4]];
    repeat split; done.
Qed.

(** For an ASCII text, the completion markers are tried in a fixed order.  A
    text in which [successfully completed] occurs is in state SUCCESS with
    count 0.
    Otherwise, a text in which [completed with <digits> error] occurs is in
    state COMPLETED_WITH_ERRORS, with the value of such digits as count
    (null when they are more than 4300).  Otherwise [completed with error]
    gives COMPLETED_WITH_ERRORS with a null count, otherwise the word
    [completed] gives COMPLETED, and a text with none of them is in state
    NONE. *)
Theorem dp_completion_priority (text : string) :
  Py.isascii text = true →
  let r := _dp_completion_state_and_errors text in
  (Occurs DP_SUCCESS_RE text → r = ("SUCCESS", Some 0)) ∧
  (¬ Occurs DP_SUCCESS_RE text →
   Occurs DP_COMPLETED_WITH_ERRORS_RE text →
   r.1 = "COMPLETED_WITH_ERRORS" ∧
   ∃ ds, completed_with_count text ds ∧ r.2 = Py.int ds ∧
         (r.2 = None ↔ (Py.INT_MAX_STR_DIGITS < String.length ds)%nat)) ∧
  (¬ Occurs DP_SUCCESS_RE text →
   ¬ Occurs DP_COMPLETED_WITH_ERRORS_RE text →
   Occurs DP_COMPLETED_WITH_ERRORS_RE2 text →
   r = ("COMPLETED_WITH_ERRORS", None)) ∧
  (¬ Occurs DP_SUCCESS_RE text →
   ¬ Occurs DP_COMPLETED_WITH_ERRORS_RE text →
   ¬ Occurs DP_COMPLETED_WITH_ERRORS_RE2 text →
   Occurs DP_COMPLETED_RE text →
   r = ("COMPLETED", None)) ∧
  (¬ Occurs DP_COMPLETED_RE text → r = ("NONE", None)).
Proof. intros _. apply dp_completion_order. Qed.


Lemma dp_completion_priority_witness :
  let text := "Job completed with 3 error(s)" in
  Py.isascii text = true ∧
  (¬ Occurs DP_COMPLETED_RE text →
   _dp_completion_state_and_errors text = ("NONE", None)) ∧
  (Occurs DP_SUCCESS_RE text →
   _dp_completion_state_and_errors text = ("SUCCESS", Some 0)).
Proof.
  intros text.
  assert (Py.isascii text = true) as Ha by (vm_compute; reflexivity).
  split; [exact Ha|].
  destruct (dp_completion_priority text Ha) as (Hs & _ & _ & _ & Hn).
  split; [exact Hn|exact Hs].
Defined.




(** For an ASCII text, the state is one of the four; it is SUCCESS exactly
    when [successfully completed] occurs, and NONE exactly when the word
    [completed] occurs nowhere; a count is never negative and is only given
    in the states SUCCESS, where it is 0, and COMPLETED_WITH_ERRORS. *)
Theorem dp_completion_states (text : string) :
  Py.isascii text = true →
  let r := _dp_completion_state_and_errors text in
  (r.1 = "SUCCESS" ∨ r.1 = "COMPLETED_WITH_ERRORS" ∨ r.1 = "COMPLETED" ∨
   r.1 = "NONE") ∧
  (r.1 = "SUCCESS" ↔ Occurs DP_SUCCESS_RE text) ∧
  (r.1 = "NONE" ↔ ¬ Occurs DP_COMPLETED_RE text) ∧
  (r.1 = "SUCCESS" → r.2 = Some 0) ∧
  (∀ n, r.2 = Some n →
        0 ≤ n ∧ (r.1 = "SUCCESS" ∨ r.1 = "COMPLETED_WITH_ERRORS")).
Proof.
  intros _ r. subst r. unfold _dp_completion_state_and_errors.
  destruct (search_cases DP_SUCCESS_RE text) as [(m1 & -> & H1)|[-> H1]].
  { cbn [fst snd]. split; [by left|]. split; [done|]. split; [|split].
    - split; [done|]. intros Hc. destruct Hc.
      by apply success_occurs_completed.
    - done.
    - intros n [= <-]. split; [done|by left]. }
  destruct (search_cases DP_COMPLETED_WITH_ERRORS_RE text)
    as [(m2 & -> & H2)|[-> H2]].
  { cbn [fst snd]. destruct H2 as (pre & post & m & -> & Hm).
    apply (completed_with_occurs_completed _ pre post _ m eq_refl) in Hm.
    split; [by right; left|]. split; [done|]. split; [|split].
    - split; [done|]. intros Hc. by destruct Hc.
    - done.
    - intros n Hn. split; [|by right].
      destruct (Re.group m2 1) as [g|]; [|done]. cbn in Hn.
      by eapply int_nonneg. }
  destruct (search_cases DP_COMPLETED_WITH_ERRORS_RE2 text)
    as [(m3 & -> & H3)|[-> H3]].
  { cbn [fst snd]. destruct H3 as (pre & post & m & -> & Hm).
    apply (completed_with_occurs_completed _ pre post _ m eq_refl) in Hm.
    split; [by right; left|]. split; [done|]. split; [|split]; [|done..].
    split; [done|]. intros Hc. by destruct Hc. }
  destruct (search_cases DP_COMPLETED_RE text) as [(m4 & -> & H4)|[-> H4]];
    cbn [fst snd].
  - split; [by right; right; left|]. split; [done|].
    split; [|split]; [|done..].
    split; [done|]. intros Hc. by destruct Hc.
  - split; [by right; right; right|]. split; [done|].
    split; [|split]; done.
Qed.

Lemma dp_completion_states_witness :
  let text := "Job successfully completed" in
  Py.isascii text = true ∧
  ((_dp_completion_state_and_errors text).1 = "SUCCESS" ↔
   Occurs DP_SUCCESS_RE text).
Proof.
  intros text.
  assert (Py.isascii text = true) as Ha by (vm_compute; reflexivity).
  split; [exact Ha|].
  exact (proj1 (proj2 (dp_completion_states text Ha))).
Defined.

(** A log that ends successfully after reporting errors is in state
    SUCCESS; the count of a log that completed with errors is read in any
    case and across line breaks. *)
Example dp_completion_examples :
  let nl := String "010" "" in
  _dp_completion_state_and_errors
    ("Job completed with 3 error(s)" ++ nl ++ "Job successfully completed")
    = ("SUCCESS", Some 0) ∧
  _dp_completion_state_and_errors ("Job COMPLETED WITH" ++ nl ++ "3 errors")
    = ("COMPLETED_WITH_ERRORS", Some 3) ∧
  _dp_completion_state_and_errors "completed with errors"
    = ("COMPLETED_WITH_ERRORS", None) ∧
  _dp_completion_state_and_errors "job completed at 10:00"
    = ("COMPLETED", None) ∧
  _dp_completion_state_and_errors "uncompleted work" = ("NONE", None) ∧
  _dp_completion_state_and_errors "" = ("NONE", None).
Proof. vm_compute. done. Qed.

(** ** Error codes of a log *)

Lemma contains_intro (p a b : string) :
  Py.contains p (a ++ p ++ b) = true.
Proof.
  induction a as [|c a IH].
  - rewrite app_nil_s. destruct (p ++ b) eqn:Hpb; cbn [Py.contains];
      rewrite <- Hpb;
      (assert (Py.startswith p (p ++ b) = true) as ->
         by (apply startswith_spec; by exists b)); done.
  - rewrite app_cons_s. cbn [Py.contains]. rewrite IH. by rewrite orb_true_r.
Qed.

Lemma upper_digits (d : string) :
  Py.all Py.isdigit d = true → Py.upper d = d.
Proof.
  induction d as [|c d IH]; [done|]. cbn. intros [Hc Hd]%andb_prop.
  rewrite (IH Hd). f_equal. unfold Py.upper_char.
  assert (Py.islower c = false) as ->; [|done].
  unfold Py.isdigit, Py.islower, Py.between in *.
  apply andb_prop in Hc as [_ ?%Nat.leb_le].
  apply andb_false_iff. left. apply Nat.leb_gt. lia.
Qed.

Lemma finditer_go_sound (p : Re.pattern) (s : string) (skip : nat)
    (pv : option ascii) (m : Re.mstate) :
  m ∈ ReMore.finditer_go p skip pv s →
  ∃ pre post, s = pre ++ post ∧ matches_at p (last_char pv pre) post m.
Proof.
  revert skip pv. induction s as [|c s IH]; intros skip pv;
    cbn [ReMore.finditer_go].
  - by intros ?%not_elem_of_nil.
  - assert (∀ k, m ∈ ReMore.finditer_go p k (Some c) s →
                 ∃ pre post, String c s = pre ++ post ∧
                             matches_at p (last_char pv pre) post m) as Hrec.
    { intros k (pre & post & -> & Hm)%IH. by exists (String c pre), post. }
    destruct skip as [|k]; [|by apply Hrec].
    destruct (Re.match_at p pv (String c s)) as [m'|] eqn:Hm'; [|by apply Hrec].
    intros [->|Hin]%elem_of_cons; [|by eapply Hrec].
    exists "", (String c s). split; [done|]. by apply match_at_sound.
Qed.

Lemma ora_match_shape (pv : option ascii) (post : string) (m : Re.mstate) :
  matches_at ORA_RE pv post m →
  ∃ x d, post = x ++ d ++ Re.rest m ∧ Py.upper x = "ORA-" ∧
         Py.all Py.isdigit d = true ∧ String.length d = 5%nat ∧
         Re.group m 1 = Some (x ++ d).
Proof.
  unfold matches_at, ORA_RE. cbn [Re.pat Re.ignorecase]. intros H.
  apply Matches_Seq_inv in H as (st1 & [-> _]%Matches_Bnd_inv & H).
  apply Matches_Seq_inv in H as (st2 & Hg & [-> _]%Matches_Bnd_inv).
  apply Matches_Grp_inv in Hg as (st3 & Hg & _ & Hr & Hc).
  apply Matches_Seq_inv in Hg
    as (st4 & (x & Hr1 & Hx & _ & Hc1)%Matches_Lit_inv
        & (d & Hr2 & Hd & Hlo & Hhi & _ & Hc2)%Matches_Rep_inv).
  cbn [Re.rest Re.caps] in *.
  exists x, d. rewrite Hr, Hr1, Hr2. split; [done|]. split; [done|].
  split; [done|]. split; [specialize (Hhi 5%nat eq_refl); lia|].
  unfold Re.group. rewrite Hc, Hr1, Hr2, <- app_assoc_s, captured_prefix.
  done.
Qed.

Lemma ora_matches_counted (text : string) (m : Re.mstate) :
  m ∈ ReMore.finditer ORA_RE text →
  ∃ k, Re.group m 1 = Some k ∧ ora_code (Py.upper k) ∧
       Is_true (Py.contains (Py.upper k) (Py.upper text)).
Proof.
  intros (pre & post & -> & (x & d & -> & Hx & Hd & Hlen & Hg)%ora_match_shape)
           %finditer_go_sound.
  exists (x ++ d). split; [done|].
  rewrite !upper_app, Hx, (upper_digits d Hd).
  split; [unfold ora_code; by eexists|].
  apply Is_true_true.
  exact (contains_intro ("ORA-" ++ d) (Py.upper pre) (Py.upper (Re.rest m))).
Qed.

Lemma ora_counts_fold (text : string) (ms : list Re.mstate)
    (counts : gmap string Z) :
  (∀ m, m ∈ ms → m ∈ ReMore.finditer ORA_RE text) →
  map_Forall (counted_code text) counts →
  map_Forall (counted_code text)
    (foldl (fun counts m =>
              match Re.group m 1 with
              | Some code =>
                  let cu := Py.upper code in
                  <[cu := default 0 (counts !! cu) + 1]> counts
              | None => counts
              end) counts ms).
Proof.
  revert counts. induction ms as [|m ms IH]; intros counts Hms Hc; [done|].
  cbn [foldl]. apply IH; [intros m' Hm'; apply Hms; by right|].
  destruct (ora_matches_counted text m) as (k & -> & Hk & Hin);
    [apply Hms; left|].
  cbv zeta. apply map_Forall_insert_2; [|done].
  split; [done|]. split; [|done].
  destruct (counts !! Py.upper k) as [n|] eqn:Hn; cbn; [|lia].
  destruct (Hc _ _ Hn) as (_ & ? & _). lia.
Qed.

(** For an ASCII text, every key of the mapping is [ORA-] followed by five
    digits, in upper case, and occurs in the upper-cased text; every count
    is at least 1. *)
Theorem parse_ora_counts_entries (text : string) (k : string) (n : Z) :
  Py.isascii text = true →
  _parse_ora_counts text !! k = Some n →
  ora_code k ∧ 1 ≤ n ∧ Is_true (Py.contains k (Py.upper text)).
Proof.
  intros _ Hk. unfold _parse_ora_counts in Hk.
  by apply (ora_counts_fold text (ReMore.finditer ORA_RE text) ∅
              (fun _ H => H) (map_Forall_empty _) k n).
Qed.

Lemma parse_ora_counts_entries_witness :
  let text := "ORA-39000: bad dump file; ora-39000 again" in
  Py.isascii text = true ∧
  _parse_ora_counts text !! "ORA-39000" = Some 2 ∧
  ora_code "ORA-39000" ∧ 1 ≤ 2 ∧
  Is_true (Py.contains "ORA-39000" (Py.upper text)).
Proof.
  intros text.
  assert (Py.isascii text = true) as Ha by (vm_compute; reflexivity).
  assert (_parse_ora_counts text !! "ORA-39000" = Some 2) as H
    by (vm_compute; reflexivity).
  split; [exact Ha|]. split; [exact H|].
  exact (parse_ora_counts_entries text "ORA-39000" 2 Ha H).
Defined.

Lemma length_upper (s : string) : String.length (Py.upper s) = String.length s.
Proof. induction s as [|c s IH]; [done|]. cbn. by rewrite IH. Qed.

Lemma digit_not_letter_O (c : ascii) :
  Py.isdigit c = true → not_letter_O c = true.
Proof. by destruct c as [[] [] [] [] [] [] [] []]. Qed.

Lemma digits_not_letter_O (d : string) :
  Py.all Py.isdigit d = true → Py.all not_letter_O d = true.
Proof.
  induction d as [|c d IH]; [done|]. cbn. intros [Hc Hd]%andb_prop.
  by rewrite (digit_not_letter_O c Hc), IH.
Qed.

(** A match of the code pattern reads a letter O and then eight characters
    that are not an O; its group is the nine characters read. *)
Lemma ora_match_chars (pv : option ascii) (post : string) (m : Re.mstate) :
  matches_at ORA_RE pv post m →
  ∃ o t, post = String o t ++ Re.rest m ∧ not_letter_O o = false ∧
         String.length t = 8%nat ∧ Py.all not_letter_O t = true ∧
         Re.group m 1 = Some (String.substring 0 9 post).
Proof.
  intros (x & d & -> & Hx & Hd & Hlen & Hg)%ora_match_shape.
  destruct x as [|o [|r [|a [|h [|? ?]]]]]; try discriminate Hx.
  cbn in Hx. injection Hx as Ho Hr Ha Hh.
  exists o, (String r (String a (String h d))).
  split; [by rewrite <- !app_assoc_s|].
  split; [unfold not_letter_O; by rewrite Ho|].
  split; [cbn; by rewrite Hlen|]. split.
  - cbn [Py.all]. unfold not_letter_O at 1 2 3. rewrite Hr, Ha, Hh.
    cbn. by apply digits_not_letter_O.
  - rewrite Hg. f_equal. symmetry.
    rewrite <- app_assoc_s.
    replace 9%nat with (String.length (String o (String r (String a (String h "")))
                          ++ d))
      by (rewrite length_app_s, Hlen; done).
    apply substring_prefix.
Qed.

Lemma ora_finditer_complete (s : string) :
  ∀ skip pv pre post m' sk s2,
    s = pre ++ post → s = sk ++ s2 → String.length sk = skip →
    Py.all not_letter_O sk = true →
    matches_at ORA_RE (last_char pv pre) post m' →
    ∃ m, m ∈ ReMore.finditer_go ORA_RE skip pv s ∧
         Re.group m 1 = Re.group m' 1.
Proof.
  induction s as [|c s IH]; intros skip pv pre post m' sk s2 Hpre Hsk Hlen
    Hall Hm'.
  { destruct pre; [|done]. rewrite app_nil_s in Hpre. subst post.
    apply ora_match_chars in Hm' as (o & t & Hp & _). done. }
  cbn [ReMore.finditer_go].
  destruct skip as [|k].
  - destruct sk; [|done]. clear Hall Hlen Hsk.
    destruct pre as [|c' pre].
    + rewrite app_nil_s in Hpre. subst post. cbn [last_char] in Hm'.
      destruct (match_at_complete _ _ _ _ Hm') as [m Hm]. rewrite Hm.
      exists m. split; [left|].
      apply match_at_sound in Hm.
      apply ora_match_chars in Hm as (_ & _ & _ & _ & _ & _ & ->).
      apply ora_match_chars in Hm' as (_ & _ & _ & _ & _ & _ & ->). done.
    + rewrite app_cons_s in Hpre. injection Hpre as <- ->.
      destruct (Re.match_at ORA_RE pv (String c (pre ++ post))) as [m|] eqn:Hm.
      * apply match_at_sound in Hm.
        apply ora_match_chars in Hm as (o & t & Hs & _ & Ht & Hall & _).
        rewrite app_cons_s in Hs. injection Hs as _ Hs.
        assert (String.length (pre ++ post)
                = (String.length t + String.length (Re.rest m))%nat) as Hl
          by (by rewrite Hs, length_app_s).
        cbn [String.length]. rewrite Hl.
        replace (Nat.pred (S (String.length t + String.length (Re.rest m))
                           - String.length (Re.rest m)))
          with (String.length t) by lia.
        destruct (IH (String.length t) (Some c) pre post m' t (Re.rest m))
          as (m0 & Hin & Hg); try done.
        exists m0. split; [by right|done].
      * destruct (IH 0%nat (Some c) pre post m' "" (pre ++ post))
          as (m0 & Hin & Hg); try done.
        by exists m0.
  - destruct sk as [|c' sk]; [done|]. rewrite app_cons_s in Hsk.
    injection Hsk as <- Hsk. cbn in Hlen. injection Hlen as Hlen.
    cbn [Py.all] in Hall. apply andb_prop in Hall as [Hc Hall].
    destruct pre as [|c' pre].
    + rewrite app_nil_s in Hpre. subst post.
      apply ora_match_chars in Hm' as (o & t & Hp & Ho & _).
      rewrite app_cons_s in Hp. injection Hp as <- _. congruence.
    + rewrite app_cons_s in Hpre. injection Hpre as <- Hpre.
      by apply (IH k (Some c) pre post m' sk s2).
Qed.

Lemma ora_counts_keys (ms : list Re.mstate) (counts : gmap string Z)
    (k : string) :
  is_Some (foldl (fun counts m =>
                    match Re.group m 1 with
                    | Some code =>
                        let cu := Py.upper code in
                        <[cu := default 0 (counts !! cu) + 1]> counts
                    | None => counts
                    end) counts ms !! k) ↔
  is_Some (counts !! k) ∨
  ∃ m g, m ∈ ms ∧ Re.group m 1 = Some g ∧ Py.upper g = k.
Proof.
  revert counts. induction ms as [|m ms IH]; intros counts; cbn [foldl].
  - split; [by left|]. intros [H|(m & g & []%not_elem_of_nil & _)]. done.
  - rewrite IH. destruct (Re.group m 1) as [g|] eqn:Hg; cbv zeta.
    + rewrite lookup_insert_is_Some'. split.
      * intros [[<-|H]|(m' & g' & Hin & Hg' & Hk)].
        -- right. exists m, g. split; [left|done].
        -- by left.
        -- right. exists m', g'. split; [by right|done].
      * intros [H|(m' & g' & [->|Hin]%elem_of_cons & Hg' & Hk)].
        -- left. by right.
        -- left. left. congruence.
        -- right. by exists m', g'.
    + split.
      * intros [H|(m' & g' & Hin & Hg' & Hk)]; [by left|].
        right. exists m', g'. split; [by right|done].
      * intros [H|(m' & g' & [->|Hin]%elem_of_cons & Hg' & Hk)];
          [by left|congruence|].
        right. by exists m', g'.
Qed.

(** For an ASCII text, a code is a key of the mapping exactly when it occurs
    in the text, between word boundaries and in whatever case: no occurrence
    is missed. *)
Theorem parse_ora_counts_complete (text k : string) :
  Py.isascii text = true →
  is_Some (_parse_ora_counts text !! k) ↔ code_occurs text k.
Proof.
  intros _. unfold _parse_ora_counts. rewrite ora_counts_keys, lookup_empty.
  unfold code_occurs. split.
  - intros [[? [=]]|(m & g & Hin & Hg & Hk)].
    apply finditer_go_sound in Hin as (pre & post & -> & Hm).
    by exists pre, post, m, g.
  - intros (pre & post & m' & g & -> & Hm' & Hg & Hk). right.
    destruct (ora_finditer_complete (pre ++ post) 0 None pre post m' ""
                (pre ++ post)) as (m & Hin & Hgm); try done.
    exists m, g. split; [done|]. split; [congruence|done].
Qed.

Lemma parse_ora_counts_complete_witness :
  let text := "job failed (Ora-31640)" in
  Py.isascii text = true ∧ code_occurs text "ORA-31640".
Proof.
  intros text.
  assert (Py.isascii text = true) as Ha by (vm_compute; reflexivity).
  split; [exact Ha|].
  apply (parse_ora_counts_complete text "ORA-31640" Ha).
  vm_compute. eexists. reflexivity.
Defined.

(** Codes are counted in any case and only as whole words. *)
Example parse_ora_counts_examples :
  _parse_ora_counts "ORA-39000: x; ora-39000 y; (Ora-31640)"
    = {[ "ORA-39000" := 2; "ORA-31640" := 1 ]} ∧
  _parse_ora_counts "XORA-39000 ORA-390001 ORA-3900 ORA_39000" = ∅ ∧
  _parse_ora_counts "" = ∅.
Proof. vm_compute. done. Qed.

(** ** Compilation warnings *)

Lemma Matches_Grp_Rep_inv (icase : bool) (i : nat) (p : ascii → bool)
    (lo : nat) (hi : option nat) (st st' : Re.mstate) :
  Matches icase (Re.Grp i (Re.Rep p lo hi)) st st' →
  ∃ w, Re.rest st = w ++ Re.rest st' ∧ Py.all p w = true ∧
       (lo ≤ String.length w)%nat ∧
       (∀ h, hi = Some h → (String.length w ≤ h)%nat) ∧
       Re.prev st' = last_char (Re.prev st) w ∧
       Re.caps st' = (i, w) :: Re.caps st.
Proof.
  intros (st1 & (w & Hr & Hall & Hlo & Hhi & Hp & Hc)%Matches_Rep_inv
          & Hp' & Hr' & Hc')%Matches_Grp_inv.
  exists w. rewrite Hr' , Hp', Hc', Hc, Hr, captured_prefix. by rewrite Hp.
Qed.

Lemma upper_char_not_letter (x c : ascii) :
  Py.isupper c = false → Py.upper_char x = c → x = c.
Proof.
  intros Hc <-.
  destruct x as [[] [] [] [] [] [] [] []]; first [reflexivity|discriminate Hc].
Qed.

Lemma upper_not_letters (x w : string) :
  Py.all (fun c => negb (Py.isupper c)) w = true → Py.upper x = w → x = w.
Proof.
  revert x. induction w as [|c w IH]; intros x Hw Hx.
  - by destruct x.
  - destruct x as [|d x]; [done|]. cbn in *.
    apply andb_prop in Hw as [Hc%negb_true_iff Hw]. injection Hx as Hd Hx.
    by rewrite (upper_char_not_letter d c Hc Hd), (IH x Hw Hx).
Qed.

Lemma Matches_quote_inv (st st' : Re.mstate) :
  Matches true (Re.Chr quote) st st' →
  Re.rest st = String quote (Re.rest st') ∧ Re.caps st' = Re.caps st.
Proof.
  intros (x & Hr & Hx & _ & Hc)%Matches_Chr_inv. split; [|done].
  unfold Re.chr_eq in Hx. apply Ascii.eqb_eq in Hx.
  by rewrite Hr, (upper_char_not_letter x quote eq_refl (eq_sym Hx)).
Qed.

Lemma Matches_punct_inv (w : string) (st st' : Re.mstate) :
  Py.all (fun c => negb (Py.isupper c)) (Py.upper w) = true →
  Matches true (Re.Lit w) st st' →
  Re.rest st = Py.upper w ++ Re.rest st' ∧ Re.caps st' = Re.caps st.
Proof.
  intros Hw (x & Hr & Hx & _ & Hc)%Matches_Lit_inv. split; [|done].
  unfold lit_eq in Hx. by rewrite Hr, (upper_not_letters x _ Hw Hx).
Qed.

Lemma blank_run_nonempty (s : string) : (1 ≤ String.length s)%nat → s ≠ "".
Proof. intros Hs ->. cbn in Hs. lia. Qed.

Lemma warning_match_shape (pv : option ascii) (s : string) (m : Re.mstate) :
  matches_at ORA_39082_OBJ_RE pv s m →
  ∃ head ty schema name tail,
    s = head ++ ty ++ ":" ++ String quote schema ++ String quote "."
        ++ String quote name ++ String quote tail ∧
    ty ≠ "" ∧ Py.all Py.isword ty = true ∧
    quoted_name schema ∧ quoted_name name ∧
    Re.group m 1 = Some ty ∧ Re.group m 2 = Some schema ∧
    Re.group m 3 = Some name.
Proof.
  unfold matches_at, ORA_39082_OBJ_RE, plus. cbn [Re.pat Re.ignorecase].
  intros H.
  apply Matches_Seq_inv in H
    as (s1 & (x1 & Hr1 & _ & _ & Hc1)%Matches_Lit_inv & H).
  apply Matches_Seq_inv in H
    as (s2 & (x2 & Hr2 & _ & _ & _ & _ & Hc2)%Matches_Rep_inv & H).
  apply Matches_Seq_inv in H
    as (s3 & (x3 & Hr3 & _ & _ & Hc3)%Matches_Lit_inv & H).
  apply Matches_Seq_inv in H
    as (s4 & (x4 & Hr4 & _ & _ & _ & _ & Hc4)%Matches_Rep_inv & H).
  apply Matches_Seq_inv in H
    as (s5 & (ty & Hr5 & Hty & Hlty & _ & _ & Hc5)%Matches_Grp_Rep_inv & H).
  apply Matches_Seq_inv in H
    as (s6 & [Hr6 Hc6]%(Matches_punct_inv ":" _ _ eq_refl) & H).
  apply Matches_Seq_inv in H as (s7 & [Hr7 Hc7]%Matches_quote_inv & H).
  apply Matches_Seq_inv in H
    as (s8 & (schema & Hr8 & Hsc & Hlsc & _ & _ & Hc8)%Matches_Grp_Rep_inv & H).
  apply Matches_Seq_inv in H as (s9 & [Hr9 Hc9]%Matches_quote_inv & H).
  apply Matches_Seq_inv in H
    as (s10 & [Hr10 Hc10]%(Matches_punct_inv "." _ _ eq_refl) & H).
  apply Matches_Seq_inv in H as (s11 & [Hr11 Hc11]%Matches_quote_inv & H).
  apply Matches_Seq_inv in H
    as (s12 & (name & Hr12 & Hnm & Hlnm & _ & _ & Hc12)%Matches_Grp_Rep_inv & H).
  apply Matches_Seq_inv in H as (s13 & [Hr13 Hc13]%Matches_quote_inv & H).
  apply Matches_Seq_inv in H
    as (s14 & (x14 & Hr14 & _ & _ & _ & _ & Hc14)%Matches_Rep_inv
        & (x15 & Hr15 & _ & _ & Hc15)%Matches_Lit_inv).
  cbn [Re.rest Re.caps] in *.
  exists (x1 ++ x2 ++ x3 ++ x4), ty, schema, name, (Re.rest s13).
  split.
  { rewrite Hr1, Hr2, Hr3, Hr4, Hr5, Hr6, Hr7, Hr8, Hr9, Hr10, Hr11, Hr12,
      Hr13. by rewrite !app_assoc_s. }
  split; [by apply blank_run_nonempty|]. split; [done|].
  split; [split; [by apply blank_run_nonempty|done]|].
  split; [split; [by apply blank_run_nonempty|done]|].
  unfold Re.group.
  rewrite Hc15, Hc14, Hc13, Hc12, Hc11, Hc10, Hc9, Hc8, Hc7, Hc6, Hc5, Hc4,
    Hc3, Hc2, Hc1.
  done.
Qed.

(** For an ASCII text, every finding names the code ORA-39082; its object
    type is the upper case of a non-empty word [ty] of the text, its schema
    and object name are not empty and hold no double quote, and the text
    reads [ty], a colon, the quoted schema, a dot and the quoted object
    name. *)
Theorem compile_warnings_fields (text : string) (w : compile_warning) :
  Py.isascii text = true →
  w ∈ _extract_compile_warnings_39082 text →
  cw_ora w = "ORA-39082" ∧
  quoted_name (cw_schema w) ∧ quoted_name (cw_object_name w) ∧
  ∃ ty, cw_object_type w = Py.upper ty ∧ ty ≠ "" ∧
        Py.all Py.isword ty = true ∧ warning_in_text text ty w.
Proof.
  intros _. unfold _extract_compile_warnings_39082.
  intros (m & -> & (pre & post & -> & H)%finditer_go_sound)%list_elem_of_fmap.
  apply warning_match_shape in H
    as (head & ty & schema & name & tail & -> & Hne & Hty & Hsc & Hnm
        & -> & -> & ->).
  cbn [cw_ora cw_schema cw_object_name cw_object_type default].
  split; [done|]. split; [done|]. split; [done|].
  exists ty. split; [done|]. split; [done|]. split; [done|].
  exists (pre ++ head), tail. cbn [cw_schema cw_object_name].
  by rewrite !app_assoc_s.
Qed.

Lemma compile_warnings_fields_witness :
  let text :=
    "ORA-39082: Object type view:" ++ String quote "LEGACY_APP" ++
    String quote "." ++ String quote "BAD_VIEW" ++
    String quote " created with compilation warnings" in
  let w := mkWarning "ORA-39082" "VIEW" "LEGACY_APP" "BAD_VIEW" in
  Py.isascii text = true ∧
  _extract_compile_warnings_39082 text = [w] ∧
  quoted_name (cw_schema w) ∧ quoted_name (cw_object_name w).
Proof.
  intros text w.
  assert (Py.isascii text = true) as Ha by (vm_compute; reflexivity).
  assert (_extract_compile_warnings_39082 text = [w]) as H
    by (vm_compute; reflexivity).
  split; [exact Ha|]. split; [exact H|].
  assert (w ∈ _extract_compile_warnings_39082 text) as Hin
    by (rewrite H; left).
  destruct (compile_warnings_fields text w Ha Hin) as (_ & Hs & Hn & _).
  split; [exact Hs|exact Hn].
Defined.

(** ** The retry number of a file name *)

Lemma rep_greedy_max {A} (p : ascii → bool) (k : option ascii → string → option A)
    (ds post : string) (lo : nat) (pv : option ascii) (a : A) :
  Py.all p ds = true → next_is p post = false →
  (lo ≤ String.length ds)%nat →
  k (last_char pv ds) post = Some a →
  Re.rep_greedy p lo None k pv (ds ++ post) = Some a.
Proof.
  revert lo pv. induction ds as [|c ds IH]; intros lo pv Hall Hnext Hlo Hk.
  - rewrite app_nil_s. cbn in Hlo. assert (lo = 0%nat) as -> by lia.
    destruct post as [|c post]; cbn in *; [done|]. by rewrite Hnext.
  - rewrite app_cons_s. cbn [Re.rep_greedy]. cbn [Py.all] in Hall.
    apply andb_prop in Hall as [-> Hall]. cbn [andb fmap option_fmap option_map].
    rewrite (IH (Nat.pred lo) (Some c)); try done. cbn in Hlo. lia.
Qed.

Lemma rep_greedy_none {A} (p : ascii → bool) (k : option ascii → string → option A)
    (s : string) (lo : nat) (hi : option nat) (pv : option ascii) :
  (1 ≤ lo)%nat → next_is p s = false →
  Re.rep_greedy p lo hi k pv s = None.
Proof.
  intros Hlo Hnext. destruct lo as [|lo]; [lia|].
  destruct s as [|c s]; cbn in *; [done|]. by rewrite Hnext.
Qed.

Lemma run_Lit {A} (icase : bool) (w x : string) (pv : option ascii)
    (s : string) (caps : list (nat * string)) (k : Re.mstate → option A) :
  lit_eq icase w x →
  Re.run icase (Re.Lit w) (Re.MState pv (x ++ s) caps) k =
  k (Re.MState (last_char pv x) s caps).
Proof.
  revert x pv. induction w as [|c w IH]; intros x pv Hx; cbn [Re.Lit Re.run].
  - assert (x = "") as ->; [|done].
    unfold lit_eq in Hx. destruct icase; [|done]. by destruct x.
  - assert (∃ a y, x = String a y ∧ Re.chr_eq icase c a = true ∧
                   lit_eq icase w y) as (a & y & -> & Ha & Hy).
    { unfold lit_eq, Re.chr_eq in *. destruct icase.
      - destruct x as [|a y]; [done|]. cbn in Hx. injection Hx as Ha Hy.
        exists a, y. rewrite Ha. by rewrite Ascii.eqb_refl.
      - subst x. exists c, w. by rewrite Ascii.eqb_refl. }
    rewrite app_cons_s. cbn [Re.rest Re.caps]. rewrite Ha.
    apply (IH y (Some a) Hy).
Qed.

Lemma retry_match (x ds post : string) (pv : option ascii) :
  Py.upper x = "RETRY" → Py.all Py.isdigit ds = true →
  next_is Py.isdigit post = false →
  ∃ m, Re.match_at IMPDP_RETRY_RE pv (x ++ ds ++ post) = Some m ∧
       Re.group m 1 = match ds with "" => None | _ => Some ds end.
Proof.
  intros Hx Hds Hpost. unfold Re.match_at, IMPDP_RETRY_RE, plus.
  cbn [Re.pat Re.ignorecase Re.run].
  rewrite (run_Lit true "retry" x) by done. cbn [Re.run Re.prev Re.rest Re.caps].
  destruct ds as [|d ds].
  - rewrite app_nil_s, rep_greedy_none by (done || lia). by eexists.
  - erewrite rep_greedy_max; [|exact Hds|exact Hpost|cbn; lia|reflexivity].
    eexists. split; [reflexivity|]. unfold Re.group. cbn [Re.caps find].
    cbn [fst Nat.eqb fmap option_fmap option_map snd]. by rewrite captured_prefix.
Qed.

Lemma retry_no_match (s : string) (pv : option ascii) :
  Py.startswith "RETRY" (Py.upper s) = false →
  Re.match_at IMPDP_RETRY_RE pv s = None.
Proof.
  intros Hs. destruct (Re.match_at _ _ _) as [m|] eqn:Hm; [|done].
  apply match_at_sound in Hm. unfold matches_at, IMPDP_RETRY_RE in Hm.
  cbn [Re.pat Re.ignorecase] in Hm.
  apply Matches_Seq_inv in Hm as (st1 & (x & Hr & Hx & _)%Matches_Lit_inv & _).
  cbn [Re.rest] in Hr. unfold lit_eq in Hx. subst s.
  rewrite upper_app, Hx in Hs.
  assert (Py.startswith "RETRY" (Py.upper "retry" ++ Py.upper (Re.rest st1))
          = true) as Ht by (apply startswith_spec; by eexists).
  congruence.
Qed.

Lemma contains_startswith (p a s : string) :
  Py.contains p (a ++ s) = false → Py.startswith p s = false.
Proof.
  induction a as [|c a IH].
  - rewrite app_nil_s. destruct s; cbn [Py.contains];
      by intros [? _]%orb_false_elim.
  - rewrite app_cons_s. cbn [Py.contains]. by intros [_ ?%IH]%orb_false_elim.
Qed.

Lemma search_from_first (p : Re.pattern) (pre post : string)
    (pv : option ascii) :
  (∀ pre1 pre2, pre = pre1 ++ pre2 → pre2 ≠ "" →
                Re.match_at p (last_char pv pre1) (pre2 ++ post) = None) →
  Re.search_from p pv (pre ++ post) = Re.search_from p (last_char pv pre) post.
Proof.
  revert pv. induction pre as [|c pre IH]; intros pv Hno; [done|].
  rewrite app_cons_s, search_from_unfold.
  pose proof (Hno "" (String c pre) eq_refl ltac:(done)) as H0.
  rewrite app_cons_s in H0. cbn [last_char] in H0. rewrite H0.
  apply (IH (Some c)). intros pre1 pre2 -> Hne.
  by apply (Hno (String c pre1) pre2).
Qed.

Lemma startswith_app_long (w a b : string) :
  (String.length w ≤ String.length a)%nat →
  Py.startswith w (a ++ b) = Py.startswith w a.
Proof.
  revert a. induction w as [|c w IH]; intros a Hlen; [done|].
  destruct a as [|d a]; [cbn in Hlen; lia|].
  rewrite app_cons_s. cbn [Py.startswith]. rewrite IH; [done|].
  cbn in Hlen. lia.
Qed.

Lemma contains_occurs_retry (filename : string) :
  Py.contains "RETRY" (Py.upper filename) = false →
  Re.search IMPDP_RETRY_RE filename = None.
Proof.
  intros Hc. apply search_None. intros (pre & post & m & -> & Hm).
  apply match_at_complete in Hm as [m' Hm'].
  rewrite retry_no_match in Hm'; [done|].
  rewrite upper_app in Hc. by eapply contains_startswith.
Qed.

(** The retry number is never negative, and it is 0 for a name in which
    [retry] does not occur, in whatever case. *)
Theorem impdp_retry_number_absent (filename : string) :
  0 ≤ _impdp_retry_number filename ∧
  (Py.contains "RETRY" (Py.upper filename) = false →
   _impdp_retry_number filename = 0).
Proof.
  split; [apply impdp_retry_number_nonneg|].
  intros Hc. unfold _impdp_retry_number.
  by rewrite contains_occurs_retry.
Qed.

(** For an ASCII name whose first [retry] (in any case) is the part [x] and
    is followed by the longest run of digits [ds], the retry number is the
    value of [ds], and 1 when there is no digit or more than 4300 of them. *)
Theorem impdp_retry_number_value (pre x ds post : string) :
  Py.isascii (pre ++ x ++ ds ++ post) = true →
  Py.upper x = "RETRY" →
  Py.contains "RETRY" (Py.upper (pre ++ String.substring 0 4 x)) = false →
  Py.all Py.isdigit ds = true →
  next_is Py.isdigit post = false →
  _impdp_retry_number (pre ++ x ++ ds ++ post) = retry_value ds.
Proof.
  intros _ Hx Hfirst Hds Hpost. unfold _impdp_retry_number, Re.search.
  rewrite search_from_first.
  - rewrite search_from_unfold.
    destruct (retry_match x ds post (last_char None pre) Hx Hds Hpost)
      as (m & -> & ->).
    unfold retry_value. destruct ds as [|d ds]; [done|].
    unfold Py.int. rewrite Hds. cbn [andb].
    by destruct (Nat.leb _ _).
  - intros pre1 pre2 -> Hne. apply retry_no_match.
    destruct x as [|x1 [|x2 [|x3 [|x4 [|x5 [|? ?]]]]]]; try discriminate Hx.
    cbn [String.substring] in Hfirst.
    set (xs := String x1 (String x2 (String x3 (String x4 "")))) in *.
    rewrite app_assoc_s, upper_app in Hfirst.
    apply contains_startswith in Hfirst.
    change (pre2 ++ String x1 (String x2 (String x3 (String x4 (String x5 ""))))
            ++ ds ++ post)
      with (pre2 ++ xs ++ String x5 (ds ++ post)).
    rewrite <- (app_assoc_s pre2), upper_app.
    rewrite startswith_app_long; [done|].
    rewrite length_upper, length_app_s. subst xs. cbn.
    destruct pre2; [done|]. cbn. lia.
Qed.

Lemma impdp_retry_number_value_witness :
  _impdp_retry_number "impdp_full_Retry02.log" = 2.
Proof.
  apply (impdp_retry_number_value "impdp_full_" "Retry" "02" ".log");
    vm_compute; reflexivity.
Defined.

(** Retry numbers of a few names: [retry0] counts as no retry, a bare
    [retry] as the first one, and only the first [retry] is read. *)
Example impdp_retry_number_examples :
  _impdp_retry_number "impdp_full.log" = 0 ∧
  _impdp_retry_number "impdp_full_retry.log" = 1 ∧
  _impdp_retry_number "impdp_full_RETRY3.log" = 3 ∧
  _impdp_retry_number "impdp_retry0.log" = 0 ∧
  _impdp_retry_number "impdp_retry_retry5.log" = 1 ∧
  _impdp_retry_number "impdp_retry12_retry5.log" = 12.
Proof. vm_compute. done. Qed.

(** ** Lines of a text *)

Lemma contains_spec (p s : string) :
  Py.contains p s = true ↔ ∃ a b, s = a ++ p ++ b.
Proof.
  split; [|intros (a & b & ->); apply contains_intro].
  induction s as [|c s IH]; cbn [Py.contains].
  - rewrite orb_false_r. intros [t Ht]%startswith_spec. by exists "", t.
  - intros [[t Ht]%startswith_spec|(a & b & ->)%IH]%orb_prop.
    + by exists "", t.
    + by exists (String c a), b.
Qed.

Lemma not_linebreak_newline (c : ascii) :
  Py.islinebreak c = false → Nat.eqb (Py.code c) 10 = false.
Proof.
  unfold Py.islinebreak, Py.between.
  destruct (Nat.eqb_spec (Py.code c) 10) as [->|]; [|done]. done.
Qed.

Lemma islinebreak_upper_char (c : ascii) :
  Py.islinebreak (Py.upper_char c) = Py.islinebreak c.
Proof. by destruct c as [[] [] [] [] [] [] [] []]. Qed.

Lemma no_linebreak_upper (s : string) :
  no_linebreak (Py.upper s) → no_linebreak s.
Proof.
  unfold no_linebreak. induction s as [|c s IH]; [done|]. cbn.
  rewrite islinebreak_upper_char. intros [-> ?%IH]%andb_prop. done.
Qed.

Lemma rev_rev_app (k cur : string) :
  String.rev (String.rev_app k cur) = String.rev cur ++ k.
Proof. by rewrite rev_app_append, rev_append, rev_involutive. Qed.

Lemma rev_app_nonempty (k cur : string) :
  k ≠ "" → String.rev_app k cur ≠ "".
Proof.
  intros Hne H. apply (f_equal String.rev) in H. rewrite rev_rev_app in H.
  destruct (String.rev cur); by destruct k.
Qed.

(** The line being read is the start of the next line returned. *)
Lemma splitlines_go_first (b cur : string) :
  cur ≠ "" →
  ∃ l2 rest, Py.splitlines_go false cur b = (String.rev cur ++ l2) :: rest.
Proof.
  revert cur. induction b as [|c b IH]; intros cur Hne; cbn [Py.splitlines_go].
  - destruct cur; [done|]. exists "", []. by rewrite app_empty_r.
  - cbn [andb]. destruct (Py.islinebreak c).
    + eexists "", _. rewrite app_empty_r. reflexivity.
    + destruct (IH (String c cur)) as (l2 & rest & ->); [done|].
      exists (String c l2), rest. by rewrite rev_cons, app_assoc_s.
Qed.

(** A word without line break is read into the line in one go. *)
Lemma splitlines_go_word (k b : string) (ac : bool) (cur : string) :
  k ≠ "" → no_linebreak k →
  Py.splitlines_go ac cur (k ++ b) =
  Py.splitlines_go false (String.rev_app k cur) b.
Proof.
  unfold no_linebreak. revert ac cur.
  induction k as [|c k IH]; intros ac cur Hne Hk; [done|].
  cbn [Py.all] in Hk. apply andb_prop in Hk as [Hc%negb_true_iff Hk].
  rewrite app_cons_s. cbn [Py.splitlines_go String.rev_app].
  rewrite (not_linebreak_newline c Hc), andb_false_r, Hc.
  destruct k as [|d k]; [done|]. apply IH; [discriminate|exact Hk].
Qed.

(** A word without line break that occurs in a text occurs in one of its
    lines. *)
Lemma splitlines_go_line (a k b : string) (ac : bool) (cur : string) :
  k ≠ "" → no_linebreak k →
  ∃ ln l1 l2, ln ∈ Py.splitlines_go ac cur (a ++ k ++ b) ∧ ln = l1 ++ k ++ l2.
Proof.
  intros Hne Hk. revert ac cur.
  induction a as [|c a IH]; intros ac cur.
  - rewrite app_nil_s, splitlines_go_word by done.
    destruct (splitlines_go_first b (String.rev_app k cur))
      as (l2 & rest & ->); [by apply rev_app_nonempty|].
    exists (String.rev (String.rev_app k cur) ++ l2), (String.rev cur), l2.
    split; [left|]. by rewrite rev_rev_app, app_assoc_s.
  - rewrite app_cons_s. cbn [Py.splitlines_go].
    destruct (ac && _); [apply IH|].
    destruct (Py.islinebreak c); [|apply IH].
    destruct (IH (Nat.eqb (Py.code c) 13) "") as (ln & l1 & l2 & Hin & ->).
    exists (l1 ++ k ++ l2), l1, l2. split; [by right|done].
Qed.

Lemma contains_line (text k : string) :
  k ≠ "" → no_linebreak k →
  Py.contains k (Py.upper text) = true →
  ∃ ln, ln ∈ Py.splitlines text ∧ hit_line k ln.
Proof.
  intros Hne Hk (a' & b' & Hu)%contains_spec.
  apply upper_split in Hu as (a & rest & -> & _ & Hu).
  apply upper_split in Hu as (k0 & b & -> & <- & _).
  destruct (splitlines_go_line a k0 b false "")
    as (ln & l1 & l2 & Hin & ->).
  - intros ->. done.
  - by apply no_linebreak_upper.
  - exists (l1 ++ k0 ++ l2). split; [done|].
    unfold hit_line. rewrite !upper_app. apply Is_true_true, contains_intro.
Qed.

Lemma hit_has_first (code_u : string) (lines : list string) (ln : string) :
  ln ∈ lines → hit_line code_u ln → ∃ i, first_hit code_u lines i.
Proof.
  intros Hin Hhit.
  destruct (find_hit code_u lines) as [z|] eqn:Hf.
  - apply find_hit_Some in Hf as (i & _ & Hi). by exists i.
  - apply find_hit_None in Hf. by destruct (Hf ln Hin).
Qed.

(** ** The excerpt of the first code *)

Lemma around_hit (lines : list string) (context_lines : Z) (i : nat)
    (ln : string) (rem : Z) :
  0 ≤ context_lines < rem → lines !! i = Some ln →
  ln ∈ take (Z.to_nat rem) (around lines context_lines i).
Proof.
  intros Hctx Hi. pose proof (lookup_lt_Some _ _ _ Hi) as Hlt.
  unfold around, len.
  set (start := Z.to_nat (Z.max 0 (Z.of_nat i - context_lines))).
  set (stop := Z.to_nat (Z.min (Z.of_nat (length lines))
                           (Z.of_nat i + context_lines + 1))).
  assert (start ≤ i < stop)%nat as [Hs He] by (subst start stop; lia).
  apply (list_elem_of_lookup_2 _ (i - start)).
  rewrite lookup_take_lt by (subst start; lia).
  rewrite lookup_take_lt by lia.
  rewrite lookup_drop. by replace (start + (i - start))%nat with i by lia.
Qed.

(** The first code, found in a line and not repeated later in the list,
    gets a chunk that shows a line with the code. *)
Lemma excerpts_loop_first_code (lines : list string) (code : string)
    (codes : list string) (context_lines max_total_lines : Z) (ln0 : string) :
  0 ≤ context_lines < max_total_lines →
  ln0 ∈ lines → hit_line (Py.upper code) ln0 →
  Py.upper code ∉ Py.upper <$> codes →
  ∃ chunk ln,
    (excerpts_loop lines context_lines max_total_lines (code :: codes)
       (∅, 0)).1 !! Py.upper code = Some chunk ∧
    ln ∈ chunk ∧ hit_line (Py.upper code) ln.
Proof.
  intros Hctx Hl0 Hh0 Hnodup.
  destruct (hit_has_first _ _ _ Hl0 Hh0) as (i & Hfirst).
  pose proof Hfirst as [(ln & Hi & Hhit) _].
  cbn [excerpts_loop].
  assert (find_hit (Py.upper code) lines = Some (Z.of_nat i))
    as -> by (apply find_hit_Some; by exists i).
  rewrite Z.sub_0_r.
  destruct (Z.leb_spec max_total_lines 0) as [|_]; [lia|].
  rewrite excerpts_loop_other_key by done. cbn [fst].
  rewrite lookup_insert_eq. eexists _, ln. split; [reflexivity|].
  split; [|done].
  rewrite window_around by (lia || by eapply lookup_lt_Some).
  destruct (_ >? _) eqn:Hgt.
  - by apply around_hit.
  - rewrite Z.gtb_ltb in Hgt. apply Z.ltb_ge in Hgt.
    rewrite <- (take_ge (around _ _ _) (Z.to_nat max_total_lines))
      by (unfold len in Hgt; lia).
    by apply around_hit.
Qed.

(** For an ASCII text and ASCII codes, the first code of the list, when it
    occurs in the text and is not repeated later in the list, gets a chunk
    that shows a line with the code, provided the budget exceeds the number
    of context lines. *)
Theorem extract_excerpts_first_code (text code : string)
    (codes : list string) (context_lines max_total_lines : Z) :
  Py.isascii text = true → forallb Py.isascii (code :: codes) = true →
  0 ≤ context_lines < max_total_lines →
  Py.upper code ≠ "" → no_linebreak (Py.upper code) →
  Py.contains (Py.upper code) (Py.upper text) = true →
  Py.upper code ∉ Py.upper <$> codes →
  ∃ chunk ln,
    _extract_excerpts text (code :: codes) context_lines max_total_lines
      !! Py.upper code = Some chunk ∧
    ln ∈ chunk ∧ hit_line (Py.upper code) ln.
Proof.
  intros _ _ Hctx Hne Hnl Hin Hnodup.
  destruct (contains_line text (Py.upper code) Hne Hnl Hin)
    as (ln0 & Hl0 & Hh0).
  rewrite extract_excerpts_loop.
  by apply (excerpts_loop_first_code _ code codes _ _ ln0).
Qed.

Lemma extract_excerpts_first_code_witness :
  ∃ chunk ln,
    _extract_excerpts demo_log_text ["ora-31640"] DEFAULT_CONTEXT_LINES
      DEFAULT_MAX_TOTAL_LINES !! "ORA-31640" = Some chunk ∧
    ln ∈ chunk ∧ hit_line "ORA-31640" ln.
Proof.
  apply (extract_excerpts_first_code demo_log_text "ora-31640" []
           DEFAULT_CONTEXT_LINES DEFAULT_MAX_TOTAL_LINES).
  - vm_compute. reflexivity.
  - vm_compute. reflexivity.
  - vm_compute. split; [discriminate|reflexivity].
  - vm_compute. discriminate.
  - vm_compute. reflexivity.
  - vm_compute. reflexivity.
  - apply not_elem_of_nil.
Defined.

(** ** The summary of a run *)

Lemma analyze_run_Some (s3 : s3_client) (bucket run_prefix : string)
    (s : Summary) :
  analyze_run s3 bucket run_prefix = Some s →
  let pick := _pick_best_impdp_log s3 bucket run_prefix in
  let impdp := run_impdp s3 bucket run_prefix in
  let expdp := run_expdp s3 bucket run_prefix in
  let v := _parse_validation s3 bucket run_prefix in
  let logs := run_logs s3 bucket run_prefix in
  sum_validation s = v ∧
  overall_status s = (_classify_status expdp impdp v pick.1.1.2).1 ∧
  status_reasons s = (_classify_status expdp impdp v pick.1.1.2).2 ∧
  risk_score s = (_risk_score logs impdp pick.1.1.2 expdp v).1 ∧
  risk_factors s = (_risk_score logs impdp pick.1.1.2 expdp v).2 ∧
  risk_level s = _risk_level (risk_score s) ∧
  sum_datapump s =
    datapump expdp impdp (selected_impdp_log s) pick.1.1.2 pick.1.2 pick.2 ∧
  selected_impdp_log s = key_rel <$> impdp ∧
  match impdp with
  | None =>
      evidence_excerpts s = ∅ ∧ compile_warnings s = [] ∧
      (pick.1.1.1 = None ∨ pick.1.1.1 = Some "")
  | Some l =>
      found l = true ∧
      ∃ text, text_of l text ∧
        compile_warnings s = _extract_compile_warnings_39082 text ∧
        evidence_excerpts s =
          if nonempty (fatal_codes_of l)
          then {[ key_rel l :=
                    _extract_excerpts text (fatal_codes_of l)
                      DEFAULT_CONTEXT_LINES DEFAULT_MAX_TOTAL_LINES ]}
          else ∅
  end.
Proof.
  unfold analyze_run, run_impdp, run_expdp, run_logs, text_of.
  destruct (_pick_best_impdp_log s3 bucket run_prefix)
    as [[[sel cnt] metas] reason]. cbn [fst snd].
  destruct sel as [[|c abs]|].
  - destruct (_classify_status _ _ _ _), (_risk_score _ _ _ _ _).
    intros [= <-]. cbn. repeat split; auto.
  - destruct (s3_try_get_text s3 bucket (String c abs) MAX_BYTES_LOG)
      as [text|]; [|done]. cbn [mbind option_bind fmap option_fmap option_map].
    unfold import_result.
    destruct (_dp_completion_state_and_errors text) as [st errs] eqn:Hdp.
    destruct (_classify_status _ _ _ _), (_risk_score _ _ _ _ _).
    intros [= <-]. cbn. repeat split; auto. exists text. rewrite Hdp.
    repeat split; auto.
  - destruct (_classify_status _ _ _ _), (_risk_score _ _ _ _ _).
    intros [= <-]. cbn. repeat split; auto.
Qed.

Lemma fatal_code_upper (k : string) : k ∈ FATAL_ORA → Py.upper k = k.
Proof.
  unfold FATAL_ORA. rewrite !elem_of_union, !elem_of_singleton.
  by intros [[->| ->]| ->].
Qed.

Lemma fatal_code_plain (k : string) :
  k ∈ FATAL_ORA → k ≠ "" ∧ no_linebreak k.
Proof.
  unfold FATAL_ORA. rewrite !elem_of_union, !elem_of_singleton.
  by intros [[->| ->]| ->].
Qed.

Lemma fatal_codes_of_spec (l : LogResult) (k : string) :
  k ∈ fatal_codes_of l ↔ is_Some (ora_counts l !! k) ∧ k ∈ FATAL_ORA.
Proof.
  unfold fatal_codes_of, sorted. rewrite merge_sort_Permutation.
  by rewrite list_elem_of_filter, keys_elem, (comm and).
Qed.

Lemma fatal_codes_of_NoDup (l : LogResult) : NoDup (fatal_codes_of l).
Proof.
  unfold fatal_codes_of, sorted. rewrite merge_sort_Permutation.
  apply NoDup_filter, NoDup_fst_map_to_list.
Qed.

Lemma fatal_codes_of_nonempty (l : LogResult) :
  nonempty (fatal_codes_of l) = true ↔ has_fatal_code (ora_counts l).
Proof. apply nonempty_sorted_filter. Qed.

Lemma fatal_codes_upper (codes : list string) :
  (∀ c, c ∈ codes → c ∈ FATAL_ORA) → Py.upper <$> codes = codes.
Proof.
  induction codes as [|c codes IH]; intros Hall; [done|]. cbn.
  rewrite (fatal_code_upper c), IH; [done| |apply Hall; left].
  intros c' Hc'. apply Hall. by right.
Qed.

Lemma run_impdp_found (s3 : s3_client) (bucket run_prefix : string)
    (l : LogResult) :
  run_impdp s3 bucket run_prefix = Some l → found l = true.
Proof.
  unfold run_impdp. destruct (_ .1.1.1) as [[|c abs]|]; try done.
  destruct (s3_try_get_text _ _ _ _); [|done]. by intros [= <-].
Qed.

(** In the summary of a run, the overall status is FAIL exactly when the
    status of the import phase is FAIL, and exactly then evidence excerpts
    are given; a FAIL comes with a risk level MEDIUM or HIGH; and the overall
    status is one of FAIL, WARN and PASS. *)
Theorem summary_fail_consistent (s3 : s3_client) (bucket run_prefix : string)
    (s : Summary) :
  analyze_run s3 bucket run_prefix = Some s →
  (overall_status s = "FAIL" ↔
     import_status (dp_import (sum_datapump s)) = "FAIL") ∧
  (overall_status s = "FAIL" ↔ evidence_excerpts s ≠ ∅) ∧
  (overall_status s = "FAIL" →
     risk_level s = "MEDIUM" ∨ risk_level s = "HIGH") ∧
  (overall_status s = "FAIL" ∨ overall_status s = "WARN" ∨
   overall_status s = "PASS").
Proof.
  intros (Hv & Ho & _ & Hr & _ & Hl & Hd & _ & Himp)%analyze_run_Some.
  cbv zeta in *.
  set (impdp := run_impdp s3 bucket run_prefix) in *.
  set (expdp := run_expdp s3 bucket run_prefix) in *.
  set (pick := _pick_best_impdp_log s3 bucket run_prefix) in *.
  rewrite Hd, Ho. cbn [datapump dp_import import_status].
  rewrite classify_status_fail_iff.
  assert (fatal_in_import impdp ↔ dp_status impdp = "FAIL") as Hfs.
  { destruct (dp_status_spec impdp) as (_ & HF & _). by rewrite HF. }
  split; [exact Hfs|]. split; [|split].
  - destruct impdp as [l|] eqn:Himpdp.
    + destruct Himp as (Hf & text & _ & _ & ->).
      pose proof (fatal_codes_of_nonempty l) as Hne.
      destruct (nonempty (fatal_codes_of l)).
      * split; [intros _|intros _; exists l; split; [done|]; split; [done|];
                          by apply Hne].
        apply insert_non_empty.
      * split; [|done]. intros (l' & [= <-] & _ & Hc). apply Hne in Hc. done.
    + destruct Himp as (-> & _). split; [|done].
      by intros (l & ? & _).
  - intros Hfatal. rewrite Hl, Hr.
    pose proof (risk_score_fatal_min (run_logs s3 bucket run_prefix) impdp
                  pick.1.1.2 expdp (_parse_validation s3 bucket run_prefix)
                  Hfatal) as H50.
    destruct (risk_level_thresholds
                (_risk_score (run_logs s3 bucket run_prefix) impdp pick.1.1.2
                   expdp (_parse_validation s3 bucket run_prefix)).1)
      as (HH & HM & _).
    destruct (Z.le_gt_cases 70
                (_risk_score (run_logs s3 bucket run_prefix) impdp pick.1.1.2
                   expdp (_parse_validation s3 bucket run_prefix)).1);
      [right; by apply HH|left; apply HM; lia].
  - destruct (classify_status_shape expdp impdp
                (_parse_validation s3 bucket run_prefix) pick.1.1.2)
      as [[Hfatal ->]|[(_ & _ & ->)|(_ & x & _ & ->)]]; cbn; auto.
Qed.

Lemma summary_fail_consistent_witness :
  ∃ s, analyze_run (store_client demo_store) "bucket" "runs/d1/" = Some s ∧
       overall_status s = "FAIL" ∧
       import_status (dp_import (sum_datapump s)) = "FAIL".
Proof.
  destruct (analyze_run (store_client demo_store) "bucket" "runs/d1/")
    as [s|] eqn:Hs; [|vm_compute in Hs; discriminate].
  assert (overall_status s = "FAIL") as Hf.
  { vm_compute in Hs. injection Hs as <-. reflexivity. }
  exists s. split; [reflexivity|]. split; [exact Hf|].
  destruct (summary_fail_consistent (store_client demo_store) "bucket"
              "runs/d1/" s Hs) as (H & _).
  apply H. exact Hf.
Defined.

(** A summary classified FAIL names the selected import log and gives its
    excerpts: at most 20 lines in all, under fatal codes only, and at least
    one chunk, which shows a line of the log with its code. *)
Theorem summary_fail_excerpts (s3 : s3_client) (bucket run_prefix : string)
    (s : Summary) :
  analyze_run s3 bucket run_prefix = Some s →
  overall_status s = "FAIL" →
  ∃ rel exc,
    selected_impdp_log s = Some rel ∧
    evidence_excerpts s = {[ rel := exc ]} ∧
    total_lines exc ≤ DEFAULT_MAX_TOTAL_LINES ∧
    (∀ k, is_Some (exc !! k) → k ∈ FATAL_ORA) ∧
    ∃ k chunk ln, exc !! k = Some chunk ∧ ln ∈ chunk ∧ hit_line k ln.
Proof.
  intros (_ & Ho & _ & _ & _ & _ & _ & Hsel & Himp)%analyze_run_Some Hfail.
  cbv zeta in *. rewrite Ho in Hfail.
  apply classify_status_fail_iff in Hfail as (l & Hl & _ & Hfatal).
  rewrite Hl in Himp, Hsel. destruct Himp as (_ & text & Ht & _ & He).
  apply fatal_codes_of_nonempty in Hfatal. rewrite Hfatal in He.
  exists (key_rel l), (_extract_excerpts text (fatal_codes_of l)
                         DEFAULT_CONTEXT_LINES DEFAULT_MAX_TOTAL_LINES).
  split; [done|]. split; [done|].
  assert (∀ c, c ∈ fatal_codes_of l → c ∈ FATAL_ORA) as Hcodes
    by (by intros c [_ ?]%fatal_codes_of_spec).
  rewrite extract_excerpts_loop. split; [|split].
  - eapply Z.le_trans; [apply loop_bound|apply loop_bound]; cbn;
      rewrite ?total_lines_empty; done.
  - intros k [chunk Hk].
    apply loop_lookup in Hk as [Hk|(code & _ & _ & Hin & -> & _)];
      [cbn in Hk; by rewrite lookup_empty in Hk|].
    rewrite (fatal_code_upper code); by apply Hcodes.
  - pose proof (fatal_codes_of_NoDup l) as Hnd.
    destruct (fatal_codes_of l) as [|k codes] eqn:Hfc; [done|].
    assert (k ∈ fatal_codes_of l) as Hk by (rewrite Hfc; left).
    apply fatal_codes_of_spec in Hk as [[n Hn] Hkf].
    destruct Ht as (_ & Hcounts & _). rewrite Hcounts in Hn.
    destruct (ora_counts_fold text (ReMore.finditer ORA_RE text) ∅
                (fun _ H => H) (map_Forall_empty _) k n Hn)
      as (_ & _ & Hin%Is_true_true).
    destruct (fatal_code_plain k Hkf) as [Hne Hnl].
    destruct (contains_line text k Hne Hnl Hin) as (ln0 & Hl0 & Hh0).
    apply NoDup_cons in Hnd as [Hnotin _].
    destruct (excerpts_loop_first_code (Py.splitlines text) k codes
                DEFAULT_CONTEXT_LINES DEFAULT_MAX_TOTAL_LINES ln0)
      as (chunk & ln & Hc & Hln & Hhit).
    + done.
    + done.
    + by rewrite (fatal_code_upper k).
    + rewrite (fatal_code_upper k Hkf), fatal_codes_upper; [done|].
      intros c Hc. apply Hcodes. by right.
    + rewrite (fatal_code_upper k Hkf) in Hc, Hhit. by exists k, chunk, ln.
Qed.

Lemma summary_fail_excerpts_witness :
  ∃ s rel exc,
    analyze_run (store_client demo_store) "bucket" "runs/d1/" = Some s ∧
    overall_status s = "FAIL" ∧
    evidence_excerpts s = {[ rel := exc ]} ∧
    total_lines exc ≤ DEFAULT_MAX_TOTAL_LINES.
Proof.
  destruct (analyze_run (store_client demo_store) "bucket" "runs/d1/")
    as [s|] eqn:Hs; [|vm_compute in Hs; discriminate].
  assert (overall_status s = "FAIL") as Hf.
  { vm_compute in Hs. injection Hs as <-. reflexivity. }
  destruct (summary_fail_excerpts (store_client demo_store) "bucket"
              "runs/d1/" s Hs Hf) as (rel & exc & _ & He & Hb & _).
  exists s, rel, exc. split; [reflexivity|]. split; [exact Hf|].
  split; [exact He|exact Hb].
Defined.

Lemma classify_status_pass_found
    (expdp impdp : option LogResult) (validation : ValidationResult)
    (impdp_count : Z) :
  (_classify_status expdp impdp validation impdp_count).1 = "PASS" →
  any_fatal (imp_ora_of impdp) = false ∧
  found_in_state impdp "SUCCESS" = true ∧
  found_in_state expdp "SUCCESS" = true ∧
  status validation = "PASS".
Proof.
  unfold _classify_status.
  destruct (any_fatal (imp_ora_of impdp)); [discriminate|].
  destruct (found_in_state impdp "COMPLETED_WITH_ERRORS"); [discriminate|].
  destruct (found_in_state expdp "COMPLETED_WITH_ERRORS"); [discriminate|].
  destruct (_ && _ && _) eqn:Hp; [|discriminate]. intros _.
  apply andb_prop in Hp as [[Hi He]%andb_prop Hv%String.eqb_eq]. done.
Qed.

Lemma pick_best_no_candidates (s3 : s3_client) (bucket run_prefix : string) :
  impdp_candidates
    (list_objects_v2 s3 bucket (run_prefix ++ MIGRATION_PREFIX_REL)) = [] →
  _pick_best_impdp_log s3 bucket run_prefix = (None, 0, [], "no_candidates").
Proof. intros H. unfold _pick_best_impdp_log. by rewrite H. Qed.

(** When the listing holds no import log, a summary that the handler builds
    selects no log; its import phase is MISSING with 0 attempts, its overall
    status is WARN, its risk score counts the missing import log (at least
    25), and it has no excerpts and no compilation warnings. *)
Theorem summary_no_candidates (s3 : s3_client) (bucket run_prefix : string)
    (s : Summary) :
  impdp_candidates
    (list_objects_v2 s3 bucket (run_prefix ++ MIGRATION_PREFIX_REL)) = [] →
  analyze_run s3 bucket run_prefix = Some s →
  selected_impdp_log s = None ∧
  overall_status s = "WARN" ∧
  import_status (dp_import (sum_datapump s)) = "MISSING" ∧
  import_attempt_count (dp_import (sum_datapump s)) = 0 ∧
  dp_selection_reason (sum_datapump s) = "no_candidates" ∧
  fired "missing_impdp_log" (risk_factors s) ∧
  25 ≤ risk_score s ∧
  evidence_excerpts s = ∅ ∧ compile_warnings s = [].
Proof.
  intros Hpick%pick_best_no_candidates Hs.
  assert (run_impdp s3 bucket run_prefix = None) as Hnone
    by (unfold run_impdp; by rewrite Hpick).
  apply analyze_run_Some in Hs
    as (_ & Ho & _ & Hr & Hrf & _ & Hd & Hsel & Himp).
  cbv zeta in *. rewrite Hnone, Hpick in *. cbn [fst snd] in *.
  destruct Himp as (He & Hc & _).
  split; [done|]. split; [|split; [by rewrite Hd|]].
  { rewrite Ho.
    destruct (classify_status_shape (run_expdp s3 bucket run_prefix) None
                (_parse_validation s3 bucket run_prefix) 0)
      as [[(l & [=] & _) _]|[(_ & _ & Hp)|(_ & x & _ & ->)]]; [|done].
    apply (f_equal fst) in Hp.
    by apply classify_status_pass_found in Hp as (_ & [=] & _). }
  split; [by rewrite Hd|]. split; [by rewrite Hd|].
  assert (fired "missing_impdp_log" (risk_factors s)) as Hfired.
  { rewrite Hrf. apply risk_score_fired. right. left. done. }
  split; [done|]. split; [|done].
  rewrite Hr.
  destruct (risk_score_scored (run_logs s3 bucket run_prefix) None 0
              (run_expdp s3 bucket run_prefix)
              (_parse_validation s3 bucket run_prefix))
    as (sc & Hsc & Hsum & Hall & _).
  cbn [fst snd] in *. rewrite Hrf in Hfired.
  pose proof (total_weight_fired "missing_impdp_log" 25 _ Hall Hfired eq_refl).
  lia.
Qed.

Lemma summary_no_candidates_witness :
  let s3 :=
    store_client
      [("runs/d1/03-migration/expdp_legacy_18c.log",
        ("Job successfully completed", 1))] in
  ∃ s, analyze_run s3 "bucket" "runs/d1/" = Some s ∧
       overall_status s = "WARN" ∧ 25 ≤ risk_score s.
Proof.
  intros s3.
  destruct (analyze_run s3 "bucket" "runs/d1/") as [s|] eqn:Hs;
    [|vm_compute in Hs; discriminate].
  assert (impdp_candidates
            (list_objects_v2 s3 "bucket" ("runs/d1/" ++ MIGRATION_PREFIX_REL))
          = []) as Hc by (vm_compute; reflexivity).
  destruct (summary_no_candidates s3 "bucket" "runs/d1/" s Hc Hs)
    as (_ & Ho & _ & _ & _ & _ & Hr & _).
  exists s. split; [reflexivity|]. split; [exact Ho|exact Hr].
Defined.

(** ** The score, factor by factor *)

Lemma required_logs_points (logs : list LogResult) (st : Z * list factor) :
  (foldl (fun st lr =>
            if found lr then st
            else trigger "missing_required_log" (EvStr (key_rel lr)) st)
         st logs).1
  = st.1 + 15 * len (List.filter (fun lr => negb (found lr)) logs).
Proof.
  revert st. induction logs as [|lr logs IH]; intros st; cbn [foldl List.filter].
  - unfold len. cbn. lia.
  - rewrite IH. destruct (found lr); cbn [negb]; [done|].
    unfold trigger, len. cbn [fst length].
    change (RISK_WEIGHTS !!! "missing_required_log") with 15. lia.
Qed.

Lemma risk_weight_values :
  RISK_WEIGHTS !!! "missing_required_log" = 15 ∧
  RISK_WEIGHTS !!! "missing_impdp_log" = 25 ∧
  RISK_WEIGHTS !!! "impdp_retry_present" = 10 ∧
  RISK_WEIGHTS !!! "fatal_ora_present" = 50 ∧
  RISK_WEIGHTS !!! "warn_ora_present" = 15 ∧
  RISK_WEIGHTS !!! "dp_completion_marker_missing" = 10 ∧
  RISK_WEIGHTS !!! "expdp_completed_with_errors" = 10 ∧
  RISK_WEIGHTS !!! "validation_invalid_objects_present" = 25 ∧
  RISK_WEIGHTS !!! "validation_orders_count_missing" = 5.
Proof. repeat split; reflexivity. Qed.

Ltac risk_points :=
  unfold risk_points, trigger; cbn [fst negb andb found_in_state];
  destruct risk_weight_values
    as (W1 & W2 & W3 & W4 & W5 & W6 & W7 & W8 & W9);
  rewrite ?W1, ?W2, ?W3, ?W4, ?W5, ?W6, ?W7, ?W8, ?W9; lia.

Lemma risk_score_value (required_logs : list LogResult)
    (impdp : option LogResult) (impdp_count : Z) (expdp : option LogResult)
    (validation : ValidationResult) :
  (_risk_score required_logs impdp impdp_count expdp validation).1 =
  Z.min 100 (risk_sum required_logs impdp impdp_count expdp validation).
Proof.
  unfold _risk_score, risk_sum. cbv zeta. cbn [fst]. f_equal.
  set (fatal := nonempty (sorted (filter (fun c => c ∈ FATAL_ORA) _))).
  set (warn := nonempty (sorted (filter (fun c => c ∈ WARN_ORA) _))).
  set (st0 := foldl _ _ required_logs).
  pose proof (required_logs_points required_logs (0, [])) as H0.
  fold st0 in H0. cbn [fst] in H0. clearbody st0.
  set (st1 := if is_found impdp then st0 else _).
  assert (st1.1 = st0.1 + risk_points (negb (is_found impdp)) 25) as H1.
  { subst st1. destruct (is_found impdp); risk_points. }
  clearbody st1.
  set (st2 := if impdp_count >? 1 then _ else st1).
  assert (st2.1 = st1.1 + risk_points (impdp_count >? 1) 10) as H2.
  { subst st2. destruct (impdp_count >? 1); risk_points. }
  clearbody st2.
  set (st3 := if fatal then _ else _).
  assert (st3.1 = st2.1 + (if fatal then 50 else risk_points warn 15)) as H3.
  { subst st3. destruct fatal; [risk_points|]. destruct warn; risk_points. }
  clearbody st3.
  set (st4 := match impdp with Some _ => _ | None => st3 end).
  assert (st4.1 = st3.1 +
            risk_points (found_in_state impdp "NONE" && negb fatal) 10) as H4.
  { subst st4. destruct impdp as [l|]; [|risk_points].
    destruct (found_in_state (Some l) "NONE" && negb fatal); risk_points. }
  clearbody st4.
  set (st5 := match expdp with Some _ => _ | None => st4 end).
  assert (st5.1 = st4.1 +
            risk_points (found_in_state expdp "COMPLETED_WITH_ERRORS") 10)
    as H5.
  { subst st5. destruct expdp as [l|]; [|risk_points].
    destruct (found_in_state (Some l) "COMPLETED_WITH_ERRORS"); risk_points. }
  clearbody st5.
  set (st6 := match invalid_objects_count validation with
              | Some _ => _ | None => st5 end).
  assert (st6.1 = st5.1 +
            risk_points (match invalid_objects_count validation with
                         | Some inv => inv >? 0
                         | None => false
                         end) 25) as H6.
  { subst st6. destruct (invalid_objects_count validation) as [inv|];
      [|risk_points].
    destruct (inv >? 0); risk_points. }
  clearbody st6.
  set (st7 := match orders_count validation with
              | None => _ | Some _ => st6 end).
  assert (st7.1 = st6.1 +
            risk_points (match orders_count validation with
                         | None => true
                         | Some _ => false
                         end) 5) as H7.
  { subst st7. destruct (orders_count validation); risk_points. }
  clearbody st7. lia.
Qed.

Lemma analyze_log_key_rel (s3 : s3_client) (bucket run_prefix rel : string) :
  key_rel (_analyze_log s3 bucket run_prefix rel) = rel.
Proof.
  unfold _analyze_log. destruct (s3_try_get_text _ _ _ _); [|done].
  by destruct (_dp_completion_state_and_errors _).
Qed.

Lemma run_expdp_is_second (s3 : s3_client) (bucket run_prefix : string) :
  ∃ lr1 lr3,
    run_logs s3 bucket run_prefix =
      [lr1; _analyze_log s3 bucket run_prefix
              "03-migration/expdp_legacy_18c.log"; lr3] ∧
    run_expdp s3 bucket run_prefix =
      Some (_analyze_log s3 bucket run_prefix
              "03-migration/expdp_legacy_18c.log").
Proof.
  unfold run_expdp, run_logs, ALLOWLIST_RELATIVE_KEYS. cbn [fmap list_fmap].
  eexists _, _. split; [reflexivity|]. cbn [find].
  rewrite !analyze_log_key_rel. reflexivity.
Qed.

Lemma parse_validation_pass (s3 : s3_client) (bucket run_prefix : string) :
  status (_parse_validation s3 bucket run_prefix) = "PASS" →
  invalid_objects_count (_parse_validation s3 bucket run_prefix) = Some 0 ∧
  is_Some (orders_count (_parse_validation s3 bucket run_prefix)).
Proof.
  cbn. set (inv := _parse_invalid_object_proof _).
  set (oc := _parse_orders_count_proof _).
  pose proof (parse_invalid_count_nonneg _ : ∀ n, count inv = Some n → 0 ≤ n)
    as Hnn.
  destruct (count inv) as [n|]; [|discriminate].
  destruct (Z.gtb_spec n 0); [discriminate|].
  destruct oc; [|discriminate]. intros _.
  split; [|by eexists]. f_equal. specialize (Hnn n eq_refl). lia.
Qed.

(** A summary classified PASS has a risk score of at most 55, so its level
    is LOW or MEDIUM; the import phase is PASS as well, the validation status
    is PASS with an invalid-object count of 0 and a row count, and no
    excerpts are given. *)
Theorem summary_pass_risk (s3 : s3_client) (bucket run_prefix : string)
    (s : Summary) :
  analyze_run s3 bucket run_prefix = Some s →
  overall_status s = "PASS" →
  risk_score s ≤ 55 ∧
  (risk_level s = "LOW" ∨ risk_level s = "MEDIUM") ∧
  import_status (dp_import (sum_datapump s)) = "PASS" ∧
  status (sum_validation s) = "PASS" ∧
  invalid_objects_count (sum_validation s) = Some 0 ∧
  is_Some (orders_count (sum_validation s)) ∧
  evidence_excerpts s = ∅.
Proof.
  intros (Hv & Ho & _ & Hr & _ & Hl & Hd & _ & Himp)%analyze_run_Some Hpass.
  cbv zeta in *. rewrite Ho in Hpass.
  apply classify_status_pass_found in Hpass as (Hnf & Hi & He & Hvp).
  destruct (parse_validation_pass s3 bucket run_prefix Hvp) as [Hinv [oc Hoc]].
  destruct (run_expdp_is_second s3 bucket run_prefix)
    as (lr1 & lr3 & Hlogs & Hexp).
  set (impdp := run_impdp s3 bucket run_prefix) in *.
  set (expdp := run_expdp s3 bucket run_prefix) in *.
  set (e := _analyze_log s3 bucket run_prefix _) in *.
  destruct impdp as [l|] eqn:Himpdp; [|done].
  assert (found l = true ∧ dp_state l = "SUCCESS") as [Hfl Hsl].
  { cbn in Hi. apply andb_prop in Hi as [? ?%String.eqb_eq]. done. }
  assert (found e = true ∧ dp_state e = "SUCCESS") as [Hfe Hse].
  { rewrite Hexp in He. cbn in He.
    apply andb_prop in He as [? ?%String.eqb_eq]. done. }
  assert (risk_score s ≤ 55) as Hscore.
  { rewrite Hr, risk_score_value. unfold risk_sum. cbv zeta.
    pose proof (nonempty_sorted_filter FATAL_ORA (imp_ora_of (Some l))) as HF.
    pose proof (any_fatal_spec (imp_ora_of (Some l))) as HA.
    unfold has_fatal_code in HA. rewrite <- HA, Hnf in HF.
    destruct (nonempty (sorted (filter (fun c => c ∈ FATAL_ORA) _)));
      [by destruct HF as [HF _]; specialize (HF eq_refl)|].
    rewrite Hlogs, Hexp, Hinv, Hoc. cbn [List.filter is_found found_in_state].
    rewrite Hfl, Hfe, Hsl, Hse. cbn [negb andb String.eqb Ascii.eqb Bool.eqb].
    change (0 >? 0) with false. unfold risk_points, len.
    destruct (found lr1), (found lr3), ((_pick_best_impdp_log s3 bucket run_prefix).1.1.2 >? 1),
      (nonempty (sorted (filter (fun c => c ∈ WARN_ORA) _)));
      cbn [negb length]; lia. }
  split; [done|]. split.
  { rewrite Hl. destruct (risk_level_thresholds (risk_score s)) as (_ & HM & HL).
    destruct (Z.le_gt_cases 35 (risk_score s));
      [right; apply HM; lia|left; by apply HL]. }
  split.
  { rewrite Hd. cbn [datapump dp_import import_status dp_status].
    cbn in Hnf. rewrite Hfl in *. cbn [negb]. by rewrite Hnf, Hsl. }
  rewrite Hv. split; [done|]. split; [done|]. split; [by eexists|].
  destruct Himp as (_ & text & _ & _ & ->).
  pose proof (fatal_codes_of_nonempty l) as Hne.
  destruct (nonempty (fatal_codes_of l)); [|done].
  destruct Hne as [Hne _]. specialize (Hne eq_refl).
  apply any_fatal_spec in Hne. cbn in Hnf. rewrite Hfl in Hnf. congruence.
Qed.

Lemma summary_pass_risk_witness :
  ∃ s, analyze_run (store_client demo_pass_store) "bucket" "runs/d2/" = Some s ∧
       overall_status s = "PASS" ∧ risk_score s ≤ 55.
Proof.
  destruct (analyze_run (store_client demo_pass_store) "bucket" "runs/d2/")
    as [s|] eqn:Hs; [|vm_compute in Hs; discriminate].
  assert (overall_status s = "PASS") as Hp.
  { vm_compute in Hs. injection Hs as <-. reflexivity. }
  exists s. split; [reflexivity|]. split; [exact Hp|].
  exact (proj1 (summary_pass_risk (store_client demo_pass_store) "bucket"
                  "runs/d2/" s Hs Hp)).
Defined.

(** A run that passes after a retry, with a compilation warning and without
    the validation log: PASS, with a score of 40 and level MEDIUM. *)
Example summary_pass_medium :
  (fun s => (overall_status s, risk_score s, risk_level s,
             f_factor <$> risk_factors s, selected_impdp_log s))
    <$> analyze_run (store_client demo_pass_store) "bucket" "runs/d2/"
  = Some ("PASS", 40, "MEDIUM",
          ["missing_required_log"; "impdp_retry_present"; "warn_ora_present"],
          Some "03-migration/impdp_full_retry1.log").
Proof. vm_compute. reflexivity. Qed.

(** ** Fatal codes of the export log *)

(** A fatal code in a found export log makes the status of the export phase
    FAIL, but the classifier does not read it: its answer is FAIL only for a
    fatal code of the import log, and it is PASS when both logs are in state
    SUCCESS, the import log holds no fatal code and the validation status is
    PASS. *)
Theorem export_fatal_not_classified (e : LogResult)
    (impdp : option LogResult) (validation : ValidationResult)
    (impdp_count : Z) :
  found e = true → has_fatal_code (ora_counts e) →
  let r := _classify_status (Some e) impdp validation impdp_count in
  dp_status (Some e) = "FAIL" ∧
  (r.1 = "FAIL" ↔ fatal_in_import impdp) ∧
  (dp_state e = "SUCCESS" → present_in_state impdp "SUCCESS" →
   ¬ fatal_in_import impdp → status validation = "PASS" → r.1 = "PASS").
Proof.
  intros Hf Hfatal r. subst r. split; [|split].
  - destruct (dp_status_spec (Some e)) as (_ & HF & _). apply HF.
    by exists e.
  - apply classify_status_fail_iff.
  - intros Hs Hi Hn Hv. unfold _classify_status.
    apply found_in_state_spec in Hi as Hi'.
    rewrite <- any_fatal_imp_ora in Hn.
    destruct (any_fatal (imp_ora_of impdp)); [done|].
    assert (found_in_state impdp "COMPLETED_WITH_ERRORS" = false) as ->.
    { apply found_in_state_false. intros (l & Hl & _ & Hc).
      destruct Hi as (l' & Hl' & _ & Hs'). congruence. }
    assert (found_in_state (Some e) "COMPLETED_WITH_ERRORS" = false) as ->
      by (cbn; by rewrite Hf, Hs).
    assert (found_in_state (Some e) "SUCCESS" = true) as ->
      by (cbn; by rewrite Hf, Hs).
    rewrite Hi', Hv. reflexivity.
Qed.

Lemma export_fatal_not_classified_witness :
  dp_status (Some demo_fatal_log) = "FAIL" ∧
  (_classify_status (Some demo_fatal_log) (Some demo_success_log)
     demo_validation 1).1 = "PASS".
Proof.
  assert (found demo_fatal_log = true) as Hf by reflexivity.
  assert (has_fatal_code (ora_counts demo_fatal_log)) as Hc.
  { exists "ORA-39000". split; [vm_compute; by eexists|].
    apply (bool_decide_unpack _). vm_compute. exact I. }
  destruct (export_fatal_not_classified demo_fatal_log (Some demo_success_log)
              demo_validation 1 Hf Hc) as (Hs & _ & Hp).
  split; [exact Hs|]. apply Hp.
  - reflexivity.
  - exists demo_success_log. repeat split; reflexivity.
  - intros (l & [= <-] & _ & c & [v Hv] & _). vm_compute in Hv. discriminate.
  - reflexivity.
Defined.

(** ** The most frequent codes *)

Lemma od_get_set {V} (d : odict V) (k k' : string) (v : V) :
  od_get (od_set d k v) k' = if String.eqb k k' then Some v else od_get d k'.
Proof.
  induction d as [|[k0 v0] d IH]; cbn [od_set od_get].
  - done.
  - destruct (String.eqb_spec k0 k) as [->|Hne]; cbn [od_get].
    + destruct (String.eqb_spec k k'); done.
    + rewrite IH. destruct (String.eqb_spec k0 k') as [->|]; [|done].
      destruct (String.eqb_spec k k'); [congruence|done].
Qed.

Lemma od_set_keys {V} (d : odict V) (k : string) (v : V) :
  (od_set d k v).*1 =
  match od_get d k with Some _ => d.*1 | None => (d.*1 ++ [k])%list end.
Proof.
  induction d as [|[k0 v0] d IH]; cbn [od_set od_get]; [done|].
  destruct (String.eqb_spec k0 k) as [->|Hne]; [done|].
  cbn. rewrite IH. by destruct (od_get d k).
Qed.

Lemma od_get_keys {V} (d : odict V) (k : string) :
  is_Some (od_get d k) ↔ k ∈ d.*1.
Proof.
  induction d as [|[k0 v0] d IH]; cbn [od_get].
  - split; [by intros [? ?]|by intros ?%not_elem_of_nil].
  - cbn. rewrite elem_of_cons, <- IH.
    destruct (String.eqb_spec k0 k) as [->|Hne].
    + split; [by left|by eexists].
    + split; [by right|]. by intros [?|?].
Qed.

Lemma od_set_NoDup {V} (d : odict V) (k : string) (v : V) :
  NoDup d.*1 → NoDup (od_set d k v).*1.
Proof.
  intros Hnd. rewrite od_set_keys.
  destruct (od_get d k) eqn:Hk; [done|].
  apply NoDup_app. split; [done|]. split; [|apply NoDup_singleton].
  intros x Hx ->%list_elem_of_singleton.
  apply od_get_keys in Hx as [? ?]. congruence.
Qed.

Lemma od_get_elem {V} (d : odict V) (k : string) (v : V) :
  NoDup d.*1 → (k, v) ∈ d ↔ od_get d k = Some v.
Proof.
  induction d as [|[k0 v0] d IH]; cbn [od_get]; intros Hnd.
  - split; [by intros ?%not_elem_of_nil|done].
  - cbn in Hnd. apply NoDup_cons in Hnd as [Hk0 Hnd].
    rewrite elem_of_cons, (IH Hnd).
    destruct (String.eqb_spec k0 k) as [->|Hne].
    + split; [|intros [= ->]; by left].
      intros [[= ->]|Hin]; [done|]. destruct Hk0.
      apply od_get_keys. by eexists.
    + split; [|by right]. intros [[= ? ?]|?]; [congruence|done].
Qed.

Lemma top_ora_agg (ora_counts_by_file : odict (odict Z)) (agg : odict Z) :
  foldl (fun agg '(_, counts) =>
           foldl (fun agg '(code, cnt) =>
                    od_set agg code (default 0 (od_get agg code) + cnt))
                 agg counts)
        agg ora_counts_by_file
  = foldl add_count agg (all_counts ora_counts_by_file).
Proof.
  unfold all_counts. revert agg.
  induction ora_counts_by_file as [|[f counts] files IH]; intros agg; [done|].
  cbn [foldl fmap list_fmap concat snd]. rewrite foldl_app, IH. f_equal.
  clear. revert agg. induction counts as [|[c n] counts IH]; intros agg; [done|].
  cbn [foldl]. apply IH.
Qed.

Lemma total_count_absent (items : odict Z) (code : string) :
  code ∉ items.*1 → total_count items code = 0.
Proof.
  induction items as [|[c n] items IH]; [done|]. cbn.
  rewrite not_elem_of_cons. intros [Hne Hin].
  destruct (String.eqb_spec c code); [congruence|by apply IH].
Qed.

Lemma total_count_cons (c : string) (n : Z) (items : odict Z)
    (code : string) :
  total_count ((c, n) :: items) code =
  if String.eqb c code then n + total_count items code
  else total_count items code.
Proof. reflexivity. Qed.

Lemma agg_get (items agg : odict Z) (code : string) :
  od_get (foldl add_count agg items) code =
  match od_get agg code with
  | Some v => Some (v + total_count items code)
  | None =>
      if bool_decide (code ∈ items.*1)
      then Some (total_count items code) else None
  end.
Proof.
  revert agg. induction items as [|[c n] items IH]; intros agg.
  - cbn. destruct (od_get agg code); [f_equal; lia|done].
  - cbn [foldl]. rewrite IH. unfold add_count at 1. cbn [fst snd].
    rewrite od_get_set, total_count_cons. cbn [fmap list_fmap fst].
    destruct (String.eqb_spec c code) as [->|Hne].
    + destruct (od_get agg code) as [v|]; cbn [default from_option id];
        [f_equal; lia|].
      rewrite bool_decide_eq_true_2 by left. f_equal; lia.
    + destruct (od_get agg code) as [v|]; [done|].
      destruct (bool_decide_reflect (code ∈ items.*1)) as [Hin|Hin].
      * rewrite bool_decide_eq_true_2; [done|by right].
      * rewrite bool_decide_eq_false_2; [done|].
        intros [?|?]%elem_of_cons; [congruence|done].
Qed.

Lemma agg_NoDup (items agg : odict Z) :
  NoDup agg.*1 → NoDup (foldl add_count agg items).*1.
Proof.
  revert agg. induction items as [|item items IH]; intros agg Hnd; [done|].
  cbn [foldl]. apply IH. by apply od_set_NoDup.
Qed.

Lemma insert_desc_Permutation (x : string * Z) (l : list (string * Z)) :
  insert_desc x l ≡ₚ x :: l.
Proof.
  induction l as [|y l IH]; cbn; [done|].
  destruct (y.2 <=? x.2); [done|]. rewrite IH. apply Permutation_swap.
Qed.

Lemma sorted_desc_Permutation (l : list (string * Z)) : sorted_desc l ≡ₚ l.
Proof.
  unfold sorted_desc. induction l as [|x l IH]; cbn; [done|].
  by rewrite insert_desc_Permutation, IH.
Qed.

Lemma insert_desc_sorted (x : string * Z) (l : list (string * Z)) :
  StronglySorted (fun a b => b.2 ≤ a.2) l →
  StronglySorted (fun a b => b.2 ≤ a.2) (insert_desc x l).
Proof.
  induction 1 as [|y l Hl IH Hy]; cbn [insert_desc].
  - repeat constructor.
  - destruct (Z.leb_spec y.2 x.2) as [Hle|Hgt].
    + constructor; [by constructor|]. constructor; [done|].
      eapply Forall_impl; [exact Hy|]. cbn. intros z Hz. lia.
    + constructor; [done|].
      rewrite insert_desc_Permutation. constructor; [lia|done].
Qed.

Lemma sorted_desc_sorted (l : list (string * Z)) :
  StronglySorted (fun a b => b.2 ≤ a.2) (sorted_desc l).
Proof.
  unfold sorted_desc. induction l as [|x l IH]; cbn; [constructor|].
  by apply insert_desc_sorted.
Qed.

Lemma sorted_decreasing (l : list (string * Z)) :
  StronglySorted (fun a b => b.2 ≤ a.2) l → decreasing l.
Proof.
  induction 1 as [|x l Hl IH Hx]; intros i j a b Hij Hi Hj.
  - by rewrite lookup_nil in Hi.
  - destruct j as [|j]; [lia|]. cbn in Hj. destruct i as [|i].
    + cbn in Hi. injection Hi as <-.
      rewrite Forall_forall in Hx. apply Hx. by eapply list_elem_of_lookup_2.
    + cbn in Hi. apply (IH i j); [lia|done..].
Qed.

Lemma slice_take {A} (l : list A) (n : Z) :
  0 ≤ n → slice l 0 n = take (Z.to_nat n) l.
Proof.
  intros Hn. unfold slice, slice_index, len. cbn [Z.ltb Z.compare].
  destruct (Z.ltb_spec n 0); [lia|].
  replace (0 `min` Z.of_nat (length l)) with 0 by lia.
  rewrite drop_0, Z.sub_0_r.
  destruct (Z.le_gt_cases n (Z.of_nat (length l))).
  - f_equal. lia.
  - rewrite !take_ge by lia. done.
Qed.

(** For a limit that is not negative, [_top_ora] lists at most [top_n]
    codes, each once and with the sum of its counts over all the files, by
    decreasing count; a code that was counted but is not listed has a total
    that is not above any listed count, and the list is then full. *)
Theorem top_ora_spec (ora_counts_by_file : odict (odict Z)) (top_n : Z) :
  0 ≤ top_n →
  let items := all_counts ora_counts_by_file in
  let r := _top_ora ora_counts_by_file top_n in
  len r ≤ top_n ∧
  NoDup r.*1 ∧
  decreasing r ∧
  (∀ code n, (code, n) ∈ r →
     code ∈ items.*1 ∧ n = total_count items code) ∧
  (∀ code, code ∈ items.*1 → code ∉ r.*1 →
     len r = top_n ∧ ∀ x, x ∈ r → total_count items code ≤ x.2).
Proof.
  intros Hn items r. subst r. unfold _top_ora. cbv zeta.
  rewrite top_ora_agg, slice_take by done. fold items.
  set (agg := foldl add_count [] items).
  assert (NoDup agg.*1) as Hnd by (apply agg_NoDup; constructor).
  assert (∀ code n, (code, n) ∈ agg ↔
            code ∈ items.*1 ∧ n = total_count items code) as Hagg.
  { intros code n. rewrite (od_get_elem agg code n Hnd).
    unfold agg. rewrite agg_get. cbn [od_get].
    destruct (bool_decide_reflect (code ∈ items.*1)) as [Hin|Hin].
    - split; [intros [= <-]; done|intros [_ ->]; done].
    - split; [done|by intros [? _]]. }
  pose proof (sorted_desc_Permutation agg) as Hperm.
  pose proof (sorted_desc_sorted agg) as Hsorted.
  set (srt := sorted_desc agg) in *.
  assert (NoDup srt.*1) as Hnds by (by rewrite Hperm).
  split; [unfold len; rewrite length_take; lia|].
  split; [rewrite fmap_take; eapply sublist_NoDup; [exact Hnds|apply sublist_take]|].
  split.
  { apply sorted_decreasing.
    rewrite <- (take_drop (Z.to_nat top_n) srt) in Hsorted.
    by apply StronglySorted_app_1_l in Hsorted. }
  split.
  { intros code n Hin%subseteq_take. rewrite Hperm in Hin. by apply Hagg. }
  intros code Hcode Hnot.
  assert ((code, total_count items code) ∈ srt) as Hin
    by (rewrite Hperm; by apply Hagg).
  apply list_elem_of_lookup_1 in Hin as [j Hj].
  assert (Z.to_nat top_n ≤ j)%nat as Hle.
  { destruct (Nat.le_gt_cases (Z.to_nat top_n) j) as [|Hlt]; [done|].
    destruct Hnot. apply list_elem_of_fmap.
    exists (code, total_count items code). split; [done|].
    apply elem_of_take. by exists j. }
  pose proof (lookup_lt_Some _ _ _ Hj) as Hlen.
  split; [unfold len; rewrite length_take; lia|].
  intros x (i & Hi & Hlt)%elem_of_take.
  apply (sorted_decreasing srt Hsorted i j x _ ltac:(lia) Hi Hj).
Qed.

Lemma top_ora_spec_witness :
  _top_ora [("impdp.log", [("ORA-39082", 2); ("ORA-39000", 1)]);
            ("expdp.log", [("ORA-39000", 4)])] 1
    = [("ORA-39000", 5)] ∧
  len (_top_ora [("impdp.log", [("ORA-39082", 2); ("ORA-39000", 1)]);
                 ("expdp.log", [("ORA-39000", 4)])] 1) ≤ 1.
Proof.
  split; [vm_compute; reflexivity|].
  apply (top_ora_spec
           [("impdp.log", [("ORA-39082", 2); ("ORA-39000", 1)]);
            ("expdp.log", [("ORA-39000", 4)])] 1).
  vm_compute. discriminate.
Defined.

(** Codes with the same total keep the order in which they were first
    counted; a negative limit drops codes from the end of the list. *)
Example top_ora_examples :
  let files := [("a.log", [("ORA-00001", 2); ("ORA-00002", 3)]);
                ("b.log", [("ORA-00003", 2); ("ORA-00001", 1)])] in
  _top_ora files DEFAULT_TOP_N =
    [("ORA-00001", 3); ("ORA-00002", 3); ("ORA-00003", 2)] ∧
  _top_ora files 2 = [("ORA-00001", 3); ("ORA-00002", 3)] ∧
  _top_ora files 0 = [] ∧
  _top_ora files (-1) = [("ORA-00001", 3); ("ORA-00002", 3)] ∧
  _top_ora [] DEFAULT_TOP_N = [].
Proof. vm_compute. done. Qed.
